(** * go-boilingdata: the WebSocket client and its response assembler

    A shallow embedding of [wsclient] (connection manager, sender, receiver,
    key extraction, synchronous facade) and of the [messages] package.

    Conventions of the embedding:
    - a Go [int] / [time.Duration] is a [Z]; where the source relies on
      64-bit or 32-bit wrap-around it is written out ([wrap64], [rune_of_int]);
    - a Go [[]byte] is a [list byte], a Go [string] is a [string];
    - [cmap.ConcurrentMap] is a [gmap] keyed by strings; the values the client
      stores in it ([nil], an [error], a nested concurrent map) are the
      constructors of [entry];
    - [*messages.Response] is a location in an explicit heap, so that the
      aliasing between the correlation table, [temp] and the returned
      pointer is visible. *)

From Stdlib Require Import ZArith List String Ascii Strings.Byte Bool Lia Permutation.
From stdpp Require Import base gmap strings list fin_maps.

Import ListNotations.
Local Open Scope Z_scope.

(** ** Byte slices *)

#[global] Instance byte_eq_decision : EqDecision byte := Byte.byte_eq_dec.

Module bytes.

Definition len (s : list byte) : Z := Z.of_nat (length s).

(** [s[lo:]] *)
Definition from (s : list byte) (lo : Z) : list byte :=
  skipn (Z.to_nat lo) s.

(** [s[lo:hi]] *)
Definition slice (s : list byte) (lo hi : Z) : list byte :=
  firstn (Z.to_nat (hi - lo)) (skipn (Z.to_nat lo) s).

(** [bytes.IndexByte]: index of the first [c] in [s], [-1] if there is none. *)
Fixpoint IndexByte (s : list byte) (c : byte) : Z :=
  match s with
  | [] => -1
  | b :: rest =>
      if Byte.eqb b c then 0
      else let i := IndexByte rest c in
           if i =? -1 then -1 else i + 1
  end.

Definition eqb (a b : list byte) : bool :=
  bool_decide (a = b).

End bytes.

(** The two bytes the key scan looks for. *)
Definition quote : byte := x22.
Definition colon : byte := x3a.

(** ** Key extraction: [parse] *)

(** One iteration of the [for index < len(rawData)] loop of [parse]; the
    loop is bounded by [fuel] and answers [None] only if the fuel runs out
    before the loop ends. *)
Fixpoint parse_loop (fuel : nat) (rawData : list byte) (index : Z)
    (keys : list string) : option (list string) :=
  match fuel with
  | O => None
  | S fuel' =>
      if index <? bytes.len rawData then
        let keyStart := bytes.IndexByte (bytes.from rawData index) quote in
        if keyStart =? -1 then Some keys
        else
          let index := index + keyStart + 1 in
          let keyEnd := bytes.IndexByte (bytes.from rawData index) quote in
          if keyEnd =? -1 then Some keys
          else
            let key := string_of_list_byte
                         (bytes.slice rawData index (index + keyEnd)) in
            let keys :=
              if (index + keyEnd + 1 <? bytes.len rawData)
                 && bytes.eqb (bytes.slice rawData (index + keyEnd)
                                              (index + keyEnd + 2))
                              [quote; colon]
              then keys ++ [key] else keys in
            parse_loop fuel' rawData (index + keyEnd + 1) keys
      else Some keys
  end.

(** [parse]: every iteration moves [index] forward by at least one, so
    [len(rawData) + 1] iterations are enough (see [parse_loop_scan]). *)
Definition parse (raw : list byte) : list string :=
  match parse_loop (S (length raw)) raw 0 [] with
  | Some keys => keys
  | None => []
  end.

(** The scan as the specification words it: read the bytes left to right;
    a double quote opens a candidate, the next double quote closes it, and
    the candidate is accepted when the byte right after the closing quote
    is a colon.  [inside] is [Some acc] while a candidate is open, with the
    bytes read so far in reverse. *)
Fixpoint quote_scan (s : list byte) (inside : option (list byte)) : list string :=
  match s with
  | [] => []
  | b :: rest =>
      match inside with
      | None =>
          if Byte.eqb b quote then quote_scan rest (Some [])
          else quote_scan rest None
      | Some acc =>
          if Byte.eqb b quote then
            match rest with
            | c :: _ =>
                if Byte.eqb c colon
                then string_of_list_byte (rev acc) :: quote_scan rest None
                else quote_scan rest None
            | [] => quote_scan rest None
            end
          else quote_scan rest (Some (b :: acc))
      end
  end.

Definition scan_keys (raw : list byte) : list string := quote_scan raw None.

(** No double quote among the bytes of [s]. *)
Definition no_quote (s : list byte) : Prop :=
  Forall (fun b => Byte.eqb b quote = false) s.

(** ** A model of the part of [encoding/json] that [extractKeys] uses

    [extractKeys] hands the whole frame to [json.Unmarshal] with a target of
    type [struct { Data []json.RawMessage `json:"data"` }].  The library is
    not part of the repository; [extractKeys] below takes the two decoding
    calls as parameters, and this module gives the instance used to run the
    examples: a scanner for the JSON grammar that returns the elements of
    the top-level [data] array as the byte ranges they occupy in the frame.
    Not modelled: the nesting limit of the library's scanner, and member
    names written with escape sequences (they are compared as written). *)

Module json.

Definition is_space (b : byte) : bool :=
  match b with x20 | x09 | x0a | x0d => true | _ => false end.

Definition is_digit (b : byte) : bool :=
  match b with
  | x30 | x31 | x32 | x33 | x34 | x35 | x36 | x37 | x38 | x39 => true
  | _ => false
  end.

Definition is_hex (b : byte) : bool :=
  is_digit b ||
  match b with
  | x61 | x62 | x63 | x64 | x65 | x66
  | x41 | x42 | x43 | x44 | x45 | x46 => true
  | _ => false
  end.

Definition is_simple_escape (b : byte) : bool :=
  match b with
  | x22 | x5c | x2f | x62 | x66 | x6e | x72 | x74 => true
  | _ => false
  end.

Definition is_control (b : byte) : bool := (Byte.to_N b <? 32)%N.

Fixpoint skip_space (s : list byte) : list byte :=
  match s with
  | b :: rest => if is_space b then skip_space rest else s
  | [] => []
  end.

Fixpoint skip_digits (s : list byte) : list byte :=
  match s with
  | b :: rest => if is_digit b then skip_digits rest else s
  | [] => []
  end.

(** The text consumed between [s] and its suffix [rest]. *)
Definition consumed (s rest : list byte) : list byte :=
  firstn (length s - length rest) s.

(** A string, read from just after its opening quote: the text between
    the quotes as written, and what follows the closing quote. *)
Fixpoint scan_string (s : list byte) : option (list byte * list byte) :=
  match s with
  | [] => None
  | x22 :: rest => Some ([], rest)
  | x5c :: e :: rest =>
      if is_simple_escape e then
        '(txt, r) ← scan_string rest; Some (x5c :: e :: txt, r)
      else
        match e, rest with
        | x75, h1 :: h2 :: h3 :: h4 :: rest' =>
            if is_hex h1 && is_hex h2 && is_hex h3 && is_hex h4 then
              '(txt, r) ← scan_string rest';
              Some (x5c :: e :: h1 :: h2 :: h3 :: h4 :: txt, r)
            else None
        | _, _ => None
        end
  | b :: rest =>
      if is_control b || Byte.eqb b x5c then None
      else '(txt, r) ← scan_string rest; Some (b :: txt, r)
  end.

Definition scan_exponent (s : list byte) : option (list byte) :=
  match s with
  | x65 :: r | x45 :: r =>
      let r := match r with x2b :: r' | x2d :: r' => r' | _ => r end in
      match r with
      | d :: r' => if is_digit d then Some (skip_digits r') else None
      | [] => None
      end
  | _ => Some s
  end.

Definition scan_fraction (s : list byte) : option (list byte) :=
  match s with
  | x2e :: d :: r =>
      if is_digit d then scan_exponent (skip_digits r) else None
  | x2e :: [] => None
  | _ => scan_exponent s
  end.

Definition scan_number (s : list byte) : option (list byte) :=
  let s := match s with x2d :: r => r | _ => s end in
  match s with
  | x30 :: r => scan_fraction r
  | d :: r => if is_digit d then scan_fraction (skip_digits r) else None
  | [] => None
  end.

Definition scan_literal (s : list byte) : option (list byte) :=
  match s with
  | x74 :: x72 :: x75 :: x65 :: r => Some r
  | x66 :: x61 :: x6c :: x73 :: x65 :: r => Some r
  | x6e :: x75 :: x6c :: x6c :: r => Some r
  | _ => None
  end.

(** One JSON value that starts at the head of [s]; the answer is what
    follows it.  [fuel] bounds the number of values, members and elements
    visited; one per byte of input is enough. *)
Fixpoint scan_value (fuel : nat) (s : list byte) : option (list byte) :=
  match fuel with
  | O => None
  | S fuel =>
      match s with
      | x7b :: r =>
          match skip_space r with
          | x7d :: r' => Some r'
          | r' => scan_members fuel r'
          end
      | x5b :: r =>
          match skip_space r with
          | x5d :: r' => Some r'
          | r' => scan_elements fuel r'
          end
      | x22 :: r => snd <$> scan_string r
      | x74 :: _ | x66 :: _ | x6e :: _ => scan_literal s
      | _ => scan_number s
      end
  end
with scan_members (fuel : nat) (s : list byte) : option (list byte) :=
  match fuel with
  | O => None
  | S fuel =>
      match s with
      | x22 :: r =>
          '(_, r1) ← scan_string r;
          match skip_space r1 with
          | x3a :: r2 =>
              r3 ← scan_value fuel (skip_space r2);
              match skip_space r3 with
              | x2c :: r4 => scan_members fuel (skip_space r4)
              | x7d :: r4 => Some r4
              | _ => None
              end
          | _ => None
          end
      | _ => None
      end
  end
with scan_elements (fuel : nat) (s : list byte) : option (list byte) :=
  match fuel with
  | O => None
  | S fuel =>
      r1 ← scan_value fuel s;
      match skip_space r1 with
      | x2c :: r2 => scan_elements fuel (skip_space r2)
      | x5d :: r2 => Some r2
      | _ => None
      end
  end.

(** [checkValid]: the whole input is one value between optional blanks. *)
Definition valid (s : list byte) : bool :=
  match scan_value (S (length s)) (skip_space s) with
  | Some r => bool_decide (skip_space r = [])
  | None => false
  end.

(** The elements of an array as [[]json.RawMessage]: each element is the
    text it occupies, read from the head of the first element. *)
Fixpoint raw_elements (fuel : nat) (s : list byte)
    : option (list (list byte)) :=
  match fuel with
  | O => None
  | S fuel =>
      r1 ← scan_value (S (length s)) s;
      match skip_space r1 with
      | x2c :: r2 => cons (consumed s r1) <$> raw_elements fuel (skip_space r2)
      | x5d :: _ => Some [consumed s r1]
      | _ => None
      end
  end.

(** Decoding a value into the [Data] field: an array gives its elements,
    [null] gives the nil slice, anything else is an [UnmarshalTypeError]. *)
Definition raw_array (v : list byte) : option (list (list byte)) :=
  match v with
  | x5b :: r =>
      match skip_space r with
      | x5d :: _ => Some []
      | r' => raw_elements (S (length r')) r'
      end
  | x6e :: _ => Some []
  | _ => None
  end.

Definition to_lower (b : byte) : byte :=
  let n := Byte.to_N b in
  if ((65 <=? n) && (n <=? 90))%N
  then match Byte.of_N (n + 32) with Some c => c | None => b end
  else b.

(** Member names match the field tag [data] up to letter case. *)
Definition is_data_key (k : list byte) : bool :=
  bool_decide (map to_lower k = [x64; x61; x74; x61]).

(** The members of the top-level object, from the head of a member;
    a later [data] member replaces what an earlier one stored. *)
Fixpoint data_member (fuel : nat) (s : list byte) (Data : list (list byte))
    : option (list (list byte)) :=
  match fuel with
  | O => None
  | S fuel =>
      match s with
      | x22 :: r =>
          '(k, r1) ← scan_string r;
          match skip_space r1 with
          | x3a :: r2 =>
              let v := skip_space r2 in
              r3 ← scan_value (S (length v)) v;
              Data' ← (if is_data_key k then raw_array v else Some Data);
              match skip_space r3 with
              | x2c :: r4 => data_member fuel (skip_space r4) Data'
              | x7d :: _ => Some Data'
              | _ => None
              end
          | _ => None
          end
      | _ => None
      end
  end.

(** [json.Unmarshal(jsonData, &data)]: [None] is a non-nil [err],
    [Some d] is [data.Data] after a decode without error. *)
Definition unmarshal_data (jsonData : list byte)
    : option (list (list byte)) :=
  if valid jsonData then
    match skip_space jsonData with
    | x7b :: r =>
        match skip_space r with
        | x7d :: _ => Some []
        | r' => data_member (S (length r')) r' []
        end
    | x6e :: _ => Some []
    | _ => None
    end
  else None.

(** [json.Unmarshal(raw, &firstEntry)] with a [json.RawMessage] target:
    the text of the value, without the blanks around it. *)
Definition unmarshal_raw (raw : list byte) : option (list byte) :=
  if valid raw then
    let v := skip_space raw in
    r ← scan_value (S (length v)) v; Some (consumed v r)
  else None.

End json.

(** ** Key extraction: [extractKeys] *)

Section ExtractKeys.

(** The two calls of [json.Unmarshal]; [None] stands for [err != nil]. *)
Variable unmarshalData : list byte -> option (list (list byte)).
Variable unmarshalRaw : list byte -> option (list byte).

Definition extractKeys (jsonData : list byte) : list string :=
  match unmarshalData jsonData with
  | None => []
  | Some Data =>
      match Data with
      | [] => []
      | first :: _ =>
          match unmarshalRaw first with
          | None => []
          | Some firstEntry => parse firstEntry
          end
      end
  end.

End ExtractKeys.

(** Text of a frame, with [q] written for the double quote. *)
Definition q : list byte := [quote].
Definition txt (s : string) : list byte := list_byte_of_string s.

Definition frame_ab : list byte :=
  txt "{" ++ q ++ txt "data" ++ q ++ txt ":[{" ++ q ++ txt "a" ++ q ++
  txt ":1," ++ q ++ txt "b" ++ q ++ txt ":" ++ q ++ txt "x" ++ q ++ txt "}]}".

Definition frame_no_rows : list byte :=
  txt "{" ++ q ++ txt "data" ++ q ++ txt ":[]}".

(** ** Package [messages] *)

Module messages.

(** A row of [Data] is a [map[string]interface{}]; the client never looks
    inside one, so a row is kept as its text. *)
Definition row : Type := string.

Record Payload := {
  Payload_MessageType : string;
  SQL : string;
  Payload_RequestID : string
}.

Record Response := {
  MessageType : string;
  RequestID : string;
  BatchSerial : Z;
  TotalBatches : Z;
  SplitSerial : Z;
  TotalSplitSerials : Z;
  CacheInfo : string;
  SubBatchSerial : Z;
  TotalSubBatches : Z;
  Data : list row;
  Keys : list string
}.

Record LogMessage := {
  Log_MessageType : string;
  LogLevel : string;
  Log_RequestID : string;
  LogMessageText : string
}.

Definition GetPayLoad : Payload :=
  {| Payload_MessageType := "SQL_QUERY"; SQL := ""; Payload_RequestID := "" |}.

(** [&messages.Response{}] *)
Definition zero : Response :=
  {| MessageType := ""; RequestID := ""; BatchSerial := 0; TotalBatches := 0;
     SplitSerial := 0; TotalSplitSerials := 0; CacheInfo := "";
     SubBatchSerial := 0; TotalSubBatches := 0; Data := []; Keys := [] |}.

(** [type MessageType int] with its three constants. *)
Definition DATA : Z := 0.
Definition INFO : Z := 1.
Definition LOG_MESSAGE : Z := 2.

Definition MessageType_String (s : Z) : string :=
  if s =? DATA then "DATA"
  else if s =? INFO then "INFO"
  else if s =? LOG_MESSAGE then "LOG_MESSAGE"
  else "UNKNOWN".

(** [response.Keys = ...] and [finalResponse.Data = ...] *)
Definition set_Keys (keys : list string) (r : Response) : Response :=
  {| MessageType := MessageType r; RequestID := RequestID r;
     BatchSerial := BatchSerial r; TotalBatches := TotalBatches r;
     SplitSerial := SplitSerial r; TotalSplitSerials := TotalSplitSerials r;
     CacheInfo := CacheInfo r; SubBatchSerial := SubBatchSerial r;
     TotalSubBatches := TotalSubBatches r; Data := Data r; Keys := keys |}.

Definition set_Data (data : list row) (r : Response) : Response :=
  {| MessageType := MessageType r; RequestID := RequestID r;
     BatchSerial := BatchSerial r; TotalBatches := TotalBatches r;
     SplitSerial := SplitSerial r; TotalSplitSerials := TotalSplitSerials r;
     CacheInfo := CacheInfo r; SubBatchSerial := SubBatchSerial r;
     TotalSubBatches := TotalSubBatches r; Data := data; Keys := Keys r |}.

End messages.

(** ** Integer to string conversions of the language

    The receiver files a fragment under [string(response.SubBatchSerial)] and
    the facade looks fragments up under [string(rune(i))]: both convert an
    integer to the UTF-8 text of the code point it denotes, and anything
    that is not a code point (negative, a surrogate, above [0x10FFFF])
    becomes the text of [U+FFFD]. *)

Module gostring.

Definition runeError : Z := 0xFFFD.
Definition surrogateMin : Z := 0xD800.
Definition surrogateMax : Z := 0xDFFF.
Definition maxRune : Z := 0x10FFFF.

(** [rune(i)] for an [int]: the low 32 bits, read as signed. *)
Definition rune_of_int (i : Z) : Z := (i + 2 ^ 31) mod 2 ^ 32 - 2 ^ 31.

Definition valid_rune (r : Z) : bool :=
  (0 <=? r) && (r <=? maxRune)
  && negb ((surrogateMin <=? r) && (r <=? surrogateMax)).

(** The bytes of the UTF-8 encoding of a code point. *)
Definition encoderune (r : Z) : list Z :=
  if r <=? 0x7F then [r]
  else if r <=? 0x7FF then
    [Z.lor 0xC0 (Z.shiftr r 6); Z.lor 0x80 (Z.land r 0x3F)]
  else if r <=? 0xFFFF then
    [Z.lor 0xE0 (Z.shiftr r 12);
     Z.lor 0x80 (Z.land (Z.shiftr r 6) 0x3F);
     Z.lor 0x80 (Z.land r 0x3F)]
  else
    [Z.lor 0xF0 (Z.shiftr r 18);
     Z.lor 0x80 (Z.land (Z.shiftr r 12) 0x3F);
     Z.lor 0x80 (Z.land (Z.shiftr r 6) 0x3F);
     Z.lor 0x80 (Z.land r 0x3F)].

Definition of_bytes (bs : list Z) : string :=
  fold_right (fun b s => String (ascii_of_N (Z.to_N b)) s) EmptyString bs.

(** [string(v)] for an [int] [v]. *)
Definition of_int (v : Z) : string :=
  of_bytes (encoderune (if valid_rune v then v else runeError)).

(** [string(rune(i))] for an [int] [i]. *)
Definition of_rune_of_int (i : Z) : string := of_int (rune_of_int i).

(** Reading a conversion back: the code point of a one to four byte
    encoding. *)
Definition code_of (s : string) : Z :=
  match map (fun a => Z.of_N (N_of_ascii a)) (list_ascii_of_string s) with
  | [b0] => b0
  | [b0; b1] => Z.lor (Z.shiftl (Z.land b0 0x1F) 6) (Z.land b1 0x3F)
  | [b0; b1; b2] =>
      Z.lor (Z.shiftl (Z.land b0 0x0F) 12)
        (Z.lor (Z.shiftl (Z.land b1 0x3F) 6) (Z.land b2 0x3F))
  | [b0; b1; b2; b3] =>
      Z.lor (Z.shiftl (Z.land b0 0x07) 18)
        (Z.lor (Z.shiftl (Z.land b1 0x3F) 12)
           (Z.lor (Z.shiftl (Z.land b2 0x3F) 6) (Z.land b3 0x3F)))
  | _ => -1
  end.

End gostring.

(** ** Error texts made by [fmt.Errorf]

    Several calls pass a text that is built at run time to [fmt.Errorf] as
    its format, with no operand.  The library copies a format up to its
    first percent sign, so a format that holds none is the message; what
    the library makes of a percent sign and of the bytes behind it is not
    part of the repository. *)

Module fmt.

(** The format holds no percent sign.  The byte of the percent sign
    occurs in no multi-byte encoding, so the test on bytes is the test on
    characters. *)
Definition percent_free (format : string) : bool :=
  forallb (fun c => negb (Ascii.eqb c "%")) (list_ascii_of_string format).

(** [fmt.Errorf(format).Error()] for a call with the format alone;
    [verbs] stands for the library on a format with a percent sign. *)
Definition Errorf (verbs : string -> string) (format : string) : string :=
  if percent_free format then format else verbs format.

End fmt.

(** ** Package [wsclient]: the client state *)

Module wsclient.

Import messages.

(** Identities of the objects the client points to. *)
Definition conn : Type := nat.   (* a [*websocket.Conn] *)
Definition chan : Type := nat.   (* a [chan []byte] made for [stopChannel] *)
Definition loc : Type := nat.    (* a [*messages.Response] *)

(** What the client stores in [resultsMap] as an [interface{}]: [nil],
    an [error], or the concurrent map of the fragments of one request,
    from [string(SubBatchSerial)] to the fragment. *)
Inductive entry :=
| Nil
| Err (e : string)
| Responses (v : gmap string loc).

(** The fields of [WSSClient] that the methods read or write.  [mu] is
    not a field here: a method body that runs between [mu.Lock()] and
    [mu.Unlock()] is one transition.  [idleTimer] holds the window the
    timer is armed with.  [heap] and [next] are the store of the
    [messages.Response] objects and the next free location; [made] counts
    the stop channels made so far. *)
Record WSSClient := {
  URL : string;
  Conn : option conn;
  idleTimeoutMinutes : Z;
  idleTimer : option Z;
  Error : string;
  messageChannel : list (list byte);
  stopChannel : option chan;
  resultsMap : gmap string entry;
  heap : loc -> Response;
  next : loc;
  made : nat
}.

Definition set_Conn (x : option conn) (w : WSSClient) : WSSClient :=
  {| URL := URL w; Conn := x; idleTimeoutMinutes := idleTimeoutMinutes w;
     idleTimer := idleTimer w; Error := Error w;
     messageChannel := messageChannel w; stopChannel := stopChannel w;
     resultsMap := resultsMap w; heap := heap w; next := next w;
     made := made w |}.

Definition set_idleTimeoutMinutes (x : Z) (w : WSSClient) : WSSClient :=
  {| URL := URL w; Conn := Conn w; idleTimeoutMinutes := x;
     idleTimer := idleTimer w; Error := Error w;
     messageChannel := messageChannel w; stopChannel := stopChannel w;
     resultsMap := resultsMap w; heap := heap w; next := next w;
     made := made w |}.

Definition set_idleTimer (x : option Z) (w : WSSClient) : WSSClient :=
  {| URL := URL w; Conn := Conn w; idleTimeoutMinutes := idleTimeoutMinutes w;
     idleTimer := x; Error := Error w;
     messageChannel := messageChannel w; stopChannel := stopChannel w;
     resultsMap := resultsMap w; heap := heap w; next := next w;
     made := made w |}.

Definition set_Error (x : string) (w : WSSClient) : WSSClient :=
  {| URL := URL w; Conn := Conn w; idleTimeoutMinutes := idleTimeoutMinutes w;
     idleTimer := idleTimer w; Error := x;
     messageChannel := messageChannel w; stopChannel := stopChannel w;
     resultsMap := resultsMap w; heap := heap w; next := next w;
     made := made w |}.

Definition set_messageChannel (x : list (list byte)) (w : WSSClient)
    : WSSClient :=
  {| URL := URL w; Conn := Conn w; idleTimeoutMinutes := idleTimeoutMinutes w;
     idleTimer := idleTimer w; Error := Error w;
     messageChannel := x; stopChannel := stopChannel w;
     resultsMap := resultsMap w; heap := heap w; next := next w;
     made := made w |}.

(** [wsc.stopChannel = make(chan []byte)] and [wsc.stopChannel = nil] *)
Definition make_stopChannel (w : WSSClient) : WSSClient :=
  {| URL := URL w; Conn := Conn w; idleTimeoutMinutes := idleTimeoutMinutes w;
     idleTimer := idleTimer w; Error := Error w;
     messageChannel := messageChannel w; stopChannel := Some (made w);
     resultsMap := resultsMap w; heap := heap w; next := next w;
     made := S (made w) |}.

Definition nil_stopChannel (w : WSSClient) : WSSClient :=
  {| URL := URL w; Conn := Conn w; idleTimeoutMinutes := idleTimeoutMinutes w;
     idleTimer := idleTimer w; Error := Error w;
     messageChannel := messageChannel w; stopChannel := None;
     resultsMap := resultsMap w; heap := heap w; next := next w;
     made := made w |}.

Definition set_resultsMap (x : gmap string entry) (w : WSSClient)
    : WSSClient :=
  {| URL := URL w; Conn := Conn w; idleTimeoutMinutes := idleTimeoutMinutes w;
     idleTimer := idleTimer w; Error := Error w;
     messageChannel := messageChannel w; stopChannel := stopChannel w;
     resultsMap := x; heap := heap w; next := next w; made := made w |}.

(** [wsc.resultsMap.Set(key, value)] *)
Definition Set_ (key : string) (value : entry) (w : WSSClient) : WSSClient :=
  set_resultsMap (<[key := value]> (resultsMap w)) w.

(** A new [messages.Response] object; the answer is its location. *)
Definition alloc (r : Response) (w : WSSClient) : loc * WSSClient :=
  (next w,
   {| URL := URL w; Conn := Conn w;
      idleTimeoutMinutes := idleTimeoutMinutes w;
      idleTimer := idleTimer w; Error := Error w;
      messageChannel := messageChannel w; stopChannel := stopChannel w;
      resultsMap := resultsMap w;
      heap := fun l => if Nat.eqb l (next w) then r else heap w l;
      next := S (next w); made := made w |}).

(** [p.Data = data] through a pointer [p]. *)
Definition store_Data (l : loc) (data : list row) (w : WSSClient)
    : WSSClient :=
  {| URL := URL w; Conn := Conn w;
     idleTimeoutMinutes := idleTimeoutMinutes w;
     idleTimer := idleTimer w; Error := Error w;
     messageChannel := messageChannel w; stopChannel := stopChannel w;
     resultsMap := resultsMap w;
     heap := fun l' => if Nat.eqb l' l then set_Data data (heap w l)
                       else heap w l';
     next := next w; made := made w |}.

(** What a method does to the objects outside the client: the socket,
    the stop channel. *)
Inductive effect :=
| CloseStop (ch : chan)
| CloseConn (c : conn)
| WriteMessage (c : conn) (message : list byte).

(** How a loop body ends: with the next iteration, with [return], or
    with a run-time panic. *)
Inductive flow := Next | Returned | Panicked.

Definition wrap64 (x : Z) : Z := (x + 2 ^ 63) mod 2 ^ 64 - 2 ^ 63.

(** [time.Minute], in nanoseconds. *)
Definition Minute : Z := 60 * 1000000000.

(** ** Connection manager *)

Definition IsWebSocketClosed (wsc : WSSClient) : bool :=
  match Conn wsc with None => true | Some _ => false end.

(** [shutdown], between [mu.Lock()] and the deferred [mu.Unlock()]. *)
Definition shutdown (wsc : WSSClient) : list effect * WSSClient :=
  let wsc := set_resultsMap ∅ wsc in
  let '(e1, wsc) :=
    match stopChannel wsc with
    | Some ch => ([CloseStop ch], nil_stopChannel wsc)
    | None => ([], wsc)
    end in
  let '(e2, wsc) :=
    match Conn wsc with
    | Some c => ([CloseConn c], set_Conn None wsc)
    | None => ([], wsc)
    end in
  (e1 ++ e2, wsc).

(** [connect]; [dial] is what [websocket.DefaultDialer.Dial] answers,
    a connection or the text of its error. *)
Definition connect (dial : conn + string) (wsc : WSSClient) : WSSClient :=
  match dial with
  | inr err => set_Error err wsc
  | inl c => make_stopChannel (set_Conn (Some c) wsc)
  end.

Definition Connect (dial : conn + string) (wsc : WSSClient) : WSSClient :=
  if IsWebSocketClosed wsc then connect dial wsc else wsc.

(** [SendMessage]: the two writes to the table, then the send on
    [messageChannel].  The channel has no buffer: [messageChannel] lists
    the frames whose send has started and that the sender has not received
    yet, and [SendMessage] answers the client in which the send of its
    frame starts.  The call itself returns only when the sender receives
    the frame ([RecvMessage] in [sendMessageAsync_body] takes it off the
    list); without a sender it does not return. *)
Definition enqueue (message : list byte) (wsc : WSSClient) : WSSClient :=
  set_messageChannel (messageChannel wsc ++ [message]) wsc.

Definition SendMessage (message : list byte) (payload : Payload)
    (wsc : WSSClient) : WSSClient :=
  let wsc := Set_ "error" Nil wsc in
  let wsc := Set_ (Payload_RequestID payload) Nil wsc in
  enqueue message wsc.

Section Constants.

(** [constants.IdleTimeoutMinutes]; package [constants] is not among
    the sources, the value is a parameter. *)
Variable IdleTimeoutMinutes : Z.

(** [resetIdleTimer]: stopping the old timer and [time.AfterFunc] leave
    one timer, armed with the new window. *)
Definition resetIdleTimer (wsc : WSSClient) : WSSClient :=
  let wsc :=
    if idleTimeoutMinutes wsc <=? 0
    then set_idleTimeoutMinutes IdleTimeoutMinutes wsc
    else set_idleTimeoutMinutes
           (wrap64 (idleTimeoutMinutes wsc * Minute)) wsc in
  set_idleTimer (Some (idleTimeoutMinutes wsc)) wsc.

(** [NewWSSClient]; [osInterrupt] only registers the listener. *)
Definition NewWSSClient (url : string) (idleTimeoutMinutes : Z)
    : WSSClient :=
  resetIdleTimer
    {| URL := url; Conn := None;
       idleTimeoutMinutes := idleTimeoutMinutes; idleTimer := None;
       Error := ""; messageChannel := []; stopChannel := Some O;
       resultsMap := ∅; heap := fun _ => zero; next := O; made := 1%nat |}.

(** The function the idle timer runs when it fires. *)
Definition idleTimerFired (wsc : WSSClient) : list effect * WSSClient :=
  let '(es, wsc) := shutdown wsc in (es, resetIdleTimer wsc).

(** The interrupt listener, on a signal. *)
Definition interruptReceived (wsc : WSSClient)
    : list effect * WSSClient :=
  shutdown wsc.

(** ** Sender *)

(** The case that [select] takes in [sendMessageAsync]. *)
Inductive sender_select :=
| RecvMessage            (* a frame from [messageChannel] *)
| RecvClosed             (* [messageChannel] is closed *)
| RecvStop.              (* [stopChannel] *)

(** One iteration of the loop of [sendMessageAsync]; [write] is the
    error of [Conn.WriteMessage], if any. *)
Definition sendMessageAsync_body (sel : sender_select)
    (write : option string) (wsc : WSSClient)
    : flow * list effect * WSSClient :=
  match sel with
  | RecvClosed => (Returned, [], wsc)
  | RecvStop => (Returned, [], wsc)
  | RecvMessage =>
      match messageChannel wsc with
      | [] => (Next, [], wsc)
      | message :: rest =>
          let wsc := set_messageChannel rest wsc in
          match Conn wsc with
          | None =>
              let wsc := set_Error
                "Could not send message to websocket -> Not connected to WebSocket server"
                wsc in
              (Returned, [],
               Set_ "error"
                 (Err "Could not send message to websocket -> Not connected to WebSocket server")
                 wsc)
          | Some c =>
              match idleTimer wsc with
              | None => (Panicked, [], wsc)
              | Some _ =>
                  let wsc := set_idleTimer (Some IdleTimeoutMinutes) wsc in
                  match write with
                  | Some err =>
                      (Returned, [],
                       Set_ "error"
                         (Err ("Could not send message to websocket: " ++ err))
                         wsc)
                  | None => (Next, [WriteMessage c message], wsc)
                  end
              end
          end
      end
  end.

(** [defer wsc.shutdown()]: it runs when the loop body returns or
    panics. *)
Definition deferred_shutdown (r : flow * list effect * WSSClient)
    : flow * list effect * WSSClient :=
  match r with
  | (Next, es, wsc) => (Next, es, wsc)
  | (f, es, wsc) => let '(es', wsc) := shutdown wsc in (f, es ++ es', wsc)
  end.

Definition sendMessageAsync_step (sel : sender_select)
    (write : option string) (wsc : WSSClient)
    : flow * list effect * WSSClient :=
  deferred_shutdown (sendMessageAsync_body sel write wsc).

End Constants.

(** ** Receiver *)

Section Receiver.

(** The calls of [json.Unmarshal] on an inbound frame; the library is
    not part of the repository.  [unmarshalResponse] answers the value
    of the pointer [response] after the call ([None] is the nil pointer
    the variable starts with) and the error; [unmarshalLog] does the
    same for [logMessage]; the last two are the calls inside
    [extractKeys]. *)
Variable unmarshalResponse : list byte -> option Response * option string.
Variable unmarshalLog : list byte -> option LogMessage * option string.
Variable unmarshalData : list byte -> option (list (list byte)).
Variable unmarshalRaw : list byte -> option (list byte).

(** Lines 226-235: a [DATA] frame, decoded to [response], is filed in
    the collection of its request under [string(SubBatchSerial)]; the
    collection is made when the entry is not one yet. *)
Definition storeFragment (message : list byte) (response : Response)
    (wsc : WSSClient) : WSSClient :=
  let '(v, wsc) :=
    match resultsMap wsc !! RequestID response with
    | Some (Responses v) => (v, wsc)
    | _ => (∅, Set_ (RequestID response) (Responses ∅) wsc)
    end in
  let response :=
    if (TotalSubBatches response =? 0)
       || (TotalSubBatches response =? SubBatchSerial response)
    then set_Keys (extractKeys unmarshalData unmarshalRaw message) response
    else response in
  let '(l, wsc) := alloc response wsc in
  Set_ (RequestID response)
    (Responses (<[gostring.of_int (SubBatchSerial response) := l]> v)) wsc.

(** Lines 207-236: what the receiver does with a frame it has read.  The
    three error texts are the formats the source hands to [fmt.Errorf];
    they are the messages recorded when the text of the decoder error, or
    of the log, holds no percent sign ([fmt.percent_free]). *)
Definition handleMessage (message : list byte) (wsc : WSSClient)
    : flow * WSSClient :=
  let '(response, err) := unmarshalResponse message in
  let after_decode :=
    match err with
    | None => Some wsc
    | Some e =>
        match response with
        | None => None         (* [response.RequestID] on a nil pointer *)
        | Some r =>
            Some (Set_ (RequestID r) (Err ("Error parsing JSON: " ++ e)) wsc)
        end
    end in
  match after_decode, response with
  | None, _ => (Panicked, wsc)
  | Some wsc, None => (Panicked, wsc)  (* [response.MessageType] on nil *)
  | Some wsc, Some r =>
      if String.eqb (MessageType_String LOG_MESSAGE) (MessageType r) then
        let '(logMessage, err) := unmarshalLog message in
        match err with
        | Some e =>
            (Next, Set_ (RequestID r) (Err ("Error parsing JSON: " ++ e)) wsc)
        | None =>
            match logMessage with
            | None => (Panicked, wsc)
            | Some lm =>
                if String.eqb (LogLevel lm) "ERROR"
                then (Next,
                      Set_ (RequestID r)
                        (Err ("Log message from server: " ++ LogMessageText lm))
                        wsc)
                else (Next, wsc)
            end
        end
      else if String.eqb (MessageType_String DATA) (MessageType r) then
        (Next, storeFragment message r wsc)
      else (Next, wsc)
  end.

(** What [Conn.ReadMessage] answers: an error, or a frame (that may be
    nil). *)
Inductive read_result :=
| ReadError (err : string)
| ReadFrame (message : option (list byte)).

(** One iteration of the loop of [receiveMessageAsync]; [stopped] says
    that [select] took the [stopChannel] case. *)
Definition receiveMessageAsync_body (stopped : bool) (read : read_result)
    (wsc : WSSClient) : flow * list effect * WSSClient :=
  if stopped then (Returned, [], wsc)
  else
    match Conn wsc with
    | None =>
        let wsc := set_Error
          "Could not receive message from websocket -> Not connected to WebSocket server"
          wsc in
        (Returned, [],
         Set_ "error"
           (Err "Could not recieve message from websocket -> Not connected to WebSocket server")
           wsc)
    | Some _ =>
        match read with
        | ReadError err =>
            (Returned, [],
             Set_ "error"
               (Err ("Could not read message from websocket -> %!(EXTRA string="
                     ++ err ++ ")"))
               wsc)
        | ReadFrame None => (Next, [], wsc)
        | ReadFrame (Some message) =>
            let '(f, wsc) := handleMessage message wsc in (f, [], wsc)
        end
    end.

Definition receiveMessageAsync_step (stopped : bool) (read : read_result)
    (wsc : WSSClient) : flow * list effect * WSSClient :=
  deferred_shutdown (receiveMessageAsync_body stopped read wsc).

End Receiver.

(** ** Synchronous facade *)

Section Facade.

(** The first item that [v.IterBuffered()] yields; the order of the
    iteration is not fixed by the map. *)
Variable IterBuffered_first : gmap string loc -> option (string * loc).

(** What [GetResponseSync] returns as its [*messages.Response]: nil,
    a new empty response, or a pointer into the heap. *)
Inductive response_ptr :=
| NilResponse
| NewResponse
| Ptr (l : loc).

(** How one look at the table ends: [continue] (with the value of
    [temp]), [return] (with the client as the call leaves it), or a
    run-time panic.  [TimedOut] is the return of the timeout case,
    [(nil, errors.New(...))]. *)
Inductive poll_result :=
| Wait (temp : option loc)
| Done (r : response_ptr) (err : option string) (wsc : WSSClient)
| TimedOut
| Crash.

(** Lines 357-363: the rows of the fragments found under the keys
    [string(rune(0))] .. [string(rune(count))], in that order. *)
Definition merge (wsc : WSSClient) (v : gmap string loc) : list row :=
  fold_left
    (fun data i =>
       match v !! gostring.of_rune_of_int (Z.of_nat i) with
       | Some l => data ++ Data (heap wsc l)
       | None => data
       end)
    (seq 0 (S (size v))) [].

(** Lines 346-375, for an entry that is a collection [v]. *)
Definition collect (wsc : WSSClient) (v : gmap string loc)
    (temp : option loc) : poll_result :=
  if (0 <? size v)%nat then
    let temp :=
      match temp with
      | None => snd <$> IterBuffered_first v
      | Some _ => temp
      end in
    match temp with
    | None => Crash                      (* [temp.Data] on a nil pointer *)
    | Some t =>
        if (length (Data (heap wsc t)) <=? 0)%nat then
          Done NewResponse
            (Some "No response from server. Check SQL syntax") wsc
        else if (TotalSubBatches (heap wsc t) =? 0)
                || (TotalSubBatches (heap wsc t) =? Z.of_nat (size v))
        then
          let data := merge wsc v in
          let val :=
            match v !! gostring.of_rune_of_int (Z.of_nat (size v)) with
            | Some l => Some l
            | None => v !! gostring.of_rune_of_int 0
            end in
          match val with
          | None => Crash                (* type assertion on a nil [val] *)
          | Some l => Done (Ptr l) None (store_Data l data wsc)
          end
        else Wait (Some t)
    end
  else Wait temp.

(** The [default] case of the [select] of [GetResponseSync]: one look
    at the table. *)
Definition poll (wsc : WSSClient) (requestID : string)
    (temp : option loc) : poll_result :=
  match resultsMap wsc !! "error" with
  | Some (Err e) => Done NewResponse (Some e) wsc
  | Some (Responses _) => Crash          (* [v.(error)] on a map *)
  | Some Nil | None =>
      match resultsMap wsc !! requestID with
      | None => Wait temp
      | Some (Err e) => Done NewResponse (Some e) wsc
      | Some responses =>
          match resultsMap wsc !! "" with
          | Some (Err e) => Done NewResponse (Some e) (Set_ "" Nil wsc)
          | _ =>
              match responses with
              | Responses v => collect wsc v temp
              | _ => Wait temp
              end
          end
      end
  end.

(** The [for] loop of [GetResponseSync].  The client is shared with the
    receiver, so the table may differ from one look to the next: [looks]
    lists the states the [default] case finds, one per iteration, up to
    the moment the timeout channel delivers. *)
Fixpoint GetResponseSync_loop (looks : list WSSClient)
    (requestID : string) (temp : option loc) : poll_result :=
  match looks with
  | [] => TimedOut
  | wsc :: rest =>
      match poll wsc requestID temp with
      | Wait temp => GetResponseSync_loop rest requestID temp
      | r => r
      end
  end.

(** [GetResponseSync]: [temp] starts as the nil pointer. *)
Definition GetResponseSync (looks : list WSSClient) (requestID : string)
    : poll_result :=
  GetResponseSync_loop looks requestID None.

End Facade.

End wsclient.

(** ** Vocabulary of the statements about the facade *)

Module facade.

Import messages wsclient.

(** The fragments filed for a request: its collection, or the empty map
    when the entry is absent, pending or an error. *)
Definition coll_of (wsc : WSSClient) (requestID : string)
    : gmap string loc :=
  match resultsMap wsc !! requestID with
  | Some (Responses v) => v
  | _ => ∅
  end.

(** The receiver files the decoded data frames of [arrival], in the
    order of the list. *)
Definition receive_all
    (unmarshalData : list byte -> option (list (list byte)))
    (unmarshalRaw : list byte -> option (list byte))
    (arrival : list (list byte * Response)) (wsc : WSSClient) : WSSClient :=
  fold_left
    (fun w mr => storeFragment unmarshalData unmarshalRaw (fst mr) (snd mr) w)
    arrival wsc.

(** The key the receiver files a fragment under. *)
Definition key_of (r : Response) : string :=
  gostring.of_int (SubBatchSerial r).

(** The iterator yields an item of the map whenever there is one. *)
Definition iter_sound
    (IterBuffered_first : gmap string loc -> option (string * loc)) : Prop :=
  forall v : gmap string loc,
    v <> ∅ ->
    exists k l, IterBuffered_first v = Some (k, l) /\ v !! k = Some l.

(** The fragment a fresh call of [GetResponseSync] would keep in [temp]. *)
Definition first_seen
    (IterBuffered_first : gmap string loc -> option (string * loc))
    (wsc : WSSClient) (requestID : string) : option Response :=
  match resultsMap wsc !! requestID with
  | Some (Responses v) =>
      (fun kl => heap wsc (snd kl)) <$> IterBuffered_first v
  | _ => None
  end.

(** Neither reserved slot holds something the facade returns or trips
    on before it reaches the entry of the request: [error] is absent or
    nil, the empty key is not an error. *)
Definition no_error_pending (wsc : WSSClient) : Prop :=
  (resultsMap wsc !! "error"%string = None
   \/ resultsMap wsc !! "error"%string = Some Nil)
  /\ forall e, resultsMap wsc !! ""%string <> Some (Err e).

(** The error [GetResponseSync] returns for a result without rows. *)
Definition no_rows_error : string :=
  "No response from server. Check SQL syntax".

(** One iteration order: the first pair of the listing of the map. *)
Definition first_of (v : gmap string loc) : option (string * loc) :=
  head (map_to_list v).

(** The largest total for which the keys [string(1)] .. [string(N)] are
    all different: [0xD800], the first surrogate. *)
Definition max_distinct : nat := Z.to_nat gostring.surrogateMin.

(** The code point that a conversion reads back as, for an index up to
    [max_distinct]. *)
Definition key_ok (r : Z) : bool :=
  gostring.code_of (gostring.of_int r)
  =? (if r <? gostring.surrogateMin then r else gostring.runeError).

Fixpoint check_range (n : nat) (z : Z) : bool :=
  match n with
  | O => true
  | S n' => key_ok z && check_range n' (z + 1)
  end.

End facade.

Module reassembly.

Import messages wsclient facade.

(** The collection of a request holds exactly the fragments [fs]: each
    one under its key, with its rows and its declared total, and nothing
    else. *)
Definition filed (requestID : string) (w : WSSClient)
    (fs : list Response) : Prop :=
  (forall r, In r fs ->
     exists l, coll_of w requestID !! key_of r = Some l
               /\ Data (heap w l) = Data r
               /\ TotalSubBatches (heap w l) = TotalSubBatches r)
  /\ (forall k l, coll_of w requestID !! k = Some l ->
        (l < next w)%nat /\ exists r, In r fs /\ k = key_of r)
  /\ size (coll_of w requestID) = length fs.

(** [temp] after the assignment of lines 348-353. *)
Definition temp_after
    (IterBuffered_first : gmap string loc -> option (string * loc))
    (v : gmap string loc) (temp : option loc) : option loc :=
  match temp with
  | None => snd <$> IterBuffered_first v
  | Some _ => temp
  end.

(** The fragment that lines 365-368 pick as [finalResponse]. *)
Definition latest (v : gmap string loc) : option loc :=
  match v !! gostring.of_rune_of_int (Z.of_nat (size v)) with
  | Some l => Some l
  | None => v !! gostring.of_rune_of_int 0
  end.

(** The rows of the fragments that a collection holds under the keys of
    0, 1, ..., [size v], one key after the other; a key that is vacant
    gives no rows, and a fragment under any other key is not read. *)
Definition rows_under (w : WSSClient) (v : gmap string loc) : list row :=
  concat
    (map (fun i =>
            match v !! gostring.of_rune_of_int (Z.of_nat i) with
            | Some l => Data (heap w l)
            | None => []
            end)
       (seq 0 (S (size v)))).

End reassembly.

(** ** Example clients and fragments *)

Module examples.

Import messages wsclient facade.

Definition example_frame : list byte := txt "{}".

(** A decoder of frames into [*messages.Response] for text that is not
    JSON: it leaves the pointer nil and answers an error, as
    [json.Unmarshal] does before it touches its target. *)
Definition unmarshalResponse_syntax (message : list byte)
    : option Response * option string :=
  if json.valid message then (Some zero, None)
  else (None, Some "invalid character").

(** A client that is connected. *)
Definition open_client : WSSClient :=
  Connect (inl O) (NewWSSClient 5 "wss://host" 0).

Definition payload_q1 : Payload :=
  {| Payload_MessageType := "SQL_QUERY"; SQL := "SELECT 1";
     Payload_RequestID := "q1" |}.

(** A client that is connected and has request [q1] pending. *)
Definition pending_q1 : WSSClient :=
  SendMessage (txt "{}") payload_q1
    (Connect (inl O) (NewWSSClient 5 "wss://host" 0)).

Definition fragment (serial total : Z) (rows : list row) : Response :=
  {| MessageType := "DATA"; RequestID := "q1"; BatchSerial := 1;
     TotalBatches := 1; SplitSerial := 1; TotalSplitSerials := 1;
     CacheInfo := ""; SubBatchSerial := serial; TotalSubBatches := total;
     Data := rows; Keys := [] |}.

Definition receive (arrival : list (list byte * Response)) : WSSClient :=
  receive_all json.unmarshal_data json.unmarshal_raw arrival pending_q1.

(** Two fragments with rows, the second one arriving first. *)
Definition two_fragments : list Response :=
  [fragment 1 2 ["row1"]; fragment 2 2 ["row2"; "row3"]]%string.

Definition two_arrival : list (list byte * Response) :=
  [(txt "{}", fragment 2 2 ["row2"; "row3"]);
   (txt "{}", fragment 1 2 ["row1"])]%string.

(** Two fragments of which one has no rows. *)
Definition hollow_fragments : list Response :=
  [fragment 1 2 []; fragment 2 2 ["row2"]]%string.

Definition hollow_arrival : list (list byte * Response) :=
  [(txt "{}", fragment 1 2 []); (txt "{}", fragment 2 2 ["row2"])]%string.

(** Two fragments that declare a total of 2 and carry the serials 0
    and 5. *)
Definition gap_arrival : list (list byte * Response) :=
  [(txt "{}", fragment 0 2 ["row0"]); (txt "{}", fragment 5 2 ["row5"])]%string.

(** A log frame of level [ERROR] for request [q1], as its two decodings. *)
Definition log_envelope : Response :=
  {| MessageType := "LOG_MESSAGE"; RequestID := "q1"; BatchSerial := 0;
     TotalBatches := 0; SplitSerial := 0; TotalSplitSerials := 0;
     CacheInfo := ""; SubBatchSerial := 0; TotalSubBatches := 0;
     Data := []; Keys := [] |}.

Definition error_log : LogMessage :=
  {| Log_MessageType := "LOG_MESSAGE"; LogLevel := "ERROR";
     Log_RequestID := "q1"; LogMessageText := "no such table" |}.

End examples.

(** ** Two calls of [shutdown] at the same time

    [shutdown] statement by statement, for two callers that share the
    client and the mutex [mu].  A caller at [AtLock] takes a step only when
    the mutex is free. *)

Module concurrent.

Import messages wsclient.

(** The statement a caller is about to run. *)
Inductive pc :=
| AtLock        (* [wsc.mu.Lock()] *)
| AtClear       (* [wsc.resultsMap.Clear()] *)
| AtStop        (* [if wsc.stopChannel != nil { close; = nil }] *)
| AtConn        (* [if wsc.Conn != nil { Close; = nil }] *)
| AtUnlock      (* the deferred [wsc.mu.Unlock()] *)
| Finished.

(** The callers are [false] and [true]; [mu] names the holder.  [effects]
    are the closes performed so far, and [clears] counts the calls of
    [resultsMap.Clear()] performed so far. *)
Record config := {
  client : WSSClient;
  mu : option bool;
  pc_of_first : pc;
  pc_of_second : pc;
  effects : list effect;
  clears : nat
}.

Definition pc_of (c : config) (caller : bool) : pc :=
  if caller then pc_of_second c else pc_of_first c.

Definition at_pc (caller : bool) (p : pc) (c : config) : config :=
  {| client := client c; mu := mu c;
     pc_of_first := if caller then pc_of_first c else p;
     pc_of_second := if caller then p else pc_of_second c;
     effects := effects c; clears := clears c |}.

Definition with_mu (m : option bool) (c : config) : config :=
  {| client := client c; mu := m; pc_of_first := pc_of_first c;
     pc_of_second := pc_of_second c; effects := effects c;
     clears := clears c |}.

Definition with_client (w : WSSClient) (es : list effect) (c : config)
    : config :=
  {| client := w; mu := mu c; pc_of_first := pc_of_first c;
     pc_of_second := pc_of_second c; effects := effects c ++ es;
     clears := clears c |}.

(** [wsc.resultsMap.Clear()], counted. *)
Definition Clear (c : config) : config :=
  {| client := set_resultsMap ∅ (client c); mu := mu c;
     pc_of_first := pc_of_first c; pc_of_second := pc_of_second c;
     effects := effects c; clears := S (clears c) |}.

(** One statement of [caller]. *)
Definition step (caller : bool) (c : config) : config :=
  match pc_of c caller with
  | AtLock =>
      match mu c with
      | None => at_pc caller AtClear (with_mu (Some caller) c)
      | Some _ => c
      end
  | AtClear => at_pc caller AtStop (Clear c)
  | AtStop =>
      at_pc caller AtConn
        match stopChannel (client c) with
        | Some ch => with_client (nil_stopChannel (client c)) [CloseStop ch] c
        | None => c
        end
  | AtConn =>
      at_pc caller AtUnlock
        match Conn (client c) with
        | Some cn => with_client (set_Conn None (client c)) [CloseConn cn] c
        | None => c
        end
  | AtUnlock => at_pc caller Finished (with_mu None c)
  | Finished => c
  end.

Definition start (wsc : WSSClient) : config :=
  {| client := wsc; mu := None; pc_of_first := AtLock;
     pc_of_second := AtLock; effects := []; clears := O |}.

(** The callers take their steps in the order of [schedule]. *)
Definition run (schedule : list bool) (c : config) : config :=
  fold_left (fun c caller => step caller c) schedule c.

(** Where the caller that holds the mutex is, when it is the first of
    the two to run: the client and the effects so far. *)
Definition progress (wsc : WSSClient) (p : pc) : WSSClient * list effect :=
  let s1 := set_resultsMap ∅ wsc in
  let '(e2, s2) :=
    match stopChannel s1 with
    | Some ch => ([CloseStop ch], nil_stopChannel s1)
    | None => ([], s1)
    end in
  let '(e3, s3) :=
    match Conn s2 with
    | Some cn => (e2 ++ [CloseConn cn], set_Conn None s2)
    | None => (e2, s2)
    end in
  match p with
  | AtLock | AtClear => (wsc, [])
  | AtStop => (s1, [])
  | AtConn => (s2, e2)
  | AtUnlock | Finished => (s3, e3)
  end.

(** Whether a caller at [p] has run its [Clear]. *)
Definition cleared (p : pc) : nat :=
  match p with
  | AtLock | AtClear => O
  | _ => 1%nat
  end.

(** What holds of every configuration that the two callers reach. *)
Definition reachable_shape (wsc : WSSClient) (c : config) : Prop :=
  clears c = (cleared (pc_of_first c) + cleared (pc_of_second c))%nat
  /\ match pc_of_first c, pc_of_second c with
     | AtLock, AtLock =>
         mu c = None /\ (client c, effects c) = (wsc, [])
     | AtLock, Finished | Finished, AtLock | Finished, Finished =>
         mu c = None /\ (client c, effects c) = progress wsc Finished
     | AtLock, p =>
         mu c = Some true /\ (client c, effects c) = progress wsc p
     | p, AtLock =>
         mu c = Some false /\ (client c, effects c) = progress wsc p
     | Finished, _ =>
         mu c = Some true /\ (client c, effects c) = progress wsc Finished
     | _, Finished =>
         mu c = Some false /\ (client c, effects c) = progress wsc Finished
     | _, _ => False
     end.

(** A schedule in which the two calls overlap. *)
Definition overlapping : list bool :=
  [true; false; true; true; false; true; false; true; false; false;
   false; false; false].

(** A schedule that lets each caller run to its end, whatever the
    configuration it starts in: the first caller runs through if it holds
    the mutex or finds it free, then the second one does, then the first
    one if it had to wait. *)
Definition completion : list bool :=
  repeat false 5 ++ repeat true 5 ++ repeat false 5.

End concurrent.

(** ** The loops of the sender and of the receiver *)

Module loops.

Import messages wsclient.

(** [sendMessageAsync]: the loop runs one body per case that [select]
    takes, with the outcome of the write of that iteration, until a body
    returns or panics (the deferred [shutdown] has run by then).  When the
    list ends first the goroutine is still in its loop ([Next]). *)
Fixpoint sendMessageAsync (IdleTimeoutMinutes : Z)
    (cases : list (sender_select * option string)) (wsc : WSSClient)
    : flow * list effect * WSSClient :=
  match cases with
  | [] => (Next, [], wsc)
  | (sel, write) :: rest =>
      match sendMessageAsync_step IdleTimeoutMinutes sel write wsc with
      | (Next, es, wsc') =>
          let '(f, es', wsc'') :=
            sendMessageAsync IdleTimeoutMinutes rest wsc' in
          (f, es ++ es', wsc'')
      | r => r
      end
  end.

(** [receiveMessageAsync]: one body per iteration, with what [select] and
    [Conn.ReadMessage] answer in it. *)
Fixpoint receiveMessageAsync
    (unmarshalResponse : list byte -> option Response * option string)
    (unmarshalLog : list byte -> option LogMessage * option string)
    (unmarshalData : list byte -> option (list (list byte)))
    (unmarshalRaw : list byte -> option (list byte))
    (reads : list (bool * read_result)) (wsc : WSSClient)
    : flow * list effect * WSSClient :=
  match reads with
  | [] => (Next, [], wsc)
  | (stopped, read) :: rest =>
      match receiveMessageAsync_step unmarshalResponse unmarshalLog
              unmarshalData unmarshalRaw stopped read wsc with
      | (Next, es, wsc') =>
          let '(f, es', wsc'') :=
            receiveMessageAsync unmarshalResponse unmarshalLog unmarshalData
              unmarshalRaw rest wsc' in
          (f, es ++ es', wsc'')
      | r => r
      end
  end.

(** The frames of the effects that are writes, in order. *)
Definition written (es : list effect) : list (list byte) :=
  flat_map (fun e => match e with
                     | WriteMessage _ message => [message]
                     | _ => []
                     end) es.

End loops.

(** ** Package [boilingdata]: the registry of instances and [Query] *)

Module boilingdata.

Import messages wsclient.

(** [Auth] is declared in a file that is not among the sources; the two
    fields [GetInstance] fills are kept. *)
Record Auth := { userName : string; password : string }.

Record Instance := { Wsc : WSSClient; Auth_of : Auth }.

(** [queryServiceMap], with the instances it points to: [instances] is
    the store of the [Instance] objects made so far, [next_instance] the
    next free location. *)
Record registry := {
  queryServiceMap : gmap string nat;
  instances : gmap nat Instance;
  next_instance : nat
}.

Definition empty_registry : registry :=
  {| queryServiceMap := ∅; instances := ∅; next_instance := O |}.

Section Constants.

(** [constants.WssUrl] and [constants.IdleTimeoutMinutes]. *)
Variable WssUrl : string.
Variable IdleTimeoutMinutes : Z.

(** [GetInstance], between [muLock.Lock()] and the deferred unlock: the
    pointer returned and the registry after the call. *)
Definition GetInstance (user pass : string) (reg : registry)
    : nat * registry :=
  match queryServiceMap reg !! user with
  | Some qs => (qs, reg)
  | None =>
      let qs := next_instance reg in
      (qs,
       {| queryServiceMap := <[user := qs]> (queryServiceMap reg);
          instances :=
            <[qs := {| Wsc := NewWSSClient IdleTimeoutMinutes WssUrl 0;
                       Auth_of := {| userName := user; password := pass |} |}]>
              (instances reg);
          next_instance := S qs |})
  end.

End Constants.

Definition RemoveUser (user : string) (reg : registry) : registry :=
  {| queryServiceMap := delete user (queryServiceMap reg);
     instances := instances reg;
     next_instance := next_instance reg |}.

(** What [jwt.Parse] answers for a token, as far as [GetInstanceByToken]
    looks at it: no token at all (a nil pointer), claims that are not a
    [jwt.MapClaims], or map claims with the value of [email] when that
    value is a string. *)
Inductive parsed_token :=
| NoToken
| OtherClaims
| MapClaims (email : option string).

Inductive by_token :=
| Found (qs : nat)
| Refused (err : string)
| TokenPanic.

Definition GetInstanceByToken (jwtToken : parsed_token) (reg : registry)
    : by_token :=
  match jwtToken with
  | NoToken => TokenPanic           (* [jwtToken.Claims] on a nil pointer *)
  | OtherClaims => Refused "Invalid token claims"
  | MapClaims None => Refused "Failed to convert username claim to string"
  | MapClaims (Some user) =>
      match queryServiceMap reg !! user with
      | None => Refused "Token not valid, please login using credentials"
      | Some qs => Found qs
      end
  end.

(** What [Query] returns: an error (with a new empty response), or the
    response [GetResponseSync] returned; and the client as the call leaves
    it.  [QueryPanic] is a panic inside [GetResponseSync], [QueryBlocked]
    a call that does not return: the send of [SendMessage] finds nobody
    to receive the frame. *)
Inductive query_result :=
| QueryError (err : string) (wsc : WSSClient)
| QueryResponse (l : loc) (wsc : WSSClient)
| QueryPanic
| QueryBlocked.

Section Query.

Variable IterBuffered_first : gmap string loc -> option (string * loc).

(** [fmt.Errorf] on a format with a percent sign. *)
Variable verbs : string -> string.

(** [Query] on the client of an instance.  The calls that leave the
    repository are arguments: [authenticate] is what
    [Auth.Authenticate] answers (a token or the text of its error),
    [sign] what [Auth.GetSignedWssHeader] answers for a token ([None] for
    a header, since the header only travels to the dial), [dial] what the
    dial answers, [unmarshalPayload] what [json.Unmarshal] leaves in
    [payload] and its error.

    [after_send] is what the other goroutines do once the send of
    [SendMessage] has started, as far as the call sees it: [None] when no
    sender receives the frame, so that the send never returns; otherwise
    the client at the moment the send returns (the sender has received
    the frame) and the states that the looks of [GetResponseSync] find
    after it.  A timeout leaves the client as the last look found it. *)
Definition Query
    (authenticate : string + string)
    (sign : string -> option string)
    (dial : conn + string)
    (unmarshalPayload : list byte -> Payload * option string)
    (after_send : WSSClient -> option (WSSClient * list WSSClient))
    (payloadMessage : list byte) (wsc : WSSClient) : query_result :=
  let connected :=
    if IsWebSocketClosed wsc then
      match authenticate with
      | inr err => inr (QueryError (fmt.Errorf verbs ("Error : " ++ err)) wsc)
      | inl idToken =>
          match sign idToken with
          | Some err =>
              inr (QueryError
                     (fmt.Errorf verbs ("Error Signing wssUrl: " ++ err)) wsc)
          | None =>
              let wsc := Connect dial wsc in
              if IsWebSocketClosed wsc
              then inr (QueryError (fmt.Errorf verbs (Error wsc)) wsc)
              else inl wsc
          end
      end
    else inl wsc in
  match connected with
  | inr failed => failed
  | inl wsc =>
      let '(payload, err) := unmarshalPayload payloadMessage in
      match err with
      | Some e =>
          QueryError
            (fmt.Errorf verbs ("error unmarshalling Payload : " ++ e)) wsc
      | None =>
          let wsc := SendMessage payloadMessage payload wsc in
          match after_send wsc with
          | None => QueryBlocked
          | Some (received, looks) =>
              match GetResponseSync IterBuffered_first looks
                      (Payload_RequestID payload) with
              | TimedOut =>
                  QueryError
                    (fmt.Errorf verbs
                       "timeout occurred while waiting for response")
                    (List.last looks received)
              | Done _ (Some e) wsc' => QueryError (fmt.Errorf verbs e) wsc'
              | Done (Ptr l) None wsc' =>
                  match Data (heap wsc' l) with
                  | [] => QueryError (fmt.Errorf verbs "") wsc'
                  | _ => QueryResponse l wsc'
                  end
              | Done NewResponse None wsc' =>
                  QueryError (fmt.Errorf verbs "") wsc'
              | Done NilResponse None _ =>
                  QueryPanic                (* [response.Data] on nil *)
              | Wait _ =>
                  QueryPanic     (* not an answer of [GetResponseSync] *)
              | Crash => QueryPanic
              end
          end
      end
  end.

End Query.

End boilingdata.

(** ** The code point behind a key *)

Module keys.

(** The code point that [string(v)] encodes: [v] itself when it is one,
    [U+FFFD] otherwise. *)
Definition code_point (v : Z) : Z :=
  if gostring.valid_rune v then v else gostring.runeError.

(** Reading the conversion of [r] back gives [r]. *)
Definition reads_back (r : Z) : bool :=
  gostring.code_of (gostring.of_bytes (gostring.encoderune r)) =? r.

(** [reads_back] for the [n] integers from [z] on. *)
Fixpoint all_read_back (n : nat) (z : Z) : bool :=
  match n with
  | O => true
  | S n' => reads_back z && all_read_back n' (z + 1)
  end.

End keys.

(* ================================================================= *)
(** * Properties *)

(** *** The index loop of [parse] against the left-to-right scan *)

Section ParseScan.

Lemma IndexByte_ge s c : -1 <= bytes.IndexByte s c.
Proof.
  induction s as [|b s IH]; simpl; [lia|].
  destruct (Byte.eqb b c); [lia|].
  destruct (Z.eqb_spec (bytes.IndexByte s c) (-1)); lia.
Qed.

Lemma IndexByte_none s :
  bytes.IndexByte s quote = -1 -> no_quote s.
Proof.
  induction s as [|b s IH]; simpl; intros H; [constructor|].
  destruct (Byte.eqb b quote) eqn:E; [lia|].
  destruct (Z.eqb_spec (bytes.IndexByte s quote) (-1)) as [E1|E1].
  - constructor; [exact E | exact (IH E1)].
  - pose proof (IndexByte_ge s quote). lia.
Qed.

Lemma IndexByte_split s k :
  bytes.IndexByte s quote = k -> k <> -1 ->
  exists pre post,
    s = pre ++ quote :: post /\ length pre = Z.to_nat k /\ 0 <= k /\
    no_quote pre.
Proof.
  revert k. induction s as [|b s IH]; simpl; intros k H Hk; [lia|].
  destruct (Byte.eqb b quote) eqn:E.
  - apply Byte.byte_dec_bl in E. subst b k.
    exists [], s. repeat split; [lia | constructor].
  - destruct (Z.eqb_spec (bytes.IndexByte s quote) (-1)) as [E1|E1]; [lia|].
    destruct (IH _ eq_refl E1) as (pre & post & -> & Hl & H0 & Hn).
    exists (b :: pre), post. subst k. repeat split.
    + simpl. rewrite Hl. lia.
    + lia.
    + constructor; auto.
Qed.

Lemma quote_scan_no_quote_outside pre s :
  no_quote pre -> quote_scan (pre ++ s) None = quote_scan s None.
Proof.
  induction 1 as [|b pre Hb _ IH]; simpl; [reflexivity|].
  now rewrite Hb.
Qed.

Lemma quote_scan_no_quote_inside pre s acc :
  no_quote pre ->
  quote_scan (pre ++ s) (Some acc) = quote_scan s (Some (rev pre ++ acc)).
Proof.
  intros H. revert acc.
  induction H as [|b pre Hb _ IH]; intros acc; simpl; [reflexivity|].
  rewrite Hb, IH. now rewrite <- app_assoc.
Qed.

Lemma from_app_length pre s :
  bytes.from (pre ++ s) (Z.of_nat (length pre)) = s.
Proof.
  unfold bytes.from. rewrite Nat2Z.id.
  induction pre; simpl; auto.
Qed.

Lemma from_from raw i k :
  0 <= i -> 0 <= k ->
  bytes.from raw (i + k) = bytes.from (bytes.from raw i) k.
Proof.
  intros Hi Hk. unfold bytes.from.
  rewrite skipn_skipn. f_equal. lia.
Qed.

Lemma slice_from raw i k :
  0 <= i -> 0 <= k ->
  bytes.slice raw i (i + k) = firstn (Z.to_nat k) (bytes.from raw i).
Proof.
  intros Hi Hk. unfold bytes.slice, bytes.from. f_equal. lia.
Qed.

Lemma len_from raw i :
  0 <= i <= bytes.len raw -> bytes.len (bytes.from raw i) = bytes.len raw - i.
Proof.
  intros Hi. unfold bytes.len, bytes.from in *.
  rewrite length_skipn. lia.
Qed.

(** The test of line 306, on the suffix that starts at the closing quote. *)
Lemma colon_test raw j post :
  0 <= j -> bytes.from raw j = quote :: post ->
  (j + 1 <? bytes.len raw)
    && bytes.eqb (bytes.slice raw j (j + 2)) [quote; colon]
  = match post with c :: _ => Byte.eqb c colon | [] => false end.
Proof.
  intros Hj Hs.
  assert (Hlen : bytes.len raw - j = bytes.len (quote :: post)).
  { rewrite <- Hs. symmetry. apply len_from.
    destruct (Z.le_gt_cases j (bytes.len raw)) as [?|Hgt]; [lia|].
    unfold bytes.from, bytes.len in *.
    rewrite skipn_all2 in Hs by lia. discriminate. }
  rewrite slice_from, Hs by lia.
  unfold bytes.len in *.
  destruct post as [|c post]; simpl in *.
  - destruct (Z.ltb_spec (j + 1) (Z.of_nat (length raw))); [lia|reflexivity].
  - destruct (Z.ltb_spec (j + 1) (Z.of_nat (length raw))); [|lia].
    simpl. unfold bytes.eqb.
    destruct (Byte.eqb c colon) eqn:E.
    + apply Byte.byte_dec_bl in E. subst c.
      apply bool_decide_eq_true. reflexivity.
    + apply bool_decide_eq_false. intros [= ->].
      rewrite Byte.byte_dec_lb in E by reflexivity. discriminate.
Qed.

Lemma parse_loop_scan fuel raw index keys :
  0 <= index <= bytes.len raw ->
  (Z.to_nat (bytes.len raw - index) < fuel)%nat ->
  parse_loop fuel raw index keys
  = Some (keys ++ quote_scan (bytes.from raw index) None).
Proof.
  revert index keys.
  induction fuel as [|fuel IH]; intros index keys Hi Hf; [lia|].
  simpl.
  destruct (Z.ltb_spec index (bytes.len raw)) as [Hlt|Hge].
  2:{ assert (index = bytes.len raw) as -> by lia.
      unfold bytes.from, bytes.len. rewrite Nat2Z.id, skipn_all.
      simpl. now rewrite app_nil_r. }
  destruct (Z.eqb_spec (bytes.IndexByte (bytes.from raw index) quote) (-1))
    as [E1|E1].
  { apply IndexByte_none in E1.
    rewrite <- (app_nil_r (bytes.from raw index)).
    rewrite quote_scan_no_quote_outside by assumption.
    simpl. now rewrite app_nil_r. }
  destruct (IndexByte_split _ _ eq_refl E1)
    as (pre & post & Hs & Hl & H0 & Hn).
  set (keyStart := bytes.IndexByte (bytes.from raw index) quote) in *.
  assert (Hpost : bytes.from raw (index + keyStart + 1) = post).
  { replace (index + keyStart + 1) with (index + (keyStart + 1)) by lia.
    rewrite from_from, Hs by lia.
    replace (keyStart + 1) with (Z.of_nat (length (pre ++ [quote]))).
    - replace (pre ++ quote :: post) with ((pre ++ [quote]) ++ post)
        by now rewrite <- app_assoc.
      apply from_app_length.
    - rewrite length_app. simpl. lia. }
  assert (Hlen : bytes.len raw - index = bytes.len (pre ++ quote :: post)).
  { rewrite <- Hs. symmetry. apply len_from. lia. }
  unfold bytes.len in Hlen. rewrite length_app in Hlen. simpl in Hlen.
  rewrite Hs, quote_scan_no_quote_outside by assumption.
  simpl. change (Byte.eqb quote quote) with true. cbv iota.
  rewrite Hpost.
  destruct (Z.eqb_spec (bytes.IndexByte post quote) (-1)) as [E2|E2].
  { apply IndexByte_none in E2.
    rewrite <- (app_nil_r post).
    rewrite quote_scan_no_quote_inside by assumption.
    simpl. now rewrite app_nil_r. }
  destruct (IndexByte_split _ _ eq_refl E2)
    as (pre2 & post2 & Hs2 & Hl2 & H02 & Hn2).
  set (keyEnd := bytes.IndexByte post quote) in *.
  set (index' := index + keyStart + 1) in *.
  assert (Hclose : bytes.from raw (index' + keyEnd) = quote :: post2).
  { rewrite from_from, Hpost, Hs2 by lia.
    replace keyEnd with (Z.of_nat (length pre2)) by lia.
    apply from_app_length. }
  assert (Hnext : bytes.from raw (index' + keyEnd + 1) = post2).
  { rewrite from_from, Hclose by lia. reflexivity. }
  assert (Hkey : bytes.slice raw index' (index' + keyEnd) = pre2).
  { rewrite slice_from, Hpost, Hs2 by lia.
    rewrite <- Hl2. rewrite firstn_app, Nat.sub_diag, firstn_all.
    simpl. now rewrite app_nil_r. }
  assert (Hlen2 : bytes.len raw - index' = bytes.len post).
  { rewrite <- Hpost. symmetry. apply len_from. unfold bytes.len. lia. }
  rewrite Hs2 in Hlen2. unfold bytes.len in Hlen2.
  rewrite length_app in Hlen2. simpl in Hlen2.
  rewrite colon_test with (post := post2) by (assumption || lia).
  rewrite IH by (unfold bytes.len in *; lia).
  rewrite Hnext, Hkey.
  rewrite Hs2, quote_scan_no_quote_inside by assumption.
  rewrite app_nil_r. simpl.
  change (Byte.eqb quote quote) with true. cbv iota.
  destruct post2 as [|c post2']; [reflexivity|].
  destruct (Byte.eqb c colon); [|reflexivity].
  rewrite rev_involutive, <- app_assoc. reflexivity.
Qed.

(** The loop of [parse] ends within its bound, with the keys of the
    left-to-right scan. *)
Lemma parse_loop_ends raw :
  parse_loop (S (length raw)) raw 0 [] = Some (scan_keys raw).
Proof.
  unfold scan_keys.
  rewrite parse_loop_scan; [reflexivity | unfold bytes.len; lia |].
  unfold bytes.len. lia.
Qed.

Lemma parse_scan raw : parse raw = scan_keys raw.
Proof. unfold parse. now rewrite parse_loop_ends. Qed.

(** The scan, case by case: text without a double quote yields no key; an
    opening quote that is never closed yields no key; a quoted candidate
    is a key exactly when a colon follows its closing quote, and the scan
    goes on after that quote. *)
Lemma scan_keys_no_quote s : no_quote s -> scan_keys s = [].
Proof.
  intros H. unfold scan_keys.
  rewrite <- (app_nil_r s), quote_scan_no_quote_outside by assumption.
  reflexivity.
Qed.

Lemma scan_keys_unclosed pre body :
  no_quote pre -> no_quote body -> scan_keys (pre ++ quote :: body) = [].
Proof.
  intros Hp Hb. unfold scan_keys.
  rewrite quote_scan_no_quote_outside by assumption. simpl.
  change (Byte.eqb quote quote) with true. cbv iota.
  rewrite <- (app_nil_r body), quote_scan_no_quote_inside by assumption.
  reflexivity.
Qed.

Lemma scan_keys_candidate pre body rest :
  no_quote pre -> no_quote body ->
  scan_keys (pre ++ quote :: body ++ quote :: rest)
  = match rest with
    | c :: _ => if Byte.eqb c colon then [string_of_list_byte body] else []
    | [] => []
    end ++ scan_keys rest.
Proof.
  intros Hp Hb. unfold scan_keys.
  rewrite quote_scan_no_quote_outside by assumption. simpl.
  change (Byte.eqb quote quote) with true. cbv iota.
  rewrite quote_scan_no_quote_inside by assumption. simpl.
  change (Byte.eqb quote quote) with true. cbv iota.
  rewrite app_nil_r, rev_involutive.
  destruct rest as [|c rest]; [reflexivity|].
  destruct (Byte.eqb c colon); reflexivity.
Qed.

End ParseScan.

(** ** Key extraction *)

(** C2. Key extraction takes the first element of the [data] array of the
    frame and returns the keys of the left-to-right quote scan of its bytes
    ([scan_keys]: a candidate runs from a double quote to the next one and
    is accepted when a colon follows the closing quote at once); it returns
    no keys when decoding fails or the array is empty.  The loop of [parse]
    ends within [len(rawData) + 1] iterations.  On the frame
    [{"data":[{"a":1,"b":"x"}]}] the keys are [a], [b] in this order, on
    [{"data":[]}] there are none. *)
Theorem extractKeys_quote_scan :
  (forall (unmarshalData : list byte -> option (list (list byte)))
          (unmarshalRaw : list byte -> option (list byte))
          (jsonData : list byte),
      extractKeys unmarshalData unmarshalRaw jsonData =
        match unmarshalData jsonData with
        | Some (first :: _) =>
            match unmarshalRaw first with
            | Some firstEntry => scan_keys firstEntry
            | None => []
            end
        | _ => []
        end)
  /\ (forall raw : list byte,
         parse_loop (S (length raw)) raw 0 [] = Some (scan_keys raw))
  /\ extractKeys json.unmarshal_data json.unmarshal_raw frame_ab
     = ["a"; "b"]%string
  /\ extractKeys json.unmarshal_data json.unmarshal_raw frame_no_rows = [].
Proof.
  split; [|split; [|split]].
  - intros uD uR jsonData. unfold extractKeys.
    destruct (uD jsonData) as [[|first rest]|]; try reflexivity.
    destruct (uR first) as [firstEntry|]; [apply parse_scan | reflexivity].
  - apply parse_loop_ends.
  - vm_compute. reflexivity.
  - vm_compute. reflexivity.
Qed.

(** ** Connection manager, sender and receiver *)

Import messages wsclient facade examples.

Lemma shutdown_state wsc :
  resultsMap (snd (shutdown wsc)) = ∅
  /\ stopChannel (snd (shutdown wsc)) = None
  /\ Conn (snd (shutdown wsc)) = None.
Proof.
  destruct wsc as [url c idle timer err queue stop table h n m].
  destruct stop, c; unfold shutdown; simpl; repeat split; reflexivity.
Qed.

Lemma shutdown_closed wsc : IsWebSocketClosed (snd (shutdown wsc)) = true.
Proof.
  unfold IsWebSocketClosed.
  now destruct (shutdown_state wsc) as (_ & _ & ->).
Qed.

(** C10. [SendMessage] writes the pending value [nil] to the reserved slot
    [error] and then to the entry of the request id, and only then hands
    the frame to the channel: the client that the send on the channel
    starts from holds [nil] in both places, whatever was recorded there
    before, and the other entries are as they were. *)
Theorem SendMessage_resets_slots (message : list byte) (payload : Payload)
    (wsc : WSSClient) :
  let pending :=
    Set_ (Payload_RequestID payload) Nil (Set_ "error" Nil wsc) in
  SendMessage message payload wsc = enqueue message pending
  /\ resultsMap pending !! "error"%string = Some Nil
  /\ resultsMap pending !! Payload_RequestID payload = Some Nil
  /\ resultsMap (SendMessage message payload wsc) = resultsMap pending
  /\ messageChannel (SendMessage message payload wsc)
     = messageChannel wsc ++ [message]
  /\ resultsMap (SendMessage message payload wsc)
     = <[Payload_RequestID payload := Nil]>
         (<["error"%string := Nil]> (resultsMap wsc)).
Proof.
  cbv zeta. repeat split.
  - unfold Set_. simpl.
    destruct (decide (Payload_RequestID payload = "error"%string)) as [->|Hne].
    + apply lookup_insert_eq.
    + rewrite lookup_insert_ne by done. apply lookup_insert_eq.
  - unfold Set_. simpl. apply lookup_insert_eq.
Qed.

(** C9. After a [Connect] whose dial succeeded the socket is not closed,
    and after each path that tears the connection down (the idle timer,
    the interrupt listener, the sender or the receiver leaving their loop)
    it is closed. *)
Theorem IsWebSocketClosed_lifecycle :
  (forall (c : conn) (wsc : WSSClient),
      IsWebSocketClosed (Connect (inl c) wsc) = false)
  /\ (forall (IdleTimeoutMinutes : Z) (wsc : WSSClient),
         IsWebSocketClosed (snd (idleTimerFired IdleTimeoutMinutes wsc)) = true)
  /\ (forall wsc : WSSClient,
         IsWebSocketClosed (snd (interruptReceived wsc)) = true)
  /\ (forall (IdleTimeoutMinutes : Z) sel write (wsc : WSSClient),
         match sendMessageAsync_step IdleTimeoutMinutes sel write wsc with
         | (Next, _, _) => True
         | (_, _, wsc') => IsWebSocketClosed wsc' = true
         end)
  /\ (forall uResp uLog uData uRaw stopped read (wsc : WSSClient),
         match receiveMessageAsync_step uResp uLog uData uRaw stopped read wsc
         with
         | (Next, _, _) => True
         | (_, _, wsc') => IsWebSocketClosed wsc' = true
         end).
Proof.
  assert (Hdef : forall r,
             match deferred_shutdown r with
             | (Next, _, _) => True
             | (_, _, wsc') => IsWebSocketClosed wsc' = true
             end).
  { intros [[f es] w]. unfold deferred_shutdown.
    destruct f; [exact I| |];
      pose proof (shutdown_closed w) as H;
      destruct (shutdown w) as [es' w']; exact H. }
  repeat split.
  - intros c wsc. unfold Connect, IsWebSocketClosed, connect.
    destruct (Conn wsc) eqn:E; simpl; [now rewrite E | reflexivity].
  - intros D wsc. unfold idleTimerFired.
    pose proof (shutdown_closed wsc) as H.
    destruct (shutdown wsc) as [es w]. simpl in *.
    unfold resetIdleTimer, IsWebSocketClosed in *.
    destruct (idleTimeoutMinutes w <=? 0); simpl; exact H.
  - intros wsc. apply shutdown_closed.
  - intros. apply Hdef.
  - intros. apply Hdef.
Qed.

(** The write path of the sender: whatever window the client was made
    with, a frame that is written leaves the idle timer armed with
    [constants.IdleTimeoutMinutes]. *)
Lemma sender_write_timer (IdleTimeoutMinutes : Z) (wsc : WSSClient)
    (c : conn) (t : Z) (message : list byte) (rest : list (list byte)) :
  Conn wsc = Some c -> idleTimer wsc = Some t ->
  messageChannel wsc = message :: rest ->
  exists wsc',
    sendMessageAsync_step IdleTimeoutMinutes RecvMessage None wsc
    = (Next, [WriteMessage c message], wsc')
    /\ idleTimer wsc' = Some IdleTimeoutMinutes.
Proof.
  intros Hc Ht Hm.
  unfold sendMessageAsync_step, sendMessageAsync_body.
  rewrite Hm. simpl. rewrite Hc, Ht. simpl. eauto.
Qed.


Lemma wrap64_small x : - 2 ^ 63 <= x < 2 ^ 63 -> wrap64 x = x.
Proof.
  intros Hx. unfold wrap64.
  rewrite Z.mod_small; lia.
Qed.

Lemma NewWSSClient_positive D url c :
  0 < c -> c * Minute < 2 ^ 63 ->
  NewWSSClient D url c
  = {| URL := url; Conn := None; idleTimeoutMinutes := c * Minute;
       idleTimer := Some (c * Minute); Error := ""; messageChannel := [];
       stopChannel := Some O; resultsMap := ∅; heap := fun _ => zero;
       next := O; made := 1%nat |}.
Proof.
  intros Hc Hs. unfold NewWSSClient, resetIdleTimer. simpl.
  destruct (Z.leb_spec c 0); [lia|]. simpl.
  rewrite wrap64_small; [reflexivity|]. unfold Minute in *. lia.
Qed.

(** C4. A client made with a positive idle window has its timer armed with
    that window (in minutes); the first frame the sender writes re-arms the
    timer with [constants.IdleTimeoutMinutes] instead, for any value [D] of
    that constant.  The window chosen here is 1 minute, or 2 when [D] is
    itself one minute. *)
Theorem sender_resets_timer_to_default (D : Z) :
  let configured := if D =? Minute then 2 else 1 in
  let wsc :=
    SendMessage example_frame GetPayLoad
      (Connect (inl O) (NewWSSClient D "wss://host" configured)) in
  0 < configured
  /\ idleTimer wsc = Some (configured * Minute)
  /\ exists wsc',
       sendMessageAsync_step D RecvMessage None wsc
       = (Next, [WriteMessage O example_frame], wsc')
       /\ idleTimer wsc' = Some D
       /\ D <> configured * Minute.
Proof.
  cbv zeta.
  set (configured := if D =? Minute then 2 else 1).
  assert (Hc : 0 < configured /\ configured * Minute < 2 ^ 63
               /\ D <> configured * Minute).
  { subst configured. unfold Minute.
    destruct (Z.eqb_spec D (60 * 1000000000)); lia. }
  destruct Hc as (Hpos & Hsmall & Hne).
  rewrite (NewWSSClient_positive D "wss://host" configured Hpos Hsmall).
  split; [assumption|]. split; [reflexivity|].
  eexists. split; [reflexivity|]. split; [reflexivity | assumption].
Qed.

(** C3. A frame on which [json.Unmarshal] fails without having set the
    pointer [response] (what the library does on text that is not JSON:
    it answers the syntax error before it touches the target) makes the
    receiver panic on [response.RequestID]: no error is recorded, and the
    deferred [shutdown] empties the table and closes the connection. *)
Theorem receiver_panics_on_undecodable_frame
    (unmarshalResponse : list byte -> option Response * option string)
    (unmarshalLog : list byte -> option LogMessage * option string)
    (unmarshalData : list byte -> option (list (list byte)))
    (unmarshalRaw : list byte -> option (list byte))
    (message : list byte) (e : string) (wsc : WSSClient) (c : conn) :
  Conn wsc = Some c ->
  unmarshalResponse message = (None, Some e) ->
  exists es wsc',
    receiveMessageAsync_step unmarshalResponse unmarshalLog unmarshalData
      unmarshalRaw false (ReadFrame (Some message)) wsc
    = (Panicked, es, wsc')
    /\ In (CloseConn c) es
    /\ Conn wsc' = None
    /\ resultsMap wsc' = ∅.
Proof.
  intros Hc Hd.
  unfold receiveMessageAsync_step, receiveMessageAsync_body, handleMessage.
  rewrite Hc, Hd. simpl.
  destruct wsc as [url c0 idle timer err queue stop table h n m].
  simpl in Hc. subst c0.
  destruct stop; unfold shutdown; simpl; do 2 eexists;
    (split; [reflexivity|]); simpl; auto.
Qed.



Lemma receiver_panics_on_undecodable_frame_witness :
  exists es wsc',
    receiveMessageAsync_step unmarshalResponse_syntax
      (fun _ => (None, None)) json.unmarshal_data json.unmarshal_raw
      false (ReadFrame (Some (txt "{"))) open_client
    = (Panicked, es, wsc')
    /\ In (CloseConn O) es
    /\ Conn wsc' = None
    /\ resultsMap wsc' = ∅.
Proof.
  apply (receiver_panics_on_undecodable_frame unmarshalResponse_syntax
           (fun _ => (None, None)) json.unmarshal_data json.unmarshal_raw
           (txt "{") "invalid character" open_client O).
  - reflexivity.
  - vm_compute. reflexivity.
Defined.

(** When the decoder did set the pointer before it failed (a field of the
    wrong type), the error is recorded under the request id it read, and a
    frame that is neither a log nor a data frame leaves it there.  The
    text is the format of line 211, which is the message when the error of
    the decoder holds no percent sign. *)
Lemma receiver_records_decode_error
    (unmarshalResponse : list byte -> option Response * option string)
    (unmarshalLog : list byte -> option LogMessage * option string)
    (unmarshalData : list byte -> option (list (list byte)))
    (unmarshalRaw : list byte -> option (list byte))
    (message : list byte) (e : string) (r : Response) (wsc : WSSClient) :
  unmarshalResponse message = (Some r, Some e) ->
  MessageType r <> "LOG_MESSAGE"%string ->
  MessageType r <> "DATA"%string ->
  handleMessage unmarshalResponse unmarshalLog unmarshalData unmarshalRaw
    message wsc
  = (Next, Set_ (RequestID r) (Err ("Error parsing JSON: " ++ e)) wsc).
Proof.
  intros Hd Hl Hdata. unfold handleMessage. rewrite Hd.
  change (MessageType_String LOG_MESSAGE) with "LOG_MESSAGE"%string.
  change (MessageType_String DATA) with "DATA"%string.
  destruct (String.eqb_spec "LOG_MESSAGE" (MessageType r)); [congruence|].
  destruct (String.eqb_spec "DATA" (MessageType r)); [congruence|].
  reflexivity.
Qed.

(** ** The keys of a collection *)

Import facade.

Section Keys.

Lemma check_range_sound n z :
  check_range n z = true ->
  forall r, z <= r < z + Z.of_nat n -> key_ok r = true.
Proof.
  revert z. induction n as [|n IH]; intros z H r Hr; [lia|].
  simpl in H. apply andb_prop in H as [Hz Hrest].
  destruct (Z.eq_dec r z) as [->|Hne]; [assumption|].
  apply (IH (z + 1)); [assumption | lia].
Qed.

Lemma keys_checked : check_range (S max_distinct) 0 = true.
Proof. vm_compute. reflexivity. Qed.

Lemma of_int_inj a b :
  0 <= a <= Z.of_nat max_distinct -> 0 <= b <= Z.of_nat max_distinct ->
  gostring.of_int a = gostring.of_int b -> a = b.
Proof.
  intros Ha Hb Heq.
  assert (Hka : key_ok a = true)
    by (apply (check_range_sound _ _ keys_checked); lia).
  assert (Hkb : key_ok b = true)
    by (apply (check_range_sound _ _ keys_checked); lia).
  unfold key_ok in *. rewrite Heq in Hka.
  apply Z.eqb_eq in Hka, Hkb. rewrite Hka in Hkb. clear Hka Heq.
  unfold max_distinct, gostring.surrogateMin, gostring.runeError in *.
  destruct (Z.ltb_spec a 55296), (Z.ltb_spec b 55296); lia.
Qed.

Lemma rune_of_int_small i :
  0 <= i < 2 ^ 31 -> gostring.rune_of_int i = i.
Proof.
  intros Hi. unfold gostring.rune_of_int.
  rewrite Z.mod_small; lia.
Qed.

Lemma of_rune_of_int_small i :
  0 <= i <= Z.of_nat max_distinct ->
  gostring.of_rune_of_int i = gostring.of_int i.
Proof.
  intros Hi. unfold gostring.of_rune_of_int.
  rewrite rune_of_int_small; [reflexivity|].
  unfold max_distinct, gostring.surrogateMin in Hi. lia.
Qed.

End Keys.

(** ** Filing a fragment *)

Section StoreFragment.

Variable unmarshalData : list byte -> option (list (list byte)).
Variable unmarshalRaw : list byte -> option (list byte).

Local Abbreviation store := (storeFragment unmarshalData unmarshalRaw).

Lemma storeFragment_table message r w :
  resultsMap (store message r w)
  = <[RequestID r :=
        Responses (<[key_of r := next w]> (coll_of w (RequestID r)))]>
      (resultsMap w).
Proof.
  unfold storeFragment, coll_of, key_of.
  destruct (resultsMap w !! RequestID r) as [[| |v]|] eqn:E;
    destruct ((TotalSubBatches r =? 0)
              || (TotalSubBatches r =? SubBatchSerial r));
    simpl; rewrite ?insert_insert_eq; reflexivity.
Qed.

Lemma storeFragment_next message r w :
  next (store message r w) = S (next w).
Proof.
  unfold storeFragment.
  destruct (resultsMap w !! RequestID r) as [[| |v]|];
    destruct ((TotalSubBatches r =? 0)
              || (TotalSubBatches r =? SubBatchSerial r));
    reflexivity.
Qed.

Lemma storeFragment_heap_old message r w l :
  l <> next w -> heap (store message r w) l = heap w l.
Proof.
  intros Hl. apply Nat.eqb_neq in Hl.
  unfold storeFragment.
  destruct (resultsMap w !! RequestID r) as [[| |v]|];
    destruct ((TotalSubBatches r =? 0)
              || (TotalSubBatches r =? SubBatchSerial r));
    simpl; rewrite Hl; reflexivity.
Qed.

Lemma storeFragment_heap_new message r w :
  Data (heap (store message r w) (next w)) = Data r
  /\ TotalSubBatches (heap (store message r w) (next w)) = TotalSubBatches r
  /\ SubBatchSerial (heap (store message r w) (next w)) = SubBatchSerial r.
Proof.
  unfold storeFragment.
  destruct (resultsMap w !! RequestID r) as [[| |v]|];
    destruct ((TotalSubBatches r =? 0)
              || (TotalSubBatches r =? SubBatchSerial r));
    simpl; rewrite Nat.eqb_refl; simpl; auto.
Qed.

Lemma storeFragment_coll message r w :
  coll_of (store message r w) (RequestID r)
  = <[key_of r := next w]> (coll_of w (RequestID r)).
Proof.
  unfold coll_of at 1. rewrite storeFragment_table, lookup_insert_eq.
  reflexivity.
Qed.

End StoreFragment.

(** ** Reassembly of the fragments of one request *)

Import reassembly.

Section Reassembly.

Variable unmarshalData : list byte -> option (list (list byte)).
Variable unmarshalRaw : list byte -> option (list byte).
Variable requestID : string.

Local Abbreviation store := (storeFragment unmarshalData unmarshalRaw).

Lemma filed_nothing w :
  coll_of w requestID = ∅ -> filed requestID w [].
Proof.
  intros He. unfold filed. rewrite He. repeat split.
  - intros r [].
  - rewrite lookup_empty in H. discriminate.
  - rewrite lookup_empty in H. discriminate.
Qed.

Lemma filed_store message r w fs :
  filed requestID w fs ->
  RequestID r = requestID ->
  ~ In (key_of r) (map key_of fs) ->
  filed requestID (store message r w) (r :: fs).
Proof.
  intros (H1 & H2 & H3) Hid Hfresh.
  assert (Hnone : coll_of w requestID !! key_of r = None).
  { destruct (coll_of w requestID !! key_of r) eqn:E; [|reflexivity].
    apply H2 in E as (_ & r' & Hin & Hk).
    exfalso. apply Hfresh. rewrite Hk. now apply in_map. }
  assert (Hcoll : coll_of (store message r w) requestID
                  = <[key_of r := next w]> (coll_of w requestID)).
  { rewrite <- Hid. apply storeFragment_coll. }
  unfold filed. rewrite Hcoll. repeat split.
  - intros r' [<-|Hin].
    + exists (next w). rewrite lookup_insert_eq.
      destruct (storeFragment_heap_new unmarshalData unmarshalRaw
                  message r w) as (Hd & Ht & _).
      auto.
    + destruct (H1 r' Hin) as (l & Hl & Hd & Ht).
      exists l. rewrite lookup_insert_ne.
      2:{ intros Heq. apply Hfresh. rewrite Heq. now apply in_map. }
      split; [assumption|].
      apply H2 in Hl as (Hlt & _).
      rewrite storeFragment_heap_old by lia. auto.
  - rewrite storeFragment_next.
    rewrite lookup_insert in H. case_decide.
    + injection H as <-. lia.
    + apply H2 in H as (Hlt & _). lia.
  - rewrite lookup_insert in H. case_decide.
    + exists r. split; [now left | congruence].
    + apply H2 in H as (_ & r' & Hin & Hk).
      exists r'. split; [now right | assumption].
  - rewrite map_size_insert_None by assumption. simpl. congruence.
Qed.

Lemma filed_perm w fs fs' :
  Permutation fs fs' -> filed requestID w fs -> filed requestID w fs'.
Proof.
  intros Hp (H1 & H2 & H3). repeat split.
  - intros r Hin. apply H1. eapply Permutation_in; [|eassumption].
    now apply Permutation_sym.
  - now apply H2 in H.
  - apply H2 in H as (_ & r & Hin & Hk).
    exists r. split; [|assumption]. eapply Permutation_in; eassumption.
  - rewrite H3. now apply Permutation_length.
Qed.

Lemma filed_receive_all arrival :
  forall w fs,
    filed requestID w fs ->
    (forall mr, In mr arrival -> RequestID (snd mr) = requestID) ->
    List.NoDup (map key_of (rev (map snd arrival) ++ fs)) ->
    filed requestID (receive_all unmarshalData unmarshalRaw arrival w)
      (rev (map snd arrival) ++ fs).
Proof.
  induction arrival as [|mr arrival IH]; intros w fs Hf Hid Hnd.
  - exact Hf.
  - simpl in *. rewrite <- app_assoc in *. simpl in *.
    apply IH.
    + apply filed_store; [assumption | apply Hid; now left |].
      rewrite map_app in Hnd. apply NoDup_app_remove_l in Hnd.
      simpl in Hnd. now apply List.NoDup_cons_iff in Hnd as [Hn _].
    + intros mr' Hin. apply Hid. now right.
    + assumption.
Qed.

(** Frames that do not touch the entry of another key. *)
Lemma receive_all_other arrival :
  forall w k,
    (forall mr, In mr arrival -> RequestID (snd mr) <> k) ->
    resultsMap (receive_all unmarshalData unmarshalRaw arrival w) !! k
    = resultsMap w !! k.
Proof.
  induction arrival as [|mr arrival IH]; intros w k Hk; [reflexivity|].
  simpl. rewrite IH by (intros mr' Hin; apply Hk; now right).
  rewrite storeFragment_table, lookup_insert_ne; [reflexivity|].
  apply Hk. now left.
Qed.

End Reassembly.

(** ** The synchronous facade *)


Section FacadeLooks.

Variable IterBuffered_first : gmap string loc -> option (string * loc).

Local Abbreviation poll := (wsclient.poll IterBuffered_first).
Local Abbreviation collect := (wsclient.collect IterBuffered_first).

(** With no error pending in the reserved slots, a look at a request
    whose entry is a collection is a look at that collection. *)
Lemma poll_collect w requestID v temp :
  no_error_pending w ->
  resultsMap w !! requestID = Some (Responses v) ->
  poll w requestID temp = collect w v temp.
Proof.
  intros [He Hc] Hid. unfold wsclient.poll.
  destruct (resultsMap w !! ""%string) as [[|e|v']|] eqn:E;
    try (exfalso; eapply Hc; reflexivity);
    destruct He as [-> | ->]; rewrite Hid; reflexivity.
Qed.

Lemma collect_no_rows w v temp t :
  size v <> O ->
  temp_after IterBuffered_first v temp = Some t ->
  Data (heap w t) = [] ->
  collect w v temp = Done NewResponse (Some no_rows_error) w.
Proof.
  intros Hs Ht Hd. unfold wsclient.collect.
  destruct (Nat.ltb_spec 0 (size v)) as [_|]; [|lia].
  unfold temp_after in Ht. rewrite Ht, Hd. reflexivity.
Qed.

Lemma collect_complete w v temp t l :
  size v <> O ->
  temp_after IterBuffered_first v temp = Some t ->
  Data (heap w t) <> [] ->
  TotalSubBatches (heap w t) = 0
  \/ TotalSubBatches (heap w t) = Z.of_nat (size v) ->
  latest v = Some l ->
  collect w v temp = Done (Ptr l) None (store_Data l (merge w v) w).
Proof.
  intros Hs Ht Hd Htot Hl. unfold wsclient.collect.
  destruct (Nat.ltb_spec 0 (size v)) as [_|]; [|lia].
  unfold temp_after in Ht. rewrite Ht.
  destruct (Data (heap w t)) as [|row rows] eqn:E; [congruence|].
  simpl length. simpl Nat.leb. cbv iota.
  assert (Hb : (TotalSubBatches (heap w t) =? 0)
               || (TotalSubBatches (heap w t) =? Z.of_nat (size v)) = true).
  { destruct Htot as [-> | ->]; [reflexivity|].
    rewrite Z.eqb_refl. apply orb_true_r. }
  rewrite Hb. unfold latest in Hl.
  destruct (v !! gostring.of_rune_of_int (Z.of_nat (size v))) as [l'|].
  - now injection Hl as ->.
  - now rewrite Hl.
Qed.

Lemma collect_incomplete w v temp t :
  size v <> O ->
  temp_after IterBuffered_first v temp = Some t ->
  Data (heap w t) <> [] ->
  TotalSubBatches (heap w t) <> 0 ->
  TotalSubBatches (heap w t) <> Z.of_nat (size v) ->
  collect w v temp = Wait (Some t).
Proof.
  intros Hs Ht Hd H0 Hn. unfold wsclient.collect.
  destruct (Nat.ltb_spec 0 (size v)) as [_|]; [|lia].
  unfold temp_after in Ht. rewrite Ht.
  destruct (Data (heap w t)) as [|row rows] eqn:E; [congruence|].
  simpl length. simpl Nat.leb. cbv iota.
  destruct (Z.eqb_spec (TotalSubBatches (heap w t)) 0); [congruence|].
  destruct (Z.eqb_spec (TotalSubBatches (heap w t)) (Z.of_nat (size v)));
    [congruence|].
  reflexivity.
Qed.

(** The rows that [merge] gathers when the keys [string(rune(start))],
    [string(rune(start+1))], ... hold the fragments [fs]. *)
Lemma merge_rows w (v : gmap string loc) fs :
  forall start acc,
    (forall j r, nth_error fs j = Some r ->
       exists l, v !! gostring.of_rune_of_int (Z.of_nat (start + j)) = Some l
                 /\ Data (heap w l) = Data r) ->
    fold_left
      (fun data i =>
         match v !! gostring.of_rune_of_int (Z.of_nat i) with
         | Some l => data ++ Data (heap w l)
         | None => data
         end)
      (seq start (length fs)) acc
    = acc ++ concat (map Data fs).
Proof.
  induction fs as [|r fs IH]; intros start acc H; simpl.
  - now rewrite app_nil_r.
  - destruct (H O r eq_refl) as (l & Hl & Hd).
    rewrite Nat.add_0_r in Hl. rewrite Hl, Hd.
    rewrite IH, <- app_assoc; [reflexivity|].
    intros j r' Hj. destruct (H (S j) r' Hj) as (l' & Hl' & Hd').
    exists l'. split; [|assumption].
    now replace (S start + j)%nat with (start + S j)%nat by lia.
Qed.

Lemma store_Data_read l data w :
  Data (heap (store_Data l data w) l) = data.
Proof. simpl. now rewrite Nat.eqb_refl. Qed.

Lemma store_Data_other l l' data w :
  l' <> l -> heap (store_Data l data w) l' = heap w l'.
Proof. intros H. simpl. apply Nat.eqb_neq in H. now rewrite H. Qed.

(** The loop of lines 358-363 gathers the rows key by key. *)
Lemma merge_from w (v : gmap string loc) (indices : list nat) :
  forall acc,
    fold_left
      (fun data i =>
         match v !! gostring.of_rune_of_int (Z.of_nat i) with
         | Some l => data ++ Data (heap w l)
         | None => data
         end)
      indices acc
    = acc
      ++ concat
           (map (fun i =>
                   match v !! gostring.of_rune_of_int (Z.of_nat i) with
                   | Some l => Data (heap w l)
                   | None => []
                   end)
              indices).
Proof.
  induction indices as [|i indices IH]; intros acc; simpl.
  - now rewrite app_nil_r.
  - rewrite IH.
    destruct (v !! gostring.of_rune_of_int (Z.of_nat i)) as [l|]; simpl.
    + now rewrite <- app_assoc.
    + reflexivity.
Qed.

Lemma merge_rows_under w (v : gmap string loc) :
  merge w v = rows_under w v.
Proof. unfold merge, rows_under. now rewrite merge_from. Qed.

(** The rows under a key that is read are a segment of the rows
    gathered. *)
Lemma rows_under_segment w (v : gmap string loc) (i : nat) (l : loc) :
  (i <= size v)%nat ->
  v !! gostring.of_rune_of_int (Z.of_nat i) = Some l ->
  exists before after,
    rows_under w v = before ++ Data (heap w l) ++ after.
Proof.
  intros Hi Hl. unfold rows_under.
  assert (Hin : In i (seq 0 (S (size v)))) by (apply in_seq; lia).
  apply in_split in Hin as (s1 & s2 & ->).
  rewrite map_app, concat_app. simpl. rewrite Hl.
  eauto.
Qed.

End FacadeLooks.

Section SerialOrder.

(** Fragments listed by serial: the [j]-th one (from 0) has serial
    [j + 1]. *)
Lemma serial_nth (fs : list Response) (N : nat) j r :
  map SubBatchSerial fs = map Z.of_nat (seq 1 N) ->
  nth_error fs j = Some r ->
  SubBatchSerial r = Z.of_nat (1 + j) /\ (j < N)%nat.
Proof.
  intros Hs Hj.
  pose proof (map_nth_error SubBatchSerial _ _ Hj) as H.
  rewrite Hs, nth_error_map, nth_error_seq in H.
  destruct (Nat.ltb_spec j N); simpl in H; [|discriminate].
  injection H as H. split; [symmetry; exact H | assumption].
Qed.

Lemma serial_range (fs : list Response) (N : nat) r :
  map SubBatchSerial fs = map Z.of_nat (seq 1 N) ->
  In r fs -> 1 <= SubBatchSerial r <= Z.of_nat N.
Proof.
  intros Hs Hin. apply In_nth_error in Hin as [j Hj].
  destruct (serial_nth _ _ _ _ Hs Hj). lia.
Qed.

Lemma serial_keys_NoDup (fs : list Response) (N : nat) :
  (N <= max_distinct)%nat ->
  map SubBatchSerial fs = map Z.of_nat (seq 1 N) ->
  List.NoDup (map key_of fs).
Proof.
  intros HN Hs.
  replace (map key_of fs)
    with (map (fun i => gostring.of_int (Z.of_nat i)) (seq 1 N)).
  - apply NoDup_map_NoDup_ForallPairs; [|apply seq_NoDup].
    intros x y Hx Hy Heq. apply in_seq in Hx, Hy.
    apply of_int_inj in Heq; lia.
  - rewrite <- (map_map Z.of_nat gostring.of_int), <- Hs, map_map.
    reflexivity.
Qed.

End SerialOrder.

(** C1, as the code has it.  Let [fs] be fragments of one request with
    serials 1..N, each declaring the total N, for 1 <= N <= 55296 (the
    totals for which the keys [string(1)] .. [string(N)] are all
    different), and let the receiver file them in any order [arrival] into
    an entry that holds no fragment yet.  If no error is pending in the
    reserved slots and the fragment that the iteration of the collection
    yields first carries at least one row, then a call of [GetResponseSync]
    that looks at the table before its timeout returns, without error, a
    response whose rows are the rows of the fragments in the order of their
    serials. *)
Theorem GetResponseSync_merges_by_serial
    (IterBuffered_first : gmap string loc -> option (string * loc))
    (unmarshalData : list byte -> option (list (list byte)))
    (unmarshalRaw : list byte -> option (list byte))
    (N : nat) (fs : list Response) (arrival : list (list byte * Response))
    (w0 : WSSClient) (requestID : string) (rest : list WSSClient) :
  iter_sound IterBuffered_first ->
  (1 <= N <= max_distinct)%nat ->
  map SubBatchSerial fs = map Z.of_nat (seq 1 N) ->
  Forall (fun r => TotalSubBatches r = Z.of_nat N /\ RequestID r = requestID)
    fs ->
  Permutation (map snd arrival) fs ->
  coll_of w0 requestID = ∅ ->
  no_error_pending (receive_all unmarshalData unmarshalRaw arrival w0) ->
  (forall r,
      first_seen IterBuffered_first
        (receive_all unmarshalData unmarshalRaw arrival w0) requestID = Some r ->
      Data r <> []) ->
  exists l w',
    GetResponseSync IterBuffered_first
      (receive_all unmarshalData unmarshalRaw arrival w0 :: rest)
      requestID
    = Done (Ptr l) None w'
    /\ Data (heap w' l) = concat (map Data fs).
Proof.
  intros Hiter HN Hser Hall Hperm Hempty Hquiet Hrows.
  set (w := receive_all unmarshalData unmarshalRaw arrival w0) in *.
  rewrite List.Forall_forall in Hall.
  assert (Hlen : length fs = N).
  { rewrite <- (length_map SubBatchSerial), Hser, length_map.
    apply length_seq. }
  (* the collection holds exactly the fragments *)
  assert (Hfiled : filed requestID w fs).
  { apply filed_perm with (fs := rev (map snd arrival) ++ []).
    - rewrite app_nil_r. rewrite <- Hperm. apply Permutation_sym.
      apply Permutation_rev.
    - apply filed_receive_all.
      + now apply filed_nothing.
      + intros mr Hin. apply Hall.
        eapply Permutation_in; [exact Hperm|]. now apply in_map.
      + rewrite app_nil_r.
        apply Permutation_NoDup with (l := map key_of fs).
        * apply Permutation_map. rewrite <- Hperm. apply Permutation_rev.
        * apply serial_keys_NoDup with (N := N); [lia | assumption]. }
  destruct Hfiled as (H1 & H2 & H3).
  set (v := coll_of w requestID) in *.
  assert (Hentry : resultsMap w !! requestID = Some (Responses v)).
  { subst v. unfold coll_of in *.
    destruct (resultsMap w !! requestID) as [[| |v']|]; try reflexivity;
      rewrite map_size_empty in H3; lia. }
  assert (Hne : v <> ∅).
  { apply map_size_non_empty_iff. lia. }
  (* the fragment seen first *)
  destruct (Hiter v Hne) as (k & t & Hfirst & Hk).
  assert (Htemp : temp_after IterBuffered_first v None = Some t).
  { unfold temp_after. now rewrite Hfirst. }
  assert (Ht : Data (heap w t) <> []).
  { apply Hrows. unfold first_seen. now rewrite Hentry, Hfirst. }
  assert (Htot : TotalSubBatches (heap w t) = Z.of_nat (size v)).
  { destruct (H2 _ _ Hk) as (_ & r & Hin & ->).
    destruct (H1 r Hin) as (l & Hl & _ & Htot).
    rewrite Hk in Hl. injection Hl as <-.
    rewrite Htot, H3, Hlen. now apply Hall. }
  (* the key of every index *)
  assert (Hkey : forall j r, nth_error fs j = Some r ->
            exists l, v !! gostring.of_rune_of_int (Z.of_nat (1 + j)) = Some l
                      /\ Data (heap w l) = Data r).
  { intros j r Hj.
    destruct (serial_nth _ _ _ _ Hser Hj) as (Hs & Hlt).
    destruct (H1 r (nth_error_In _ _ Hj)) as (l & Hl & Hd & _).
    exists l. split; [|assumption].
    rewrite of_rune_of_int_small by lia.
    unfold key_of in Hl. now rewrite Hs in Hl. }
  assert (Hzero : v !! gostring.of_rune_of_int 0 = None).
  { destruct (v !! gostring.of_rune_of_int 0) as [l|] eqn:E; [|reflexivity].
    destruct (H2 _ _ E) as (_ & r & Hin & Hk0).
    pose proof (serial_range _ _ _ Hser Hin) as Hr.
    rewrite of_rune_of_int_small in Hk0 by lia.
    unfold key_of in Hk0. apply of_int_inj in Hk0; lia. }
  (* the fragment returned *)
  assert (Hlast : exists l, latest v = Some l).
  { destruct (nth_error fs (N - 1)) as [r|] eqn:E.
    - destruct (Hkey _ _ E) as (l & Hl & _).
      exists l. unfold latest.
      replace (1 + (N - 1))%nat with N in Hl by lia.
      now rewrite H3, Hlen, Hl.
    - apply nth_error_None in E. lia. }
  destruct Hlast as (l & Hl).
  exists l, (store_Data l (merge w v) w). split.
  - unfold GetResponseSync. simpl.
    rewrite (poll_collect _ _ _ v) by assumption.
    rewrite (collect_complete _ w v None t l); auto. lia.
  - rewrite store_Data_read. unfold merge.
    rewrite H3. simpl seq. simpl fold_left.
    change (Z.of_nat 0) with 0. rewrite Hzero.
    apply (merge_rows w v fs 1 []). exact Hkey.
Qed.

Import examples.

Lemma first_of_sound : iter_sound first_of.
Proof.
  intros v Hne. unfold first_of.
  destruct (map_to_list v) as [|[k l] rest] eqn:E.
  - apply map_to_list_empty_iff in E. contradiction.
  - exists k, l. split; [reflexivity|].
    apply elem_of_map_to_list. rewrite E. left.
Qed.

Lemma pending_q1_quiet arrival :
  (forall mr, In mr arrival -> RequestID (snd mr) = "q1"%string) ->
  no_error_pending (receive arrival).
Proof.
  intros Hid. unfold no_error_pending, receive.
  rewrite !receive_all_other
    by (intros mr Hin; rewrite (Hid mr Hin); discriminate).
  split; [right; reflexivity | intros e; discriminate].
Qed.

Lemma GetResponseSync_merges_by_serial_witness :
  iter_sound first_of
  /\ (1 <= 2 <= max_distinct)%nat
  /\ map SubBatchSerial two_fragments = map Z.of_nat (seq 1 2)
  /\ Forall (fun r => TotalSubBatches r = Z.of_nat 2
                      /\ RequestID r = "q1"%string) two_fragments
  /\ Permutation (map snd two_arrival) two_fragments
  /\ coll_of pending_q1 "q1" = ∅
  /\ no_error_pending (receive two_arrival)
  /\ (forall r, first_seen first_of (receive two_arrival) "q1" = Some r ->
                Data r <> [])
  /\ exists l w',
       GetResponseSync first_of [receive two_arrival] "q1"
       = Done (Ptr l) None w'
       /\ Data (heap w' l) = ["row1"; "row2"; "row3"]%string.
Proof.
  assert (Hq : no_error_pending (receive two_arrival)).
  { apply pending_q1_quiet. intros mr [<-|[<-|[]]]; reflexivity. }
  assert (Hfirst : forall r,
             first_seen first_of (receive two_arrival) "q1" = Some r ->
             Data r <> []).
  { intros r H. vm_compute in H. injection H as <-. discriminate. }
  assert (Hperm : Permutation (map snd two_arrival) two_fragments)
    by apply perm_swap.
  assert (HN : (1 <= 2 <= max_distinct)%nat)
    by (unfold max_distinct, gostring.surrogateMin; lia).
  assert (Hall : Forall (fun r => TotalSubBatches r = Z.of_nat 2
                                  /\ RequestID r = "q1"%string) two_fragments)
    by (repeat constructor).
  repeat (split; [first [exact first_of_sound | assumption | reflexivity]|]).
  exact (GetResponseSync_merges_by_serial first_of json.unmarshal_data
           json.unmarshal_raw 2 two_fragments two_arrival pending_q1 "q1" []
           first_of_sound HN eq_refl Hall Hperm eq_refl Hq Hfirst).
Defined.

(** C1 as it is worded fails when the fragment seen first has no rows:
    fragments 1 and 2 of a total of 2 are filed and no error is pending,
    yet the call returns the error of the empty result, because the
    iteration yields fragment 1, which carries no rows, before
    fragment 2, which carries one. *)
Lemma GetResponseSync_first_fragment_without_rows :
  iter_sound first_of
  /\ map SubBatchSerial hollow_fragments = map Z.of_nat (seq 1 2)
  /\ Forall (fun r => TotalSubBatches r = Z.of_nat 2
                      /\ RequestID r = "q1"%string) hollow_fragments
  /\ Permutation (map snd hollow_arrival) hollow_fragments
  /\ coll_of pending_q1 "q1" = ∅
  /\ no_error_pending (receive hollow_arrival)
  /\ concat (map Data hollow_fragments) = ["row2"%string]
  /\ (exists w',
        GetResponseSync first_of [receive hollow_arrival] "q1"
        = Done NewResponse (Some no_rows_error) w')
  /\ ~ (exists l w',
          GetResponseSync first_of [receive hollow_arrival] "q1"
          = Done (Ptr l) None w'
          /\ Data (heap w' l) = concat (map Data hollow_fragments)).
Proof.
  assert (Hq : no_error_pending (receive hollow_arrival)).
  { apply pending_q1_quiet. intros mr [<-|[<-|[]]]; reflexivity. }
  assert (Hres : exists w',
             GetResponseSync first_of [receive hollow_arrival] "q1"
             = Done NewResponse (Some no_rows_error) w').
  { eexists. vm_compute. reflexivity. }
  repeat (split; [first [exact first_of_sound | assumption | reflexivity
                        | repeat constructor]|]).
  intros (l & w' & H & _). destruct Hres as (w'' & Hres).
  rewrite Hres in H. discriminate.
Qed.

(** Past the first surrogate the keys are no longer different: fragments
    55296 and 55297 are filed under the same key. *)
Lemma surrogate_keys_collide :
  key_of (fragment 55296 55297 []) = key_of (fragment 55297 55297 []).
Proof. vm_compute. reflexivity. Qed.

(** C5, as the code has it.  When a look finds the collection of the
    request complete (the fragment seen first has rows and declares a total
    of zero or of the number of fragments filed), [GetResponseSync] returns
    the pointer that the collection itself holds under the key of the
    fragment count (or under the key of zero when that one is vacant): no
    new response is made.  The rows of that stored fragment are overwritten
    with the rows that the collection holds under the keys of
    0, 1, ..., count, key after key: each fragment filed under one of
    these keys has its rows in the result, in the order of the keys, and
    the result holds nothing else, so a fragment filed under another key
    is not merged.  The other fields of the stored fragment, every other
    response object and the table are as before. *)
Theorem GetResponseSync_returns_stored_fragment
    (IterBuffered_first : gmap string loc -> option (string * loc))
    (w : WSSClient) (requestID : string) (v : gmap string loc)
    (temp : option loc) (t l : loc) (rest : list WSSClient) :
  no_error_pending w ->
  resultsMap w !! requestID = Some (Responses v) ->
  size v <> O ->
  temp_after IterBuffered_first v temp = Some t ->
  Data (heap w t) <> [] ->
  TotalSubBatches (heap w t) = 0
  \/ TotalSubBatches (heap w t) = Z.of_nat (size v) ->
  latest v = Some l ->
  exists w',
    GetResponseSync_loop IterBuffered_first (w :: rest) requestID temp
    = Done (Ptr l) None w'
    /\ (exists k, v !! k = Some l)
    /\ heap w' l = set_Data (rows_under w v) (heap w l)
    /\ Data (heap w' l)
       = concat
           (map (fun i =>
                   match v !! gostring.of_rune_of_int (Z.of_nat i) with
                   | Some l0 => Data (heap w l0)
                   | None => []
                   end)
              (seq 0 (S (size v))))
    /\ (forall (i : nat) (l0 : loc),
          (i <= size v)%nat ->
          v !! gostring.of_rune_of_int (Z.of_nat i) = Some l0 ->
          exists before after,
            Data (heap w' l) = before ++ Data (heap w l0) ++ after)
    /\ (forall l', l' <> l -> heap w' l' = heap w l')
    /\ resultsMap w' = resultsMap w.
Proof.
  intros Hq Hentry Hs Ht Hd Htot Hl.
  exists (store_Data l (merge w v) w).
  assert (Hrows : Data (heap (store_Data l (merge w v) w) l) = rows_under w v).
  { rewrite store_Data_read. apply merge_rows_under. }
  split; [|split; [|split; [|split; [|split; [|split]]]]].
  - simpl. rewrite (poll_collect _ _ _ v) by assumption.
    now rewrite (collect_complete _ w v temp t l).
  - unfold latest in Hl.
    destruct (v !! gostring.of_rune_of_int (Z.of_nat (size v))) eqn:E.
    + injection Hl as <-. eauto.
    + eauto.
  - simpl. rewrite Nat.eqb_refl. now rewrite merge_rows_under.
  - exact Hrows.
  - intros i l0 Hi Hl0. rewrite Hrows.
    now apply (rows_under_segment w v i l0).
  - intros l' Hne. now apply store_Data_other.
  - reflexivity.
Qed.

Lemma GetResponseSync_returns_stored_fragment_witness :
  no_error_pending (receive two_arrival)
  /\ exists v t l w',
       resultsMap (receive two_arrival) !! "q1"%string = Some (Responses v)
       /\ size v <> O
       /\ temp_after first_of v None = Some t
       /\ Data (heap (receive two_arrival) t) <> []
       /\ TotalSubBatches (heap (receive two_arrival) t) = Z.of_nat (size v)
       /\ latest v = Some l
       /\ GetResponseSync first_of [receive two_arrival] "q1"
          = Done (Ptr l) None w'
       /\ heap w' l
          = set_Data (rows_under (receive two_arrival) v)
              (heap (receive two_arrival) l)
       /\ rows_under (receive two_arrival) v
          = ["row1"; "row2"; "row3"]%string.
Proof.
  assert (Hq : no_error_pending (receive two_arrival)).
  { apply pending_q1_quiet. intros mr [<-|[<-|[]]]; reflexivity. }
  split; [exact Hq|].
  assert (Hentry : resultsMap (receive two_arrival) !! "q1"%string
                   = Some (Responses (coll_of (receive two_arrival) "q1")))
    by (vm_compute; reflexivity).
  assert (Hsize : size (coll_of (receive two_arrival) "q1") <> O)
    by (vm_compute; discriminate).
  assert (Htemp : temp_after first_of (coll_of (receive two_arrival) "q1") None
                  = Some 1%nat) by (vm_compute; reflexivity).
  assert (Hrows : Data (heap (receive two_arrival) 1%nat) <> [])
    by (vm_compute; discriminate).
  assert (Htot : TotalSubBatches (heap (receive two_arrival) 1%nat)
                 = Z.of_nat (size (coll_of (receive two_arrival) "q1")))
    by (vm_compute; reflexivity).
  assert (Hlast : latest (coll_of (receive two_arrival) "q1") = Some O)
    by (vm_compute; reflexivity).
  assert (Hall : rows_under (receive two_arrival)
                   (coll_of (receive two_arrival) "q1")
                 = ["row1"; "row2"; "row3"]%string)
    by (vm_compute; reflexivity).
  destruct (GetResponseSync_returns_stored_fragment first_of
              (receive two_arrival) "q1" (coll_of (receive two_arrival) "q1")
              None 1%nat O [] Hq Hentry Hsize Htemp Hrows (or_intror Htot)
              Hlast)
    as (w' & Hres & _ & Hheap & _).
  exists (coll_of (receive two_arrival) "q1"), 1%nat, O, w'.
  repeat split; assumption.
Defined.

(** C5 as it is worded fails: with fragments 1 and 2 filed, the pointer
    returned is the one the collection holds for fragment 2, and the rows
    of that stored fragment are no longer its own two rows but the three
    merged rows. *)
Lemma merge_overwrites_stored_fragment :
  exists l w',
    GetResponseSync first_of [receive two_arrival] "q1"
    = Done (Ptr l) None w'
    /\ coll_of (receive two_arrival) "q1" !! gostring.of_int 2 = Some l
    /\ coll_of w' "q1" !! gostring.of_int 2 = Some l
    /\ Data (heap (receive two_arrival) l) = ["row2"; "row3"]%string
    /\ Data (heap w' l) = ["row1"; "row2"; "row3"]%string
    /\ heap w' l <> heap (receive two_arrival) l.
Proof.
  exists O. eexists. split; [vm_compute; reflexivity|].
  repeat split; try (vm_compute; reflexivity).
  intros H. apply (f_equal Data) in H. vm_compute in H. discriminate.
Qed.

(** The keys read are those of 0 .. count and no others: with the
    fragments of serials 0 and 5 filed, each declaring a total of 2, the
    collection counts as complete and the response returned carries the
    row of fragment 0 alone. *)
Lemma merge_reads_keys_up_to_count :
  size (coll_of (receive gap_arrival) "q1") = 2%nat
  /\ rows_under (receive gap_arrival) (coll_of (receive gap_arrival) "q1")
     = ["row0"%string]
  /\ exists l w',
       GetResponseSync first_of [receive gap_arrival] "q1"
       = Done (Ptr l) None w'
       /\ Data (heap w' l) = ["row0"%string].
Proof.
  split; [vm_compute; reflexivity|]. split; [vm_compute; reflexivity|].
  do 2 eexists. split; vm_compute; reflexivity.
Qed.

(** C6. When the fragment seen first in the collection of the request has
    no rows, the look does not end in [continue]: [GetResponseSync] returns
    from this very look, whatever later looks would find.  With no error
    pending in the reserved slots (which the facade returns first), what it
    returns is the error of the empty result, with a new empty response,
    and the client is left as it was. *)
Theorem GetResponseSync_no_rows
    (IterBuffered_first : gmap string loc -> option (string * loc))
    (w : WSSClient) (requestID : string) (v : gmap string loc)
    (temp : option loc) (t : loc) (rest : list WSSClient) :
  resultsMap w !! requestID = Some (Responses v) ->
  size v <> O ->
  temp_after IterBuffered_first v temp = Some t ->
  Data (heap w t) = [] ->
  (forall temp', poll IterBuffered_first w requestID temp <> Wait temp')
  /\ GetResponseSync_loop IterBuffered_first (w :: rest) requestID temp
     = poll IterBuffered_first w requestID temp
  /\ (no_error_pending w ->
      GetResponseSync_loop IterBuffered_first (w :: rest) requestID temp
      = Done NewResponse (Some no_rows_error) w).
Proof.
  intros Hentry Hs Ht Hd.
  pose proof (collect_no_rows IterBuffered_first w v temp t Hs Ht Hd) as Hc.
  assert (Hnw : forall temp',
             poll IterBuffered_first w requestID temp <> Wait temp').
  { intros temp'. unfold poll.
    destruct (resultsMap w !! "error"%string) as [[|e|v']|];
      try discriminate;
      rewrite Hentry;
      destruct (resultsMap w !! ""%string) as [[|e'|v'']|];
      try discriminate; rewrite Hc; discriminate. }
  split; [exact Hnw|]. split.
  - simpl.
    destruct (poll IterBuffered_first w requestID temp) eqn:E;
      try reflexivity.
    exfalso. eapply Hnw. reflexivity.
  - intros Hq. simpl. rewrite (poll_collect _ _ _ v) by assumption.
    now rewrite Hc.
Qed.

Lemma GetResponseSync_no_rows_witness :
  exists v t,
    resultsMap (receive hollow_arrival) !! "q1"%string = Some (Responses v)
    /\ size v <> O
    /\ temp_after first_of v None = Some t
    /\ Data (heap (receive hollow_arrival) t) = []
    /\ no_error_pending (receive hollow_arrival)
    /\ GetResponseSync first_of [receive hollow_arrival] "q1"
       = Done NewResponse (Some no_rows_error) (receive hollow_arrival).
Proof.
  assert (Hq : no_error_pending (receive hollow_arrival)).
  { apply pending_q1_quiet. intros mr [<-|[<-|[]]]; reflexivity. }
  assert (Hentry : resultsMap (receive hollow_arrival) !! "q1"%string
                   = Some (Responses (coll_of (receive hollow_arrival) "q1")))
    by (vm_compute; reflexivity).
  assert (Hsize : size (coll_of (receive hollow_arrival) "q1") <> O)
    by (vm_compute; discriminate).
  assert (Htemp : temp_after first_of (coll_of (receive hollow_arrival) "q1")
                    None = Some O) by (vm_compute; reflexivity).
  assert (Hrows : Data (heap (receive hollow_arrival) O) = [])
    by (vm_compute; reflexivity).
  exists (coll_of (receive hollow_arrival) "q1"), O.
  repeat (split; [assumption|]).
  exact (proj2 (proj2 (GetResponseSync_no_rows first_of
                         (receive hollow_arrival) "q1"
                         (coll_of (receive hollow_arrival) "q1") None O []
                         Hentry Hsize Htemp Hrows)) Hq).
Defined.

(** C7, as the code has it.  A data frame that declares a total of zero
    and carries the serial 0 or 1 (the two keys the facade looks under when
    one fragment is filed) and at least one row, filed into an entry that
    holds no fragment yet, completes the request at once: with no error
    pending, the next look of [GetResponseSync] returns, without error, a
    response whose rows are the rows of that one fragment. *)
Theorem GetResponseSync_unbatched
    (IterBuffered_first : gmap string loc -> option (string * loc))
    (unmarshalData : list byte -> option (list (list byte)))
    (unmarshalRaw : list byte -> option (list byte))
    (message : list byte) (r : Response) (w0 : WSSClient)
    (rest : list WSSClient) :
  iter_sound IterBuffered_first ->
  TotalSubBatches r = 0 ->
  SubBatchSerial r = 0 \/ SubBatchSerial r = 1 ->
  Data r <> [] ->
  coll_of w0 (RequestID r) = ∅ ->
  no_error_pending (storeFragment unmarshalData unmarshalRaw message r w0) ->
  exists l w',
    size (coll_of (storeFragment unmarshalData unmarshalRaw message r w0)
            (RequestID r)) = 1%nat
    /\ GetResponseSync IterBuffered_first
         (storeFragment unmarshalData unmarshalRaw message r w0 :: rest)
         (RequestID r)
       = Done (Ptr l) None w'
    /\ Data (heap w' l) = Data r.
Proof.
  intros Hiter Htot Hser Hrows Hempty Hq.
  set (w := storeFragment unmarshalData unmarshalRaw message r w0) in *.
  set (l := next w0).
  assert (Hcoll : coll_of w (RequestID r) = {[key_of r := l]}).
  { subst w. now rewrite storeFragment_coll, Hempty. }
  destruct (storeFragment_heap_new unmarshalData unmarshalRaw message r w0)
    as (Hd & Ht & _).
  fold w l in Hd, Ht.
  assert (Hentry : resultsMap w !! RequestID r
                   = Some (Responses {[key_of r := l]})).
  { subst w. rewrite storeFragment_table, lookup_insert_eq.
    now rewrite Hempty. }
  set (v := {[key_of r := l]} : gmap string loc) in *.
  assert (Hsize : size v = 1%nat) by apply map_size_singleton.
  assert (Hne : v <> ∅) by apply insert_non_empty.
  destruct (Hiter v Hne) as (k & t & Hfirst & Hk).
  assert (t = l) as ->.
  { subst v. apply lookup_singleton_Some in Hk as [_ ?]. congruence. }
  assert (Htemp : temp_after IterBuffered_first v None = Some l).
  { unfold temp_after. now rewrite Hfirst. }
  assert (Hlook :
            (v !! gostring.of_rune_of_int 0 = Some l
             /\ v !! gostring.of_rune_of_int 1 = None)
            \/ (v !! gostring.of_rune_of_int 0 = None
                /\ v !! gostring.of_rune_of_int 1 = Some l)).
  { subst v. unfold key_of.
    destruct Hser as [-> | ->]; [left | right]; split;
      first [ apply lookup_singleton_eq
            | apply lookup_singleton_ne; vm_compute; discriminate ]. }
  assert (Hlast : latest v = Some l).
  { unfold latest. rewrite Hsize. change (Z.of_nat 1) with 1.
    destruct Hlook as [[H0 H1] | [H0 H1]]; rewrite H1; [exact H0 | reflexivity]. }
  exists l, (store_Data l (merge w v) w). split; [|split].
  - rewrite Hcoll. exact Hsize.
  - unfold GetResponseSync. simpl.
    rewrite (poll_collect _ _ _ v) by assumption.
    rewrite (collect_complete _ w v None l l); auto.
    + lia.
    + rewrite Hd. assumption.
    + left. congruence.
  - rewrite store_Data_read. unfold merge. rewrite Hsize.
    simpl seq. simpl fold_left.
    change (Z.of_nat 0) with 0. change (Z.of_nat 1) with 1.
    destruct Hlook as [[H0 H1] | [H0 H1]]; rewrite H0, H1; exact Hd.
Qed.

Lemma GetResponseSync_unbatched_witness :
  iter_sound first_of
  /\ TotalSubBatches (fragment 0 0 ["row1"%string]) = 0
  /\ Data (fragment 0 0 ["row1"%string]) <> []
  /\ coll_of pending_q1 "q1" = ∅
  /\ no_error_pending (receive [(txt "{}", fragment 0 0 ["row1"%string])])
  /\ exists l w',
       size (coll_of (receive [(txt "{}", fragment 0 0 ["row1"%string])])
               "q1") = 1%nat
       /\ GetResponseSync first_of
            [receive [(txt "{}", fragment 0 0 ["row1"%string])]] "q1"
          = Done (Ptr l) None w'
       /\ Data (heap w' l) = ["row1"%string].
Proof.
  assert (Hq : no_error_pending
                 (receive [(txt "{}", fragment 0 0 ["row1"%string])])).
  { apply pending_q1_quiet. intros mr [<-|[]]; reflexivity. }
  assert (Hrows : Data (fragment 0 0 ["row1"%string]) <> []) by discriminate.
  repeat (split; [first [exact first_of_sound | assumption | reflexivity]|]).
  exact (GetResponseSync_unbatched first_of json.unmarshal_data
           json.unmarshal_raw (txt "{}") (fragment 0 0 ["row1"%string])
           pending_q1 [] first_of_sound eq_refl (or_introl eq_refl) Hrows
           eq_refl Hq).
Defined.

(** C7 as it is worded fails for a serial other than 0 and 1: a single
    fragment with rows that declares a total of zero and the serial 2 is
    filed under a key the facade does not look under, and the type
    assertion on the vacant value panics. *)
Lemma GetResponseSync_unbatched_serial_2 :
  TotalSubBatches (fragment 2 0 ["row1"%string]) = 0
  /\ Data (fragment 2 0 ["row1"%string]) <> []
  /\ coll_of pending_q1 "q1" = ∅
  /\ no_error_pending (receive [(txt "{}", fragment 2 0 ["row1"%string])])
  /\ size (coll_of (receive [(txt "{}", fragment 2 0 ["row1"%string])]) "q1")
     = 1%nat
  /\ GetResponseSync first_of
       [receive [(txt "{}", fragment 2 0 ["row1"%string])]] "q1"
     = Crash.
Proof.
  assert (Hq : no_error_pending
                 (receive [(txt "{}", fragment 2 0 ["row1"%string])])).
  { apply pending_q1_quiet. intros mr [<-|[]]; reflexivity. }
  repeat (split; [first [assumption | reflexivity | discriminate]|]).
  vm_compute. reflexivity.
Qed.

(** ** Two calls of [shutdown] at the same time *)

Import concurrent.

Lemma step_reachable wsc caller c :
  reachable_shape wsc c -> reachable_shape wsc (step caller c).
Proof.
  destruct wsc as [url cn idle timer err queue stop table h n m].
  destruct c as [w held p1 p2 es k].
  unfold reachable_shape, step, pc_of. simpl.
  destruct caller, p1, p2; simpl; intros [Hk H]; try contradiction;
    destruct H as [Hmu Heq]; subst held k; simpl;
    destruct stop, cn; simpl in *; injection Heq as -> ->; simpl;
    try (repeat split; reflexivity).
Qed.

Lemma run_reachable wsc schedule :
  forall c, reachable_shape wsc c -> reachable_shape wsc (run schedule c).
Proof.
  induction schedule as [|caller schedule IH]; intros c Hc; [exact Hc|].
  simpl. apply IH. now apply step_reachable.
Qed.

Lemma start_reachable wsc : reachable_shape wsc (start wsc).
Proof. repeat split. Qed.

Lemma progress_finished wsc :
  progress wsc Finished = (snd (shutdown wsc), fst (shutdown wsc)).
Proof.
  destruct wsc as [url cn idle timer err queue stop table h n m].
  destruct stop, cn; reflexivity.
Qed.

(** The closes of a caller on its way are the first ones of a whole
    call. *)
Lemma progress_prefix wsc p :
  exists later, fst (shutdown wsc) = snd (progress wsc p) ++ later.
Proof.
  destruct wsc as [url cn idle timer err queue stop table h n m].
  destruct stop, cn, p; simpl; eexists; reflexivity.
Qed.

(** What a configuration that is reached shows: the closes so far, the
    count of the clears, and the end once both callers are through. *)
Lemma reachable_facts wsc c :
  reachable_shape wsc c ->
  (exists later, fst (shutdown wsc) = effects c ++ later)
  /\ (clears c <= 2)%nat
  /\ (pc_of_first c = Finished -> pc_of_second c = Finished ->
      client c = snd (shutdown wsc)
      /\ effects c = fst (shutdown wsc)
      /\ clears c = 2%nat).
Proof.
  intros [Hk H]. split; [|split].
  - assert (Hp : exists p, effects c = snd (progress wsc p)).
    { destruct (pc_of_first c) eqn:E1, (pc_of_second c) eqn:E2;
        try contradiction; destruct H as [_ H];
        apply (f_equal snd) in H; simpl in H;
        first [ eexists; exact H
              | exists AtLock; rewrite H;
                destruct wsc as [url cn idle timer err queue stop table h n m];
                destruct stop, cn; reflexivity ]. }
    destruct Hp as (p & ->). apply progress_prefix.
  - rewrite Hk. destruct (pc_of_first c), (pc_of_second c); simpl; lia.
  - intros E1 E2. rewrite E1, E2 in *. destruct H as [_ H].
    rewrite progress_finished in H. injection H as -> ->.
    repeat split. exact Hk.
Qed.

(** No deadlock: unless both callers are through, one of them can take
    its next statement. *)
Lemma reachable_moves wsc c :
  reachable_shape wsc c ->
  (pc_of_first c = Finished /\ pc_of_second c = Finished)
  \/ exists caller, pc_of (step caller c) caller <> pc_of c caller.
Proof.
  destruct c as [w held p1 p2 es k]. unfold reachable_shape. simpl.
  intros [_ H].
  destruct p1, p2; try contradiction; destruct H as [Hmu _]; subst held;
    first [ left; split; reflexivity
          | right; exists false; discriminate
          | right; exists true; discriminate ].
Qed.

(** From every configuration that is reached, [completion] takes both
    callers to their end. *)
Lemma completion_finishes wsc c :
  reachable_shape wsc c ->
  pc_of_first (run completion c) = Finished
  /\ pc_of_second (run completion c) = Finished.
Proof.
  destruct wsc as [url cn idle timer err queue stop table h n m].
  destruct c as [w held p1 p2 es k]. unfold reachable_shape. simpl.
  intros [_ H].
  destruct p1, p2; try contradiction; destruct H as [Hmu Heq]; subst held;
    destruct stop, cn; simpl in Heq; injection Heq as -> ->;
    split; reflexivity.
Qed.

(** In the schedule [overlapping] the second caller takes the mutex, the
    first one waits for it, and both calls finish. *)
Lemma overlapping_finishes wsc :
  pc_of_first (run overlapping (start wsc)) = Finished
  /\ pc_of_second (run overlapping (start wsc)) = Finished.
Proof.
  destruct wsc as [url c idle timer err queue stop table h n m].
  destruct stop, c; split; reflexivity.
Qed.

Lemma run_app s1 s2 c : run (s1 ++ s2) c = run s2 (run s1 c).
Proof. unfold run. apply fold_left_app. Qed.

(** C8, as the code has it.  [shutdown] leaves the table empty,
    [stopChannel] nil and [Conn] nil, and closes the stop channel and the
    connection if they were there.  A second call right after the first
    changes nothing and closes nothing.  Two calls that run at the same
    time, in whatever order their statements are scheduled, take the mutex
    one after the other: at every moment the closes performed so far are
    the first ones of a single call, so nothing is closed twice; unless
    both calls are through, one of them can take its next statement;
    from every moment on both calls run to their end; and once both are
    through, the client is the one that a single call leaves and the
    closes performed are those of a single call.  The table is not
    cleared once, though: each call runs [Clear], two calls run it
    twice, and an entry written after the first call is removed by the
    second, which closes nothing. *)
Theorem shutdown_closes_once_clears_each_call (wsc : WSSClient) :
  let first := shutdown wsc in
  let second := shutdown (snd first) in
  resultsMap (snd first) = ∅
  /\ stopChannel (snd first) = None
  /\ Conn (snd first) = None
  /\ fst first
     = match stopChannel wsc with Some ch => [CloseStop ch] | None => [] end
       ++ match Conn wsc with Some c => [CloseConn c] | None => [] end
  /\ snd second = snd first
  /\ fst second = []
  /\ (forall schedule : list bool,
        let c := run schedule (start wsc) in
        (exists later, fst first = effects c ++ later)
        /\ (clears c <= 2)%nat
        /\ ((pc_of_first c = Finished /\ pc_of_second c = Finished)
            \/ exists caller, pc_of (step caller c) caller <> pc_of c caller)
        /\ (pc_of_first c = Finished -> pc_of_second c = Finished ->
            client c = snd first /\ effects c = fst first
            /\ clears c = 2%nat))
  /\ (forall schedule : list bool,
        let c := run (schedule ++ completion) (start wsc) in
        pc_of_first c = Finished
        /\ pc_of_second c = Finished
        /\ client c = snd first
        /\ effects c = fst first
        /\ clears c = 2%nat)
  /\ (forall (key : string) (value : entry),
        resultsMap (Set_ key value (snd first)) !! key = Some value
        /\ shutdown (Set_ key value (snd first)) = ([], snd first)).
Proof.
  cbv zeta. repeat (split; [
    destruct wsc as [url c idle timer err queue stop table h n m];
    destruct stop, c; unfold shutdown; simpl; reflexivity |]).
  split; [|split].
  - intros schedule.
    assert (H : reachable_shape wsc (run schedule (start wsc)))
      by (apply run_reachable, start_reachable).
    destruct (reachable_facts _ _ H) as (Hpre & Hle & Hend).
    repeat (split; [assumption|]).
    split; [now apply (reachable_moves wsc) | exact Hend].
  - intros schedule. rewrite run_app.
    assert (H : reachable_shape wsc (run schedule (start wsc)))
      by (apply run_reachable, start_reachable).
    destruct (completion_finishes _ _ H) as (E1 & E2).
    apply (run_reachable wsc completion) in H.
    destruct (reachable_facts _ _ H) as (_ & _ & Hend).
    destruct (Hend E1 E2) as (Hc & He & Hk).
    repeat split; assumption.
  - intros key value. split.
    + unfold Set_. simpl. apply lookup_insert_eq.
    + destruct wsc as [url c idle timer err queue stop table h n m].
      destruct stop, c; reflexivity.
Qed.

(** C8 as it is worded fails on the table: it is cleared by each call,
    not once.  Two overlapping calls on a connected client with a request
    pending both finish, close the stop channel and the connection once,
    and run [Clear] twice.  And when the entry of a new request is
    written after a first call, a second call closes nothing and yet
    removes that entry. *)
Lemma shutdown_clears_table_twice :
  pc_of_first (run overlapping (start pending_q1)) = Finished
  /\ pc_of_second (run overlapping (start pending_q1)) = Finished
  /\ effects (run overlapping (start pending_q1))
     = [CloseStop 1%nat; CloseConn O]
  /\ clears (run overlapping (start pending_q1)) = 2%nat
  /\ resultsMap (snd (shutdown pending_q1)) = ∅
  /\ resultsMap (Set_ "q2" Nil (snd (shutdown pending_q1))) !! "q2"%string
     = Some Nil
  /\ fst (shutdown (Set_ "q2" Nil (snd (shutdown pending_q1)))) = []
  /\ resultsMap (snd (shutdown (Set_ "q2" Nil (snd (shutdown pending_q1)))))
       !! "q2"%string
     = None.
Proof. repeat split. Qed.

(* ================================================================= *)
(** * Further properties of the code *)

(** ** [messages]: the names of the message types *)

(** X1. [MessageType.String] names the three constants apart: a value is
    named [DATA], [INFO] or [LOG_MESSAGE] exactly when it is that
    constant, and [UNKNOWN] exactly when it is none of them. *)
Theorem MessageType_String_names (s : Z) :
  (MessageType_String s = "DATA"%string <-> s = DATA)
  /\ (MessageType_String s = "INFO"%string <-> s = INFO)
  /\ (MessageType_String s = "LOG_MESSAGE"%string <-> s = LOG_MESSAGE)
  /\ (MessageType_String s = "UNKNOWN"%string
      <-> s <> DATA /\ s <> INFO /\ s <> LOG_MESSAGE).
Proof.
  unfold MessageType_String, DATA, INFO, LOG_MESSAGE.
  destruct (Z.eqb_spec s 0) as [->|H0]; simpl.
  { repeat split; intros; try discriminate; try lia; tauto. }
  destruct (Z.eqb_spec s 1) as [->|H1]; simpl.
  { repeat split; intros; try discriminate; try lia; tauto. }
  destruct (Z.eqb_spec s 2) as [->|H2]; simpl.
  { repeat split; intros; try discriminate; try lia; tauto. }
  repeat split; intros; try discriminate; try lia; tauto.
Qed.

(** ** [parse]: what the keys are *)

Section ScanFacts.

Lemma eqb_quote_true b : Byte.eqb b quote = true -> b = quote.
Proof. apply Byte.byte_dec_bl. Qed.

(** Every key of a scan closes a candidate: either the one that is open,
    or one that opens later. *)
Lemma quote_scan_occurs k :
  forall s inside,
    In k (quote_scan s inside) ->
    (exists acc body post,
        inside = Some acc /\ s = body ++ quote :: colon :: post
        /\ k = string_of_list_byte (rev acc ++ body) /\ no_quote body)
    \/ (exists pre body post,
           s = pre ++ quote :: body ++ quote :: colon :: post
           /\ k = string_of_list_byte body /\ no_quote body).
Proof.
  induction s as [|b s IH]; intros inside Hin; [contradiction|].
  simpl in Hin. destruct inside as [acc|].
  - destruct (Byte.eqb b quote) eqn:Eb.
    + apply eqb_quote_true in Eb. subst b.
      assert (Hlater : In k (quote_scan s None) ->
                (exists pre body post,
                    quote :: s = pre ++ quote :: body ++ quote :: colon :: post
                    /\ k = string_of_list_byte body /\ no_quote body)).
      { intros H. destruct (IH None H)
          as [(acc' & _ & _ & Hn & _) | (pre & body & post & -> & Hk & Hb)];
          [discriminate|].
        exists (quote :: pre), body, post. auto. }
      destruct s as [|c s']; [contradiction|].
      destruct (Byte.eqb c colon) eqn:Ec.
      * destruct Hin as [<- | Hin]; [|right; auto].
        apply Byte.byte_dec_bl in Ec. subst c.
        left. exists acc, [], s'. rewrite app_nil_r.
        repeat split; constructor.
      * right; auto.
    + destruct (IH _ Hin)
        as [(acc' & body & post & Hacc & -> & Hk & Hb)
           | (pre & body & post & -> & Hk & Hb)].
      * injection Hacc as <-. left.
        exists acc, (b :: body), post. repeat split.
        -- rewrite Hk. simpl. now rewrite <- app_assoc.
        -- constructor; assumption.
      * right. exists (b :: pre), body, post. auto.
  - destruct (Byte.eqb b quote) eqn:Eb.
    + apply eqb_quote_true in Eb. subst b.
      destruct (IH _ Hin)
        as [(acc' & body & post & Hacc & -> & Hk & Hb)
           | (pre & body & post & -> & Hk & Hb)].
      * injection Hacc as <-. right.
        exists [], body, post. auto.
      * right. exists (quote :: pre), body, post. auto.
    + destruct (IH _ Hin)
        as [(acc' & _ & _ & Hacc & _) | (pre & body & post & -> & Hk & Hb)];
        [discriminate|].
      right. exists (b :: pre), body, post. auto.
Qed.

(** A closing quote adds at most one key. *)
Lemma quote_scan_close acc rest :
  exists ks,
    quote_scan (quote :: rest) (Some acc) = ks ++ quote_scan rest None
    /\ (length ks <= 1)%nat.
Proof.
  cbn [quote_scan]. change (Byte.eqb quote quote) with true. cbv iota.
  destruct rest as [|c rest']; [exists []; split; [reflexivity | simpl; lia]|].
  destruct (Byte.eqb c colon).
  - exists [string_of_list_byte (rev acc)]. split; [reflexivity | simpl; lia].
  - exists []. split; [reflexivity | simpl; lia].
Qed.

(** A scan yields at most one key per pair of double quotes. *)
Lemma quote_scan_count :
  forall s inside,
    (2 * length (quote_scan s inside)
     <= count_occ Byte.byte_eq_dec s quote
        + match inside with Some _ => 1 | None => 0 end)%nat.
Proof.
  induction s as [|b s IH]; intros inside; [simpl; lia|].
  cbn [count_occ].
  destruct (Byte.byte_eq_dec b quote) as [->|Hne].
  - destruct inside as [acc|].
    + destruct (quote_scan_close acc s) as (ks & -> & Hks).
      rewrite length_app. pose proof (IH None) as H.
      cbv beta iota in H |- *. lia.
    + cbn [quote_scan]. change (Byte.eqb quote quote) with true. cbv iota.
      pose proof (IH (Some [])) as H. cbv beta iota in H |- *. lia.
  - assert (Eb : Byte.eqb b quote = false).
    { destruct (Byte.eqb b quote) eqn:E; [|reflexivity].
      apply eqb_quote_true in E. contradiction. }
    cbn [quote_scan]. rewrite Eb. destruct inside as [acc|].
    + pose proof (IH (Some (b :: acc))) as H. cbv beta iota in H |- *. lia.
    + pose proof (IH None) as H. cbv beta iota in H |- *. lia.
Qed.

(** Past a prefix that holds an even number of double quotes the scan is
    outside a candidate again, whatever it gathered in the prefix. *)
Lemma quote_scan_even_prefix :
  forall pre s,
    (Nat.even (count_occ Byte.byte_eq_dec pre quote) = true ->
     exists ks, quote_scan (pre ++ quote :: s) None
                = ks ++ quote_scan (quote :: s) None)
    /\ (Nat.even (count_occ Byte.byte_eq_dec pre quote) = false ->
        forall acc,
        exists ks, quote_scan (pre ++ quote :: s) (Some acc)
                   = ks ++ quote_scan (quote :: s) None).
Proof.
  induction pre as [|b pre IH]; intros s.
  - split; [|discriminate]. intros _. exists []. reflexivity.
  - destruct (IH s) as [IHe IHo].
    cbn [count_occ app].
    destruct (Byte.byte_eq_dec b quote) as [->|Hne].
    + rewrite Nat.even_succ, <- Nat.negb_even.
      cbn [quote_scan]. change (Byte.eqb quote quote) with true. cbv iota.
      split; intros Hp.
      * apply negb_true_iff in Hp. apply (IHo Hp).
      * apply negb_false_iff in Hp. intros acc.
        destruct (IHe Hp) as [ks Hks].
        destruct (pre ++ quote :: s) as [|c rest] eqn:E.
        { destruct pre; discriminate. }
        destruct (Byte.eqb c colon).
        -- exists (string_of_list_byte (rev acc) :: ks). now rewrite Hks.
        -- exists ks. exact Hks.
    + assert (Eb : Byte.eqb b quote = false).
      { destruct (Byte.eqb b quote) eqn:E; [|reflexivity].
        apply eqb_quote_true in E. contradiction. }
      cbn [quote_scan]. rewrite Eb.
      split; [exact IHe | intros Hp acc; apply (IHo Hp)].
Qed.

End ScanFacts.

(** X2. Every key that [parse] returns is in the bytes it read: the bytes
    hold the key between two double quotes, with no double quote inside,
    and a colon right after the closing quote. *)
Theorem parse_keys_occur (raw : list byte) (k : string) :
  In k (parse raw) ->
  exists pre body post,
    raw = pre ++ quote :: body ++ quote :: colon :: post
    /\ k = string_of_list_byte body
    /\ no_quote body.
Proof.
  rewrite parse_scan. unfold scan_keys. intros Hin.
  destruct (quote_scan_occurs k raw None Hin)
    as [(acc & _ & _ & Hacc & _) | H]; [discriminate | exact H].
Qed.

Lemma parse_keys_occur_witness :
  In "b"%string (parse (list_byte_of_string "x" ++ q ++ txt "a" ++ q
                        ++ txt ":1," ++ q ++ txt "b" ++ q ++ txt ":2"))
  /\ exists pre body post,
       list_byte_of_string "x" ++ q ++ txt "a" ++ q ++ txt ":1," ++ q
         ++ txt "b" ++ q ++ txt ":2"
       = pre ++ quote :: body ++ quote :: colon :: post
       /\ "b"%string = string_of_list_byte body
       /\ no_quote body.
Proof.
  assert (H : In "b"%string
                (parse (list_byte_of_string "x" ++ q ++ txt "a" ++ q
                        ++ txt ":1," ++ q ++ txt "b" ++ q ++ txt ":2")))
    by (vm_compute; auto).
  split; [exact H | exact (parse_keys_occur _ _ H)].
Defined.

(** X3. [parse] misses no candidate that starts outside a quoted stretch:
    text between two double quotes, with no double quote inside and a
    colon right after, is returned as a key when an even number of double
    quotes comes before it. *)
Theorem parse_finds_candidate (pre body post : list byte) :
  Nat.even (count_occ Byte.byte_eq_dec pre quote) = true ->
  no_quote body ->
  In (string_of_list_byte body)
     (parse (pre ++ quote :: body ++ quote :: colon :: post)).
Proof.
  intros Hpre Hbody. rewrite parse_scan. unfold scan_keys.
  destruct (proj1 (quote_scan_even_prefix pre
                     (body ++ quote :: colon :: post)) Hpre) as [ks ->].
  apply in_or_app. right.
  pose proof (scan_keys_candidate [] body (colon :: post)
                (List.Forall_nil _) Hbody) as H.
  unfold scan_keys in H. simpl app in H. rewrite H.
  change (Byte.eqb colon colon) with true. cbv iota. now left.
Qed.

Lemma parse_finds_candidate_witness :
  Nat.even (count_occ Byte.byte_eq_dec (txt "{" ++ q ++ txt "a" ++ q
                                        ++ txt ":1,") quote) = true
  /\ no_quote (txt "b")
  /\ In (string_of_list_byte (txt "b"))
       (parse ((txt "{" ++ q ++ txt "a" ++ q ++ txt ":1,")
               ++ quote :: txt "b" ++ quote :: colon :: txt "2}")).
Proof.
  assert (Hp : Nat.even (count_occ Byte.byte_eq_dec
                           (txt "{" ++ q ++ txt "a" ++ q ++ txt ":1,") quote)
               = true) by reflexivity.
  assert (Hb : no_quote (txt "b")) by (repeat constructor).
  split; [exact Hp|]. split; [exact Hb|].
  exact (parse_finds_candidate _ _ (txt "2}") Hp Hb).
Defined.

(** X4. [parse] returns at most one key for every two double quotes of
    its input; in particular none for text without a pair of them. *)
Theorem parse_keys_bound (raw : list byte) :
  (2 * length (parse raw) <= count_occ Byte.byte_eq_dec raw quote)%nat.
Proof.
  rewrite parse_scan. unfold scan_keys.
  pose proof (quote_scan_count raw None) as H. cbv beta iota in H. lia.
Qed.

(** ** Connecting, and leaving the loops *)

Import loops.

Section Teardown.

(** What [shutdown] does not touch. *)
Lemma shutdown_keeps wsc :
  messageChannel (snd (shutdown wsc)) = messageChannel wsc
  /\ idleTimer (snd (shutdown wsc)) = idleTimer wsc
  /\ idleTimeoutMinutes (snd (shutdown wsc)) = idleTimeoutMinutes wsc
  /\ heap (snd (shutdown wsc)) = heap wsc
  /\ made (snd (shutdown wsc)) = made wsc.
Proof.
  destruct wsc as [url c idle timer err queue stop table h n m].
  destruct stop, c; unfold shutdown; simpl; repeat split; reflexivity.
Qed.

Lemma deferred_shutdown_exit r :
  match deferred_shutdown r with
  | (Next, _, _) => True
  | (_, _, w') =>
      resultsMap w' = ∅ /\ IsWebSocketClosed w' = true
      /\ stopChannel w' = None
  end.
Proof.
  destruct r as [[f es] w]. unfold deferred_shutdown.
  destruct f; [exact I| |];
    destruct (shutdown_state w) as (Ht & Hs & Hc);
    pose proof (shutdown_closed w) as Hcl;
    destruct (shutdown w) as [es' w']; simpl in *; auto.
Qed.

End Teardown.

(** X5. [Connect] dials only when the socket is closed: on an open client
    it changes nothing, whatever the dial would answer, so a second
    [Connect] keeps the first connection.  A failed dial leaves the client
    closed and records the text of the error; a successful one stores the
    connection and a new stop channel.  No outcome touches the correlation
    table or the frames waiting for the sender. *)
Theorem Connect_dials_when_closed (dial : conn + string) (c : conn)
    (err : string) (w : WSSClient) :
  Connect dial (Connect (inl c) w) = Connect (inl c) w
  /\ IsWebSocketClosed (Connect (inr err) w) = IsWebSocketClosed w
  /\ resultsMap (Connect dial w) = resultsMap w
  /\ messageChannel (Connect dial w) = messageChannel w
  /\ match Conn w with
     | Some _ => Connect dial w = w
     | None =>
         Conn (Connect (inl c) w) = Some c
         /\ stopChannel (Connect (inl c) w) = Some (made w)
         /\ Error (Connect (inr err) w) = err
     end.
Proof.
  destruct w as [url c0 idle timer e queue stop table h n m].
  destruct c0 as [c0|]; destruct dial as [c1|e1];
    unfold Connect, connect, IsWebSocketClosed; simpl;
    repeat split; reflexivity.
Qed.

(** X6. However the sender leaves its loop, the deferred [shutdown] has
    emptied the correlation table, closed the socket and dropped the stop
    channel.  This takes with it the fatal error the sender records right
    before it returns: when a frame is taken with no connection, the body
    files the error under [error], and after the step nothing is filed
    there. *)
Theorem sendMessageAsync_exit_clears (IdleTimeoutMinutes : Z)
    (cases : list (sender_select * option string))
    (message : list byte) (w : WSSClient) :
  match sendMessageAsync IdleTimeoutMinutes cases w with
  | (Next, _, _) => True
  | (_, _, w') =>
      resultsMap w' = ∅ /\ IsWebSocketClosed w' = true
      /\ stopChannel w' = None
  end
  /\ let closed := set_Conn None (set_messageChannel [message] w) in
     sendMessageAsync_body IdleTimeoutMinutes RecvMessage None closed
     = (Returned, [],
        Set_ "error"
          (Err "Could not send message to websocket -> Not connected to WebSocket server")
          (set_Error
             "Could not send message to websocket -> Not connected to WebSocket server"
             (set_messageChannel [] closed)))
     /\ fst (fst (sendMessageAsync_step IdleTimeoutMinutes RecvMessage None
                    closed)) = Returned
     /\ resultsMap (snd (sendMessageAsync_step IdleTimeoutMinutes RecvMessage
                           None closed)) !! "error"%string = None.
Proof.
  split.
  - revert w. induction cases as [|[sel write] cases IH]; intros w; [exact I|].
    simpl. unfold sendMessageAsync_step.
    pose proof (deferred_shutdown_exit
                  (sendMessageAsync_body IdleTimeoutMinutes sel write w)) as H.
    destruct (deferred_shutdown
                (sendMessageAsync_body IdleTimeoutMinutes sel write w))
      as [[f es] w'].
    destruct f; try exact H.
    specialize (IH w').
    destruct (sendMessageAsync IdleTimeoutMinutes cases w') as [[f' es'] w''].
    exact IH.
  - cbv zeta. split; [reflexivity|].
    destruct w as [url c idle timer e queue stop table h n m].
    destruct stop; split; reflexivity.
Qed.

(** X7. However the receiver leaves its loop (stop signal, no connection,
    read error, or a panic while it handles a frame), the deferred
    [shutdown] has emptied the correlation table, closed the socket and
    dropped the stop channel; the error a failed read files under [error]
    is gone with the rest of the table. *)
Theorem receiveMessageAsync_exit_clears
    (unmarshalResponse : list byte -> option Response * option string)
    (unmarshalLog : list byte -> option LogMessage * option string)
    (unmarshalData : list byte -> option (list (list byte)))
    (unmarshalRaw : list byte -> option (list byte))
    (reads : list (bool * read_result)) (c : conn) (err : string)
    (w : WSSClient) :
  match receiveMessageAsync unmarshalResponse unmarshalLog unmarshalData
          unmarshalRaw reads w with
  | (Next, _, _) => True
  | (_, _, w') =>
      resultsMap w' = ∅ /\ IsWebSocketClosed w' = true
      /\ stopChannel w' = None
  end
  /\ let open := set_Conn (Some c) w in
     resultsMap
       (snd (receiveMessageAsync_body unmarshalResponse unmarshalLog
               unmarshalData unmarshalRaw false (ReadError err) open))
       !! "error"%string
     = Some (Err ("Could not read message from websocket -> %!(EXTRA string="
                  ++ err ++ ")"))
     /\ fst (fst (receiveMessageAsync_step unmarshalResponse unmarshalLog
                    unmarshalData unmarshalRaw false (ReadError err) open))
        = Returned
     /\ resultsMap
          (snd (receiveMessageAsync_step unmarshalResponse unmarshalLog
                  unmarshalData unmarshalRaw false (ReadError err) open))
        = ∅.
Proof.
  split.
  - revert w. induction reads as [|[stopped read] reads IH]; intros w;
      [exact I|].
    simpl. unfold receiveMessageAsync_step.
    pose proof (deferred_shutdown_exit
                  (receiveMessageAsync_body unmarshalResponse unmarshalLog
                     unmarshalData unmarshalRaw stopped read w)) as H.
    destruct (deferred_shutdown
                (receiveMessageAsync_body unmarshalResponse unmarshalLog
                   unmarshalData unmarshalRaw stopped read w))
      as [[f es] w'].
    destruct f; try exact H.
    specialize (IH w').
    destruct (receiveMessageAsync unmarshalResponse unmarshalLog
                unmarshalData unmarshalRaw reads w') as [[f' es'] w''].
    exact IH.
  - cbv zeta. split.
    + unfold receiveMessageAsync_body. simpl. apply lookup_insert_eq.
    + destruct w as [url c0 idle timer e queue stop table h n m].
      destruct stop; split; reflexivity.
Qed.

Section SenderOrder.

Variable IdleTimeoutMinutes : Z.

Lemma sender_writes_in_order n :
  forall (frames : list (list byte)) (w : WSSClient) (c : conn) (t : Z),
    Conn w = Some c -> idleTimer w = Some t ->
    messageChannel w = frames -> (n <= length frames)%nat ->
    exists w',
      sendMessageAsync IdleTimeoutMinutes (repeat (RecvMessage, None) n) w
      = (Next, map (WriteMessage c) (firstn n frames), w')
      /\ messageChannel w' = skipn n frames
      /\ Conn w' = Some c
      /\ resultsMap w' = resultsMap w.
Proof.
  induction n as [|n IH]; intros frames w c t Hc Ht Hq Hn.
  - exists w. simpl. auto.
  - destruct frames as [|message rest]; [simpl in Hn; lia|].
    destruct (sender_write_timer IdleTimeoutMinutes w c t message rest
                Hc Ht Hq) as (w1 & Hstep & Ht1).
    assert (Hw1 : messageChannel w1 = rest /\ Conn w1 = Some c
                  /\ resultsMap w1 = resultsMap w).
    { unfold sendMessageAsync_step, sendMessageAsync_body in Hstep.
      rewrite Hq in Hstep. simpl in Hstep. rewrite Hc, Ht in Hstep.
      simpl in Hstep. injection Hstep as <-. simpl. auto. }
    destruct Hw1 as (Hq1 & Hc1 & Hr1).
    destruct (IH rest w1 c IdleTimeoutMinutes Hc1 Ht1 Hq1)
      as (w' & Hrun & Hq' & Hc' & Hr'); [simpl in Hn; lia|].
    exists w'. simpl repeat. cbn [sendMessageAsync].
    rewrite Hstep, Hrun. simpl. repeat split; congruence.
Qed.

End SenderOrder.

Lemma written_writes (c : conn) (frames : list (list byte)) :
  written (map (WriteMessage c) frames) = frames.
Proof.
  induction frames as [|m l IH]; [reflexivity|].
  unfold written in *. cbn [map flat_map app]. now f_equal.
Qed.

(** X8. The sender writes the frames in the order [SendMessage] handed
    them over: on an open client whose timer is armed, [n] iterations that
    take a frame and write it without error write the first [n] waiting
    frames, oldest first, to the connection, leave the others waiting, and
    do not touch the correlation table. *)
Theorem sendMessageAsync_first_in_first_out (IdleTimeoutMinutes : Z)
    (n : nat) (w : WSSClient) (c : conn) (t : Z) :
  Conn w = Some c ->
  idleTimer w = Some t ->
  (n <= length (messageChannel w))%nat ->
  exists w',
    sendMessageAsync IdleTimeoutMinutes (repeat (RecvMessage, None) n) w
    = (Next, map (WriteMessage c) (firstn n (messageChannel w)), w')
    /\ written (map (WriteMessage c) (firstn n (messageChannel w)))
       = firstn n (messageChannel w)
    /\ messageChannel w' = skipn n (messageChannel w)
    /\ resultsMap w' = resultsMap w.
Proof.
  intros Hc Ht Hn.
  destruct (sender_writes_in_order IdleTimeoutMinutes n (messageChannel w)
              w c t Hc Ht eq_refl Hn) as (w' & Hrun & Hq & _ & Hr).
  exists w'. repeat split; try assumption.
  apply written_writes.
Qed.

Lemma sendMessageAsync_first_in_first_out_witness :
  Conn (enqueue (txt "two") (enqueue (txt "one") open_client)) = Some O
  /\ idleTimer (enqueue (txt "two") (enqueue (txt "one") open_client))
     = Some 5
  /\ exists w',
       sendMessageAsync 5 (repeat (RecvMessage, None) 2)
         (enqueue (txt "two") (enqueue (txt "one") open_client))
       = (Next, [WriteMessage O (txt "one"); WriteMessage O (txt "two")], w')
       /\ messageChannel w' = [].
Proof.
  split; [reflexivity|]. split; [reflexivity|].
  destruct (sendMessageAsync_first_in_first_out 5 2
              (enqueue (txt "two") (enqueue (txt "one") open_client)) O 5
              eq_refl eq_refl (le_n 2)) as (w' & Hrun & _ & Hq & _).
  exists w'. split; [exact Hrun | exact Hq].
Defined.

(** X9. A teardown does not drain the frames that wait for the sender: a
    frame handed over before [shutdown] is still first in line after it,
    and once the client is connected again the sender writes that frame
    to the new connection, while the correlation table, emptied by the
    teardown, holds no entry for it. *)
Theorem shutdown_keeps_waiting_frames (IdleTimeoutMinutes : Z)
    (w : WSSClient) (c' : conn) (message : list byte)
    (rest : list (list byte)) (t : Z) :
  messageChannel w = message :: rest ->
  idleTimer w = Some t ->
  messageChannel (snd (shutdown w)) = message :: rest
  /\ exists w2,
       sendMessageAsync_step IdleTimeoutMinutes RecvMessage None
         (Connect (inl c') (snd (shutdown w)))
       = (Next, [WriteMessage c' message], w2)
       /\ resultsMap w2 = ∅
       /\ messageChannel w2 = rest.
Proof.
  intros Hq Ht.
  destruct (shutdown_keeps w) as (Hq' & Ht' & _).
  destruct (shutdown_state w) as (Htab & _ & Hconn).
  rewrite Hq in Hq'. rewrite Ht in Ht'.
  split; [exact Hq'|].
  set (w1 := snd (shutdown w)) in *.
  unfold sendMessageAsync_step, sendMessageAsync_body, Connect, connect,
    IsWebSocketClosed.
  rewrite Hconn. simpl. rewrite Hq'. simpl. rewrite Ht'. simpl.
  eexists. split; [reflexivity|]. simpl. auto.
Qed.

Lemma shutdown_keeps_waiting_frames_witness :
  messageChannel pending_q1 = [txt "{}"]
  /\ idleTimer pending_q1 = Some 5
  /\ messageChannel (snd (shutdown pending_q1)) = [txt "{}"]
  /\ exists w2,
       sendMessageAsync_step 5 RecvMessage None
         (Connect (inl 7%nat) (snd (shutdown pending_q1)))
       = (Next, [WriteMessage 7%nat (txt "{}")], w2)
       /\ resultsMap w2 = ∅
       /\ messageChannel w2 = [].
Proof.
  split; [reflexivity|]. split; [reflexivity|].
  exact (shutdown_keeps_waiting_frames 5 pending_q1 7%nat (txt "{}") [] 5
           eq_refl eq_refl).
Defined.

(** X10. The idle window does not survive the first idle timeout.  A
    client made without a window of its own (as [GetInstance] makes it)
    is armed with [constants.IdleTimeoutMinutes]; when the timer fires,
    [resetIdleTimer] finds that stored value positive, multiplies it by
    [time.Minute] in 64 bits and arms the timer with the product, which is
    never the window it started with. *)
Theorem idle_window_after_first_timeout (D : Z) (url : string) (c : Z) :
  c <= 0 ->
  0 < D < 2 ^ 63 ->
  idleTimer (NewWSSClient D url c) = Some D
  /\ idleTimer (snd (idleTimerFired D (NewWSSClient D url c)))
     = Some (wrap64 (D * Minute))
  /\ wrap64 (D * Minute) <> D.
Proof.
  intros Hc HD.
  assert (Hnew : NewWSSClient D url c
                 = {| URL := url; Conn := None; idleTimeoutMinutes := D;
                      idleTimer := Some D; Error := ""; messageChannel := [];
                      stopChannel := Some O; resultsMap := ∅;
                      heap := fun _ => zero; next := O; made := 1%nat |}).
  { unfold NewWSSClient, resetIdleTimer. simpl.
    destruct (Z.leb_spec c 0); [reflexivity | lia]. }
  rewrite Hnew. split; [reflexivity|]. split.
  - unfold idleTimerFired, shutdown, resetIdleTimer. simpl.
    destruct (Z.leb_spec D 0); [lia | reflexivity].
  - unfold wrap64. intros Heq.
    assert (Hmod : (D * Minute + 2 ^ 63) mod 2 ^ 64 = D + 2 ^ 63) by lia.
    pose proof (Z.div_mod (D * Minute + 2 ^ 63) (2 ^ 64) ltac:(lia)) as Hdm.
    rewrite Hmod in Hdm.
    assert (Hdiv : (2 ^ 64 | (Minute - 1) * D)).
    { exists ((D * Minute + 2 ^ 63) / 2 ^ 64). lia. }
    apply Z.gauss in Hdiv; [|vm_compute; reflexivity].
    apply Z.divide_pos_le in Hdiv; lia.
Qed.

Lemma idle_window_after_first_timeout_witness :
  0 <= 0
  /\ 0 < 5 * Minute < 2 ^ 63
  /\ idleTimer (NewWSSClient (5 * Minute) "wss://host" 0) = Some (5 * Minute)
  /\ idleTimer (snd (idleTimerFired (5 * Minute)
                       (NewWSSClient (5 * Minute) "wss://host" 0)))
     = Some (wrap64 (5 * Minute * Minute))
  /\ wrap64 (5 * Minute * Minute) <> 5 * Minute.
Proof.
  assert (H0 : 0 <= 0) by lia.
  assert (HD : 0 < 5 * Minute < 2 ^ 63) by (unfold Minute; lia).
  split; [exact H0|]. split; [exact HD|].
  exact (idle_window_after_first_timeout (5 * Minute) "wss://host" 0 H0 HD).
Defined.

(** ** The receiver: filing fragments and handling frames *)

Section Filing.

Variable unmarshalData : list byte -> option (list (list byte)).
Variable unmarshalRaw : list byte -> option (list byte).

(** The object the receiver files for a decoded frame: the response as
    decoded, with the keys of the frame attached when the fragment is the
    last one (its serial is the declared total, or the total is zero). *)
Lemma storeFragment_object message r w :
  heap (storeFragment unmarshalData unmarshalRaw message r w) (next w)
  = if (TotalSubBatches r =? 0) || (TotalSubBatches r =? SubBatchSerial r)
    then set_Keys (extractKeys unmarshalData unmarshalRaw message) r
    else r.
Proof.
  unfold storeFragment.
  destruct (resultsMap w !! RequestID r) as [[| |v]|];
    destruct ((TotalSubBatches r =? 0)
              || (TotalSubBatches r =? SubBatchSerial r));
    simpl; rewrite Nat.eqb_refl; reflexivity.
Qed.

Lemma storeFragment_keeps message r w :
  Conn (storeFragment unmarshalData unmarshalRaw message r w) = Conn w
  /\ messageChannel (storeFragment unmarshalData unmarshalRaw message r w)
     = messageChannel w.
Proof.
  unfold storeFragment.
  destruct (resultsMap w !! RequestID r) as [[| |v]|];
    destruct ((TotalSubBatches r =? 0)
              || (TotalSubBatches r =? SubBatchSerial r));
    split; reflexivity.
Qed.

End Filing.

(** X11. Filing a data fragment and looking it up agree.  After the
    receiver files a decoded fragment, the collection of its request
    holds, under the key of its serial, a pointer to a new object that is
    the fragment as decoded (with the keys of the frame attached when it is
    the last one).  The entry is a collection whatever it was before:
    a pending value or an error recorded for the request is replaced.  The
    other keys of the collection, the entries of the other requests and
    the objects filed earlier are as they were. *)
Theorem storeFragment_files_fragment
    (unmarshalData : list byte -> option (list (list byte)))
    (unmarshalRaw : list byte -> option (list byte))
    (message : list byte) (r : Response) (w : WSSClient) :
  let w' := storeFragment unmarshalData unmarshalRaw message r w in
  resultsMap w' !! RequestID r
  = Some (Responses (<[key_of r := next w]> (coll_of w (RequestID r))))
  /\ coll_of w' (RequestID r) !! key_of r = Some (next w)
  /\ heap w' (next w)
     = (if (TotalSubBatches r =? 0)
           || (TotalSubBatches r =? SubBatchSerial r)
        then set_Keys (extractKeys unmarshalData unmarshalRaw message) r
        else r)
  /\ (forall k, k <> key_of r ->
        coll_of w' (RequestID r) !! k = coll_of w (RequestID r) !! k)
  /\ (forall id, id <> RequestID r ->
        resultsMap w' !! id = resultsMap w !! id)
  /\ (forall l, l <> next w -> heap w' l = heap w l).
Proof.
  cbv zeta. repeat split.
  - rewrite storeFragment_table. apply lookup_insert_eq.
  - rewrite storeFragment_coll. apply lookup_insert_eq.
  - apply storeFragment_object.
  - intros k Hk. rewrite storeFragment_coll. now apply lookup_insert_ne.
  - intros id Hid. rewrite storeFragment_table. now apply lookup_insert_ne.
  - intros l Hl. now apply storeFragment_heap_old.
Qed.

(** X12. A data frame whose decoding reports an error after it has filled
    the response (a field of the wrong type) is filed all the same, and
    the error the receiver has just recorded for its request is
    overwritten: after the frame the entry of the request is the
    collection with the fragment, not the error. *)
Theorem handleMessage_data_overwrites_decode_error
    (unmarshalResponse : list byte -> option Response * option string)
    (unmarshalLog : list byte -> option LogMessage * option string)
    (unmarshalData : list byte -> option (list (list byte)))
    (unmarshalRaw : list byte -> option (list byte))
    (message : list byte) (r : Response) (e : string) (w : WSSClient) :
  unmarshalResponse message = (Some r, Some e) ->
  MessageType r = "DATA"%string ->
  exists w',
    handleMessage unmarshalResponse unmarshalLog unmarshalData unmarshalRaw
      message w = (Next, w')
    /\ resultsMap w' !! RequestID r
       = Some (Responses {[key_of r := next w]})
    /\ Data (heap w' (next w)) = Data r.
Proof.
  intros Hd Ht. unfold handleMessage. rewrite Hd, Ht.
  change (MessageType_String LOG_MESSAGE) with "LOG_MESSAGE"%string.
  change (MessageType_String DATA) with "DATA"%string.
  simpl String.eqb. cbv iota.
  eexists. split; [reflexivity|].
  set (w1 := Set_ (RequestID r) (Err ("Error parsing JSON: " ++ e)) w).
  split.
  - rewrite storeFragment_table. rewrite lookup_insert_eq.
    unfold coll_of, w1, Set_. simpl. rewrite lookup_insert_eq. reflexivity.
  - exact (proj1 (storeFragment_heap_new unmarshalData unmarshalRaw
                    message r w1)).
Qed.

Lemma handleMessage_data_overwrites_decode_error_witness :
  exists w',
    handleMessage
      (fun _ => (Some (fragment 1 1 ["row1"%string]), Some "wrong type"%string))
      (fun _ => (None, None)) json.unmarshal_data json.unmarshal_raw
      (txt "{}") pending_q1 = (Next, w')
    /\ resultsMap w' !! "q1"%string
       = Some (Responses {[key_of (fragment 1 1 ["row1"%string])
                           := next pending_q1]})
    /\ Data (heap w' (next pending_q1)) = ["row1"%string].
Proof.
  exact (handleMessage_data_overwrites_decode_error
           (fun _ => (Some (fragment 1 1 ["row1"%string]),
                      Some "wrong type"%string))
           (fun _ => (None, None)) json.unmarshal_data json.unmarshal_raw
           (txt "{}") (fragment 1 1 ["row1"%string]) "wrong type" pending_q1
           eq_refl eq_refl).
Defined.

(** A format put together from two texts without a percent sign is the
    message of [fmt.Errorf]. *)
Lemma percent_free_app (a b : string) :
  fmt.percent_free (a ++ b) = fmt.percent_free a && fmt.percent_free b.
Proof.
  unfold fmt.percent_free. induction a as [|c a IH]; simpl; [reflexivity|].
  rewrite IH. apply andb_assoc.
Qed.

Lemma Errorf_copies (verbs : string -> string) (a b : string) :
  fmt.percent_free a = true ->
  fmt.percent_free b = true ->
  fmt.Errorf verbs (a ++ b) = (a ++ b)%string.
Proof.
  intros Ha Hb. unfold fmt.Errorf. now rewrite percent_free_app, Ha, Hb.
Qed.

(** X13. A log frame of level [ERROR] whose text holds no percent sign
    ends the wait of its request: the receiver records the text of the
    log, behind the words of line 222, as the error of the request, and
    every look of the facade at that request from then on returns this
    error (unless a fatal error is pending under [error]).  The table is
    not changed by the return, so the error stays for later calls.  The
    text is the format of [fmt.Errorf]; without a percent sign it is the
    message that the library makes of it, whatever it does with verbs.  A
    text with a percent sign is not recorded as it stands, and the
    statement leaves it out. *)
Theorem error_log_reaches_caller
    (IterBuffered_first : gmap string loc -> option (string * loc))
    (verbs : string -> string)
    (unmarshalResponse : list byte -> option Response * option string)
    (unmarshalLog : list byte -> option LogMessage * option string)
    (unmarshalData : list byte -> option (list (list byte)))
    (unmarshalRaw : list byte -> option (list byte))
    (message : list byte) (r : Response) (lm : LogMessage) (w : WSSClient)
    (rest : list WSSClient) (temp : option loc) :
  unmarshalResponse message = (Some r, None) ->
  MessageType r = "LOG_MESSAGE"%string ->
  unmarshalLog message = (Some lm, None) ->
  LogLevel lm = "ERROR"%string ->
  fmt.percent_free (LogMessageText lm) = true ->
  RequestID r <> "error"%string ->
  resultsMap w !! "error"%string = None
  \/ resultsMap w !! "error"%string = Some Nil ->
  exists w',
    handleMessage unmarshalResponse unmarshalLog unmarshalData unmarshalRaw
      message w = (Next, w')
    /\ fmt.Errorf verbs ("Log message from server: " ++ LogMessageText lm)
       = ("Log message from server: " ++ LogMessageText lm)%string
    /\ resultsMap w' !! RequestID r
       = Some (Err ("Log message from server: " ++ LogMessageText lm))
    /\ GetResponseSync_loop IterBuffered_first (w' :: rest) (RequestID r) temp
       = Done NewResponse
           (Some ("Log message from server: " ++ LogMessageText lm)%string) w'.
Proof.
  intros Hd Ht Hl Hlevel Hfree Hid Herr. unfold handleMessage.
  rewrite Hd, Ht, Hl, Hlevel.
  change (MessageType_String LOG_MESSAGE) with "LOG_MESSAGE"%string.
  simpl String.eqb. cbv iota.
  eexists. split; [reflexivity|]. split; [|split].
  - now apply Errorf_copies.
  - unfold Set_. simpl. apply lookup_insert_eq.
  - simpl. unfold poll, Set_. simpl.
    rewrite lookup_insert_ne by congruence.
    rewrite lookup_insert_eq.
    destruct Herr as [-> | ->]; reflexivity.
Qed.

Lemma error_log_reaches_caller_witness :
  fmt.percent_free (LogMessageText error_log) = true
  /\ exists w',
       handleMessage (fun _ => (Some log_envelope, None))
         (fun _ => (Some error_log, None))
         json.unmarshal_data json.unmarshal_raw (txt "{}")
         (Set_ "q1" Nil open_client) = (Next, w')
       /\ GetResponseSync_loop first_of [w'] "q1" None
          = Done NewResponse
              (Some "Log message from server: no such table"%string) w'.
Proof.
  split; [reflexivity|].
  destruct (error_log_reaches_caller first_of (fun format => format)
              (fun _ => (Some log_envelope, None))
              (fun _ => (Some error_log, None))
              json.unmarshal_data json.unmarshal_raw (txt "{}")
              log_envelope error_log (Set_ "q1" Nil open_client) [] None
              eq_refl eq_refl eq_refl eq_refl eq_refl)
    as (w' & Hh & _ & _ & Hg); [discriminate | left; reflexivity |].
  exists w'. split; [exact Hh | exact Hg].
Defined.

(** X14. Frames that never reach a caller: a frame that decodes without
    error and is neither a data frame nor a log frame of level [ERROR]
    leaves the client exactly as it was, so a log of another level or an
    [INFO] frame cannot end a wait. *)
Theorem handleMessage_ignores_other_frames
    (unmarshalResponse : list byte -> option Response * option string)
    (unmarshalLog : list byte -> option LogMessage * option string)
    (unmarshalData : list byte -> option (list (list byte)))
    (unmarshalRaw : list byte -> option (list byte))
    (message : list byte) (r : Response) (lm : LogMessage) (w : WSSClient) :
  unmarshalResponse message = (Some r, None) ->
  MessageType r <> "DATA"%string ->
  unmarshalLog message = (Some lm, None) ->
  LogLevel lm <> "ERROR"%string ->
  handleMessage unmarshalResponse unmarshalLog unmarshalData unmarshalRaw
    message w = (Next, w).
Proof.
  intros Hd Ht Hl Hlevel. unfold handleMessage. rewrite Hd, Hl.
  change (MessageType_String LOG_MESSAGE) with "LOG_MESSAGE"%string.
  change (MessageType_String DATA) with "DATA"%string.
  destruct (String.eqb_spec "LOG_MESSAGE" (MessageType r)).
  - destruct (String.eqb_spec (LogLevel lm) "ERROR"); [contradiction|].
    reflexivity.
  - destruct (String.eqb_spec "DATA" (MessageType r)); [congruence|].
    reflexivity.
Qed.

Lemma handleMessage_ignores_other_frames_witness :
  handleMessage (fun _ => (Some log_envelope, None))
    (fun _ => (Some {| Log_MessageType := "LOG_MESSAGE"; LogLevel := "INFO";
                       Log_RequestID := "q1";
                       LogMessageText := "query started" |}, None))
    json.unmarshal_data json.unmarshal_raw (txt "{}") pending_q1
  = (Next, pending_q1).
Proof.
  apply (handleMessage_ignores_other_frames
           (fun _ => (Some log_envelope, None))
           (fun _ => (Some {| Log_MessageType := "LOG_MESSAGE";
                              LogLevel := "INFO"; Log_RequestID := "q1";
                              LogMessageText := "query started" |}, None))
           json.unmarshal_data json.unmarshal_raw (txt "{}") log_envelope
           {| Log_MessageType := "LOG_MESSAGE"; LogLevel := "INFO";
              Log_RequestID := "q1"; LogMessageText := "query started" |}
           pending_q1 eq_refl);
    [discriminate | reflexivity | discriminate].
Defined.

(** ** The facade: errors without a request, timeouts, partial results *)

(** X15. An error filed under the empty request id goes to every caller
    that looks at the table while it is there and whose own entry is
    present and is not an error (pending, or a collection): the call
    returns that error and sets the slot to nil on its way out.  Nothing
    reserves the error for one caller: the read of line 338 and the reset
    of line 340 are two operations on the map, and every caller that has
    read the slot before a reset returns the error, whatever its request.
    A caller whose entry is absent does not see the error, and after the
    reset a caller whose request is pending goes on waiting. *)
Theorem anonymous_error_goes_to_every_looker
    (IterBuffered_first : gmap string loc -> option (string * loc))
    (w : WSSClient) (e : string) :
  resultsMap w !! "error"%string = None
  \/ resultsMap w !! "error"%string = Some Nil ->
  resultsMap w !! ""%string = Some (Err e) ->
  (forall (requestID : string) (x : entry) (temp : option loc)
          (rest : list WSSClient),
      resultsMap w !! requestID = Some x ->
      (forall e', x <> Err e') ->
      GetResponseSync_loop IterBuffered_first (w :: rest) requestID temp
      = Done NewResponse (Some e) (Set_ "" Nil w))
  /\ (forall (requestID : string) (temp : option loc),
        resultsMap w !! requestID = None ->
        poll IterBuffered_first w requestID temp = Wait temp)
  /\ resultsMap (Set_ "" Nil w) !! ""%string = Some Nil
  /\ (forall (requestID : string) (temp : option loc),
        resultsMap w !! requestID = Some Nil ->
        poll IterBuffered_first (Set_ "" Nil w) requestID temp = Wait temp).
Proof.
  intros Herr Hanon.
  assert (Hne' : "error"%string <> ""%string) by discriminate.
  split; [|split; [|split]].
  - intros requestID x temp rest Hid Hx.
    simpl. unfold poll. rewrite Hid, Hanon.
    destruct x as [|e'|v]; [| exfalso; now apply (Hx e') |];
      destruct Herr as [-> | ->]; reflexivity.
  - intros requestID temp Hid. unfold poll. rewrite Hid.
    destruct Herr as [-> | ->]; reflexivity.
  - unfold Set_. simpl. apply lookup_insert_eq.
  - intros requestID temp Hid.
    assert (Hne : requestID <> ""%string) by congruence.
    unfold poll, Set_. simpl.
    rewrite (lookup_insert_ne _ "" "error") by congruence.
    rewrite (lookup_insert_ne _ "" requestID) by congruence.
    rewrite Hid, lookup_insert_eq.
    destruct Herr as [-> | ->]; reflexivity.
Qed.

Lemma anonymous_error_goes_to_every_looker_witness :
  resultsMap (Set_ "q2" Nil (Set_ "" (Err "Error parsing JSON: bad") pending_q1))
    !! "error"%string = Some Nil
  /\ GetResponseSync_loop first_of
       [Set_ "q2" Nil (Set_ "" (Err "Error parsing JSON: bad") pending_q1)]
       "q1" None
     = Done NewResponse (Some "Error parsing JSON: bad"%string)
         (Set_ "" Nil
            (Set_ "q2" Nil
               (Set_ "" (Err "Error parsing JSON: bad") pending_q1)))
  /\ GetResponseSync_loop first_of
       [Set_ "q2" Nil (Set_ "" (Err "Error parsing JSON: bad") pending_q1)]
       "q2" None
     = Done NewResponse (Some "Error parsing JSON: bad"%string)
         (Set_ "" Nil
            (Set_ "q2" Nil
               (Set_ "" (Err "Error parsing JSON: bad") pending_q1)))
  /\ poll first_of
       (Set_ "" Nil
          (Set_ "q2" Nil (Set_ "" (Err "Error parsing JSON: bad") pending_q1)))
       "q1" None = Wait None.
Proof.
  split; [reflexivity|].
  destruct (anonymous_error_goes_to_every_looker first_of
              (Set_ "q2" Nil
                 (Set_ "" (Err "Error parsing JSON: bad") pending_q1))
              "Error parsing JSON: bad"
              (or_intror eq_refl) eq_refl) as (H1 & _ & _ & H2).
  split; [|split].
  - apply (H1 "q1"%string Nil None []); [reflexivity | discriminate].
  - apply (H1 "q2"%string Nil None []); [reflexivity | discriminate].
  - apply (H2 "q1"%string None). reflexivity.
Defined.

(** Looks that find the request absent or pending all end in [continue]. *)
Lemma pending_looks_time_out
    (IterBuffered_first : gmap string loc -> option (string * loc))
    (looks : list WSSClient) (requestID : string) (temp : option loc) :
  Forall (fun w => no_error_pending w
                   /\ (resultsMap w !! requestID = None
                       \/ resultsMap w !! requestID = Some Nil)) looks ->
  GetResponseSync_loop IterBuffered_first looks requestID temp = TimedOut.
Proof.
  induction 1 as [|w looks [[He Hanon] Hid] _ IH]; [reflexivity|].
  simpl.
  assert (Hp : poll IterBuffered_first w requestID temp = Wait temp).
  { unfold poll.
    destruct He as [-> | ->]; destruct Hid as [-> | ->]; try reflexivity;
      destruct (resultsMap w !! ""%string) as [[|e|v]|] eqn:E;
      try reflexivity; exfalso; eapply Hanon; reflexivity. }
  rewrite Hp. exact IH.
Qed.

(** X16. A call whose request never leaves the pending state ends with
    the timeout error, and so does a call whose entry has vanished: over
    any number of looks in which no error is pending and the entry of the
    request is absent or nil, [GetResponseSync] keeps waiting and returns
    the timeout once the looks are over.  A teardown, which empties the
    table, therefore shows to a waiting caller as a timeout. *)
Theorem GetResponseSync_times_out
    (IterBuffered_first : gmap string loc -> option (string * loc))
    (looks : list WSSClient) (requestID : string) (temp : option loc) :
  Forall (fun w => no_error_pending w
                   /\ (resultsMap w !! requestID = None
                       \/ resultsMap w !! requestID = Some Nil)) looks ->
  GetResponseSync_loop IterBuffered_first looks requestID temp = TimedOut.
Proof.
  apply pending_looks_time_out.
Qed.

Lemma GetResponseSync_times_out_witness :
  Forall (fun w => no_error_pending w
                   /\ (resultsMap w !! "q1"%string = None
                       \/ resultsMap w !! "q1"%string = Some Nil))
    [pending_q1; pending_q1; snd (shutdown pending_q1)]
  /\ GetResponseSync_loop first_of
       [pending_q1; pending_q1; snd (shutdown pending_q1)] "q1" None
     = TimedOut.
Proof.
  assert (H : Forall (fun w => no_error_pending w
                   /\ (resultsMap w !! "q1"%string = None
                       \/ resultsMap w !! "q1"%string = Some Nil))
                [pending_q1; pending_q1; snd (shutdown pending_q1)]).
  { repeat constructor; try (right; reflexivity); try (left; reflexivity);
      intros e; discriminate. }
  split; [exact H|].
  exact (GetResponseSync_times_out first_of _ "q1" None H).
Defined.

(** X17. A collection that holds fewer (or more) fragments than the
    fragment seen first declares never completes by itself: when that
    fragment has rows and its declared total is neither zero nor the
    number of fragments filed, every look at this state ends in
    [continue], and the call returns the timeout. *)
Theorem GetResponseSync_waits_for_declared_total
    (IterBuffered_first : gmap string loc -> option (string * loc))
    (w : WSSClient) (requestID : string) (v : gmap string loc) (t : loc)
    (n : nat) :
  no_error_pending w ->
  resultsMap w !! requestID = Some (Responses v) ->
  size v <> O ->
  temp_after IterBuffered_first v None = Some t ->
  Data (heap w t) <> [] ->
  TotalSubBatches (heap w t) <> 0 ->
  TotalSubBatches (heap w t) <> Z.of_nat (size v) ->
  GetResponseSync IterBuffered_first (repeat w n) requestID = TimedOut.
Proof.
  intros Hq Hentry Hs Ht Hd H0 Hn.
  assert (Hloop : forall k,
             GetResponseSync_loop IterBuffered_first (repeat w k) requestID
               (Some t) = TimedOut).
  { induction k as [|k IH]; [reflexivity|].
    simpl. rewrite (poll_collect _ _ _ v) by assumption.
    rewrite (collect_incomplete _ w v (Some t) t); auto. }
  unfold GetResponseSync. destruct n as [|n]; [reflexivity|].
  simpl. rewrite (poll_collect _ _ _ v) by assumption.
  rewrite (collect_incomplete _ w v None t); auto.
Qed.

Lemma GetResponseSync_waits_for_declared_total_witness :
  no_error_pending (receive [(txt "{}", fragment 1 2 ["row1"%string])])
  /\ exists v t,
       resultsMap (receive [(txt "{}", fragment 1 2 ["row1"%string])])
         !! "q1"%string = Some (Responses v)
       /\ size v <> O
       /\ temp_after first_of v None = Some t
       /\ GetResponseSync first_of
            (repeat (receive [(txt "{}", fragment 1 2 ["row1"%string])]) 3)
            "q1" = TimedOut.
Proof.
  assert (Hq : no_error_pending
                 (receive [(txt "{}", fragment 1 2 ["row1"%string])])).
  { apply pending_q1_quiet. intros mr [<-|[]]; reflexivity. }
  split; [exact Hq|].
  exists (coll_of (receive [(txt "{}", fragment 1 2 ["row1"%string])]) "q1"),
         O.
  assert (Hentry :
            resultsMap (receive [(txt "{}", fragment 1 2 ["row1"%string])])
              !! "q1"%string
            = Some (Responses
                      (coll_of (receive [(txt "{}",
                                          fragment 1 2 ["row1"%string])])
                         "q1"))) by (vm_compute; reflexivity).
  assert (Hsize :
            size (coll_of (receive [(txt "{}", fragment 1 2 ["row1"%string])])
                    "q1") <> O) by (vm_compute; discriminate).
  assert (Htemp :
            temp_after first_of
              (coll_of (receive [(txt "{}", fragment 1 2 ["row1"%string])])
                 "q1") None = Some O) by (vm_compute; reflexivity).
  repeat (split; [assumption|]).
  apply (GetResponseSync_waits_for_declared_total first_of
           (receive [(txt "{}", fragment 1 2 ["row1"%string])]) "q1"
           (coll_of (receive [(txt "{}", fragment 1 2 ["row1"%string])]) "q1")
           O 3 Hq Hentry Hsize Htemp);
    vm_compute; discriminate.
Defined.

(** ** From a frame to the caller *)

Section Unbatched.

Variable IterBuffered_first : gmap string loc -> option (string * loc).
Variable unmarshalData : list byte -> option (list (list byte)).
Variable unmarshalRaw : list byte -> option (list byte).

Lemma set_Data_own (ks : list string) (r : Response) :
  set_Data (Data r) (set_Keys ks r) = set_Keys ks r.
Proof. destruct r; reflexivity. Qed.

(** One fragment that declares no batching, once filed, is what the
    facade returns: the object filed, rows and keys. *)
Lemma unbatched_fragment_returned message r w0 rest :
  iter_sound IterBuffered_first ->
  TotalSubBatches r = 0 ->
  SubBatchSerial r = 0 \/ SubBatchSerial r = 1 ->
  Data r <> [] ->
  coll_of w0 (RequestID r) = ∅ ->
  no_error_pending (storeFragment unmarshalData unmarshalRaw message r w0) ->
  exists w',
    GetResponseSync IterBuffered_first
      (storeFragment unmarshalData unmarshalRaw message r w0 :: rest)
      (RequestID r)
    = Done (Ptr (next w0)) None w'
    /\ heap w' (next w0)
       = set_Keys (extractKeys unmarshalData unmarshalRaw message) r.
Proof.
  intros Hiter Htot Hser Hrows Hempty Hq.
  set (w := storeFragment unmarshalData unmarshalRaw message r w0) in *.
  set (l := next w0).
  pose proof (storeFragment_object unmarshalData unmarshalRaw message r w0)
    as Hobj.
  fold w l in Hobj. rewrite Htot in Hobj. simpl in Hobj.
  assert (Hentry : resultsMap w !! RequestID r
                   = Some (Responses {[key_of r := l]})).
  { subst w. rewrite storeFragment_table, lookup_insert_eq.
    now rewrite Hempty. }
  set (v := {[key_of r := l]} : gmap string loc) in *.
  assert (Hsize : size v = 1%nat) by apply map_size_singleton.
  assert (Hne : v <> ∅) by apply insert_non_empty.
  destruct (Hiter v Hne) as (k & t & Hfirst & Hk).
  assert (t = l) as ->.
  { subst v. apply lookup_singleton_Some in Hk as [_ ?]. congruence. }
  assert (Htemp : temp_after IterBuffered_first v None = Some l).
  { unfold temp_after. now rewrite Hfirst. }
  assert (Hlook :
            (v !! gostring.of_rune_of_int 0 = Some l
             /\ v !! gostring.of_rune_of_int 1 = None)
            \/ (v !! gostring.of_rune_of_int 0 = None
                /\ v !! gostring.of_rune_of_int 1 = Some l)).
  { subst v. unfold key_of.
    destruct Hser as [-> | ->]; [left | right]; split;
      first [ apply lookup_singleton_eq
            | apply lookup_singleton_ne; vm_compute; discriminate ]. }
  assert (Hlast : latest v = Some l).
  { unfold latest. rewrite Hsize. change (Z.of_nat 1) with 1.
    destruct Hlook as [[H0 H1] | [H0 H1]]; rewrite H1;
      [exact H0 | reflexivity]. }
  assert (Hmerge : merge w v = Data r).
  { unfold merge. rewrite Hsize. simpl seq. simpl fold_left.
    change (Z.of_nat 0) with 0. change (Z.of_nat 1) with 1.
    destruct Hlook as [[H0 H1] | [H0 H1]]; rewrite H0, H1, Hobj;
      reflexivity. }
  exists (store_Data l (merge w v) w). split.
  - unfold GetResponseSync. simpl.
    rewrite (poll_collect _ _ _ v) by assumption.
    rewrite (collect_complete _ w v None l l); auto.
    + lia.
    + rewrite Hobj. exact Hrows.
    + left. rewrite Hobj. exact Htot.
  - simpl. rewrite Nat.eqb_refl, Hmerge, Hobj. apply set_Data_own.
Qed.

End Unbatched.

(** X18. From the socket to the caller, for a result that is not split.
    When the receiver reads, on an open connection, a data frame that
    decodes without error to a response with rows, total zero and serial 0
    or 1, for a request that has no fragment yet, its loop goes on, and
    the next look of [GetResponseSync] at that request returns, without
    error, the response as decoded with the column keys that
    [extractKeys] reads off the frame. *)
Theorem frame_to_response
    (IterBuffered_first : gmap string loc -> option (string * loc))
    (unmarshalResponse : list byte -> option Response * option string)
    (unmarshalLog : list byte -> option LogMessage * option string)
    (unmarshalData : list byte -> option (list (list byte)))
    (unmarshalRaw : list byte -> option (list byte))
    (message : list byte) (r : Response) (w0 : WSSClient) (c : conn)
    (rest : list WSSClient) :
  iter_sound IterBuffered_first ->
  Conn w0 = Some c ->
  unmarshalResponse message = (Some r, None) ->
  MessageType r = "DATA"%string ->
  TotalSubBatches r = 0 ->
  SubBatchSerial r = 0 \/ SubBatchSerial r = 1 ->
  Data r <> [] ->
  coll_of w0 (RequestID r) = ∅ ->
  no_error_pending (storeFragment unmarshalData unmarshalRaw message r w0) ->
  exists w1 l w2,
    receiveMessageAsync_step unmarshalResponse unmarshalLog unmarshalData
      unmarshalRaw false (ReadFrame (Some message)) w0
    = (Next, [], w1)
    /\ GetResponseSync IterBuffered_first (w1 :: rest) (RequestID r)
       = Done (Ptr l) None w2
    /\ heap w2 l
       = set_Keys (extractKeys unmarshalData unmarshalRaw message) r.
Proof.
  intros Hiter Hc Hd Ht Htot Hser Hrows Hempty Hq.
  destruct (unbatched_fragment_returned IterBuffered_first unmarshalData
              unmarshalRaw message r w0 rest Hiter Htot Hser Hrows Hempty Hq)
    as (w2 & Hg & Hh).
  exists (storeFragment unmarshalData unmarshalRaw message r w0),
         (next w0), w2.
  split; [|split; assumption].
  unfold receiveMessageAsync_step, receiveMessageAsync_body, handleMessage.
  rewrite Hc, Hd, Ht.
  change (MessageType_String LOG_MESSAGE) with "LOG_MESSAGE"%string.
  change (MessageType_String DATA) with "DATA"%string.
  reflexivity.
Qed.

Lemma frame_to_response_witness :
  exists w1 l w2,
    receiveMessageAsync_step
      (fun _ => (Some (fragment 0 0 ["row1"%string]), None))
      (fun _ => (None, None)) json.unmarshal_data json.unmarshal_raw
      false (ReadFrame (Some frame_ab)) pending_q1
    = (Next, [], w1)
    /\ GetResponseSync first_of [w1] "q1" = Done (Ptr l) None w2
    /\ Data (heap w2 l) = ["row1"%string]
    /\ Keys (heap w2 l) = ["a"; "b"]%string.
Proof.
  assert (Hq : no_error_pending
                 (storeFragment json.unmarshal_data json.unmarshal_raw
                    frame_ab (fragment 0 0 ["row1"%string]) pending_q1)).
  { apply (pending_q1_quiet [(frame_ab, fragment 0 0 ["row1"%string])]).
    intros mr [<-|[]]; reflexivity. }
  destruct (frame_to_response first_of
              (fun _ => (Some (fragment 0 0 ["row1"%string]), None))
              (fun _ => (None, None)) json.unmarshal_data json.unmarshal_raw
              frame_ab (fragment 0 0 ["row1"%string]) pending_q1 O []
              first_of_sound eq_refl eq_refl eq_refl eq_refl
              (or_introl eq_refl) ltac:(discriminate) eq_refl Hq)
    as (w1 & l & w2 & Hs & Hg & Hh).
  exists w1, l, w2. rewrite Hh.
  split; [exact Hs|]. split; [exact Hg|].
  split; [reflexivity | vm_compute; reflexivity].
Defined.

(** ** Serials that count from zero, and serials that share a key *)

Section ZeroBased.

Lemma serial0_nth (fs : list Response) (N : nat) j r :
  map SubBatchSerial fs = map Z.of_nat (seq 0 N) ->
  nth_error fs j = Some r ->
  SubBatchSerial r = Z.of_nat j /\ (j < N)%nat.
Proof.
  intros Hs Hj.
  pose proof (map_nth_error SubBatchSerial _ _ Hj) as H.
  rewrite Hs, nth_error_map, nth_error_seq in H.
  destruct (Nat.ltb_spec j N); simpl in H; [|discriminate].
  injection H as H. split; [symmetry; exact H | assumption].
Qed.

Lemma serial0_keys_NoDup (fs : list Response) (N : nat) :
  (N <= max_distinct)%nat ->
  map SubBatchSerial fs = map Z.of_nat (seq 0 N) ->
  List.NoDup (map key_of fs).
Proof.
  intros HN Hs.
  replace (map key_of fs)
    with (map (fun i => gostring.of_int (Z.of_nat i)) (seq 0 N)).
  - apply NoDup_map_NoDup_ForallPairs; [|apply seq_NoDup].
    intros x y Hx Hy Heq. apply in_seq in Hx, Hy.
    apply of_int_inj in Heq; lia.
  - rewrite <- (map_map Z.of_nat gostring.of_int), <- Hs, map_map.
    reflexivity.
Qed.

End ZeroBased.

(** X19. Serials that count from zero merge too, through the fallback to
    the key of zero.  For 1 <= N <= 55296, fragments of one request with
    serials 0..N-1, each declaring the total N, filed in any order into an
    entry without fragments: if no error is pending and the fragment the
    iteration yields first has rows, [GetResponseSync] returns, without
    error, the object filed for serial 0 (the key of the count N being
    vacant), with the rows of all fragments in the order of their
    serials. *)
Theorem GetResponseSync_merges_zero_based
    (IterBuffered_first : gmap string loc -> option (string * loc))
    (unmarshalData : list byte -> option (list (list byte)))
    (unmarshalRaw : list byte -> option (list byte))
    (N : nat) (fs : list Response) (arrival : list (list byte * Response))
    (w0 : WSSClient) (requestID : string) (rest : list WSSClient) :
  iter_sound IterBuffered_first ->
  (1 <= N <= max_distinct)%nat ->
  map SubBatchSerial fs = map Z.of_nat (seq 0 N) ->
  Forall (fun r => TotalSubBatches r = Z.of_nat N /\ RequestID r = requestID)
    fs ->
  Permutation (map snd arrival) fs ->
  coll_of w0 requestID = ∅ ->
  no_error_pending (receive_all unmarshalData unmarshalRaw arrival w0) ->
  (forall r,
      first_seen IterBuffered_first
        (receive_all unmarshalData unmarshalRaw arrival w0) requestID = Some r ->
      Data r <> []) ->
  exists l w',
    GetResponseSync IterBuffered_first
      (receive_all unmarshalData unmarshalRaw arrival w0 :: rest) requestID
    = Done (Ptr l) None w'
    /\ coll_of (receive_all unmarshalData unmarshalRaw arrival w0) requestID
         !! gostring.of_int 0 = Some l
    /\ Data (heap w' l) = concat (map Data fs).
Proof.
  intros Hiter HN Hser Hall Hperm Hempty Hquiet Hrows.
  set (w := receive_all unmarshalData unmarshalRaw arrival w0) in *.
  rewrite List.Forall_forall in Hall.
  assert (Hlen : length fs = N).
  { rewrite <- (length_map SubBatchSerial), Hser, length_map.
    apply length_seq. }
  assert (Hfiled : filed requestID w fs).
  { apply filed_perm with (fs := rev (map snd arrival) ++ []).
    - rewrite app_nil_r. rewrite <- Hperm. apply Permutation_sym.
      apply Permutation_rev.
    - apply filed_receive_all.
      + now apply filed_nothing.
      + intros mr Hin. apply Hall.
        eapply Permutation_in; [exact Hperm|]. now apply in_map.
      + rewrite app_nil_r.
        apply Permutation_NoDup with (l := map key_of fs).
        * apply Permutation_map. rewrite <- Hperm. apply Permutation_rev.
        * apply serial0_keys_NoDup with (N := N); [lia | assumption]. }
  destruct Hfiled as (H1 & H2 & H3).
  set (v := coll_of w requestID) in *.
  assert (Hentry : resultsMap w !! requestID = Some (Responses v)).
  { subst v. unfold coll_of in *.
    destruct (resultsMap w !! requestID) as [[| |v']|]; try reflexivity;
      rewrite map_size_empty in H3; lia. }
  assert (Hne : v <> ∅) by (apply map_size_non_empty_iff; lia).
  destruct (Hiter v Hne) as (k & t & Hfirst & Hk).
  assert (Htemp : temp_after IterBuffered_first v None = Some t).
  { unfold temp_after. now rewrite Hfirst. }
  assert (Ht : Data (heap w t) <> []).
  { apply Hrows. unfold first_seen. now rewrite Hentry, Hfirst. }
  assert (Htot : TotalSubBatches (heap w t) = Z.of_nat (size v)).
  { destruct (H2 _ _ Hk) as (_ & r & Hin & ->).
    destruct (H1 r Hin) as (l & Hl & _ & Htot).
    rewrite Hk in Hl. injection Hl as <-.
    rewrite Htot, H3, Hlen. now apply Hall. }
  assert (Hkey : forall j r, nth_error fs j = Some r ->
            exists l, v !! gostring.of_rune_of_int (Z.of_nat (0 + j)) = Some l
                      /\ Data (heap w l) = Data r).
  { intros j r Hj.
    destruct (serial0_nth _ _ _ _ Hser Hj) as (Hs & Hlt).
    destruct (H1 r (nth_error_In _ _ Hj)) as (l & Hl & Hd & _).
    exists l. split; [|assumption].
    rewrite of_rune_of_int_small by lia.
    unfold key_of in Hl. now rewrite Hs in Hl. }
  assert (Hvacant : v !! gostring.of_rune_of_int (Z.of_nat N) = None).
  { destruct (v !! gostring.of_rune_of_int (Z.of_nat N)) as [l|] eqn:E;
      [|reflexivity].
    destruct (H2 _ _ E) as (_ & r & Hin & Hk0).
    apply In_nth_error in Hin as [j Hj].
    destruct (serial0_nth _ _ _ _ Hser Hj) as (Hs & Hlt).
    rewrite of_rune_of_int_small in Hk0 by lia.
    unfold key_of in Hk0. apply of_int_inj in Hk0; lia. }
  assert (Hzero : exists l, v !! gostring.of_rune_of_int 0 = Some l).
  { destruct (nth_error fs 0) as [r|] eqn:E.
    - destruct (Hkey _ _ E) as (l & Hl & _). eauto.
    - apply nth_error_None in E. lia. }
  destruct Hzero as (l & Hl).
  assert (Hlast : latest v = Some l).
  { unfold latest. now rewrite H3, Hlen, Hvacant. }
  exists l, (store_Data l (merge w v) w). split; [|split].
  - unfold GetResponseSync. simpl.
    rewrite (poll_collect _ _ _ v) by assumption.
    rewrite (collect_complete _ w v None t l); auto. lia.
  - rewrite of_rune_of_int_small in Hl by lia. exact Hl.
  - rewrite store_Data_read. unfold merge.
    rewrite H3, seq_S, fold_left_app.
    rewrite (merge_rows w v fs 0 []) by exact Hkey.
    simpl. rewrite Hlen, Hvacant. reflexivity.
Qed.

Lemma GetResponseSync_merges_zero_based_witness :
  exists l w',
    GetResponseSync first_of
      [receive [(txt "{}", fragment 1 2 ["row2"%string]);
                (txt "{}", fragment 0 2 ["row1"%string])]] "q1"
    = Done (Ptr l) None w'
    /\ coll_of (receive [(txt "{}", fragment 1 2 ["row2"%string]);
                         (txt "{}", fragment 0 2 ["row1"%string])]) "q1"
         !! gostring.of_int 0 = Some l
    /\ Data (heap w' l) = ["row1"; "row2"]%string.
Proof.
  assert (Hq : no_error_pending
                 (receive [(txt "{}", fragment 1 2 ["row2"%string]);
                           (txt "{}", fragment 0 2 ["row1"%string])])).
  { apply pending_q1_quiet. intros mr [<-|[<-|[]]]; reflexivity. }
  assert (Hfirst : forall r,
             first_seen first_of
               (receive [(txt "{}", fragment 1 2 ["row2"%string]);
                         (txt "{}", fragment 0 2 ["row1"%string])]) "q1"
             = Some r -> Data r <> []).
  { intros r H. vm_compute in H. injection H as <-. discriminate. }
  assert (HN : (1 <= 2 <= max_distinct)%nat)
    by (unfold max_distinct, gostring.surrogateMin; lia).
  assert (Hall : Forall (fun r => TotalSubBatches r = Z.of_nat 2
                                  /\ RequestID r = "q1"%string)
                   [fragment 0 2 ["row1"%string];
                    fragment 1 2 ["row2"%string]])
    by (repeat constructor).
  exact (GetResponseSync_merges_zero_based first_of json.unmarshal_data
           json.unmarshal_raw 2
           [fragment 0 2 ["row1"%string]; fragment 1 2 ["row2"%string]]
           [(txt "{}", fragment 1 2 ["row2"%string]);
            (txt "{}", fragment 0 2 ["row1"%string])]
           pending_q1 "q1" [] first_of_sound HN eq_refl Hall
           (perm_swap _ _ _) eq_refl Hq Hfirst).
Defined.

Lemma of_int_invalid (v : Z) :
  gostring.valid_rune v = false ->
  gostring.of_int v = gostring.of_int gostring.runeError.
Proof.
  intros H. unfold gostring.of_int. rewrite H. reflexivity.
Qed.

(** X20. Fragments that share a key replace one another.  When a second
    fragment of the same request has the serial of the first, or when
    neither serial is a code point (negative, a surrogate, above
    [0x10FFFF]: all of these become the key of [U+FFFD]), filing it does
    not add an entry: the collection has the size it had after the first
    fragment, and the key leads to the second fragment only. *)
Theorem storeFragment_same_key_replaces
    (unmarshalData : list byte -> option (list (list byte)))
    (unmarshalRaw : list byte -> option (list byte))
    (m1 m2 : list byte) (r1 r2 : Response) (w : WSSClient) :
  RequestID r1 = RequestID r2 ->
  SubBatchSerial r1 = SubBatchSerial r2
  \/ (gostring.valid_rune (SubBatchSerial r1) = false
      /\ gostring.valid_rune (SubBatchSerial r2) = false) ->
  let w1 := storeFragment unmarshalData unmarshalRaw m1 r1 w in
  let w2 := storeFragment unmarshalData unmarshalRaw m2 r2 w1 in
  key_of r1 = key_of r2
  /\ size (coll_of w2 (RequestID r2)) = size (coll_of w1 (RequestID r1))
  /\ coll_of w2 (RequestID r2) !! key_of r1 = Some (S (next w))
  /\ Data (heap w2 (S (next w))) = Data r2.
Proof.
  intros Hid Hser. cbv zeta.
  assert (Hkey : key_of r1 = key_of r2).
  { unfold key_of. destruct Hser as [-> | [H1 H2]]; [reflexivity|].
    now rewrite (of_int_invalid _ H1), (of_int_invalid _ H2). }
  split; [exact Hkey|].
  set (c := coll_of w (RequestID r1)).
  assert (Hc1 : coll_of (storeFragment unmarshalData unmarshalRaw m1 r1 w)
                  (RequestID r1) = <[key_of r1 := next w]> c)
    by apply storeFragment_coll.
  assert (Hc2 : coll_of
                  (storeFragment unmarshalData unmarshalRaw m2 r2
                     (storeFragment unmarshalData unmarshalRaw m1 r1 w))
                  (RequestID r2) = <[key_of r1 := S (next w)]> c).
  { rewrite storeFragment_coll, storeFragment_next, <- Hid, Hc1, <- Hkey.
    apply insert_insert_eq. }
  rewrite Hc1, Hc2. repeat split.
  - destruct (c !! key_of r1) eqn:E.
    + rewrite !map_size_insert_Some by eauto. reflexivity.
    + rewrite !map_size_insert_None by assumption. reflexivity.
  - apply lookup_insert_eq.
  - pose proof (storeFragment_heap_new unmarshalData unmarshalRaw m2 r2
                  (storeFragment unmarshalData unmarshalRaw m1 r1 w))
      as (Hd & _).
    now rewrite storeFragment_next in Hd.
Qed.

Lemma storeFragment_same_key_replaces_witness :
  gostring.valid_rune (-1) = false
  /\ gostring.valid_rune 55296 = false
  /\ key_of (fragment (-1) 2 ["row1"%string])
     = key_of (fragment 55296 2 ["row2"%string])
  /\ size (coll_of (receive [(txt "{}", fragment (-1) 2 ["row1"%string]);
                             (txt "{}", fragment 55296 2 ["row2"%string])])
             "q1") = 1%nat.
Proof.
  destruct (storeFragment_same_key_replaces json.unmarshal_data
              json.unmarshal_raw (txt "{}") (txt "{}")
              (fragment (-1) 2 ["row1"%string])
              (fragment 55296 2 ["row2"%string]) pending_q1 eq_refl
              (or_intror (conj eq_refl eq_refl))) as (Hk & Hs & _).
  split; [reflexivity|]. split; [reflexivity|]. split; [exact Hk|].
  etransitivity; [exact Hs | vm_compute; reflexivity].
Defined.

(** ** Package [boilingdata]: the registry and [Query] *)

Import boilingdata.

(** X21. [GetInstance] gets or makes: the first call for a user registers
    a new instance that holds the user name and the password (and a new,
    closed client); the user is then found under that pointer.  A later
    call for the same user returns the same pointer and leaves the
    registry as it is, also when it comes with another password: the
    password of the first call stays.  The other users keep their
    instances. *)
Theorem GetInstance_gets_or_makes (WssUrl : string) (IdleTimeoutMinutes : Z)
    (user pass pass' : string) (reg : registry) :
  let first := GetInstance WssUrl IdleTimeoutMinutes user pass reg in
  let again := GetInstance WssUrl IdleTimeoutMinutes user pass' (snd first) in
  queryServiceMap (snd first) !! user = Some (fst first)
  /\ fst again = fst first
  /\ snd again = snd first
  /\ (forall other, other <> user ->
        queryServiceMap (snd first) !! other = queryServiceMap reg !! other)
  /\ match queryServiceMap reg !! user with
     | Some qs => fst first = qs /\ snd first = reg
     | None =>
         fst first = next_instance reg
         /\ instances (snd first) !! fst first
            = Some {| Wsc := NewWSSClient IdleTimeoutMinutes WssUrl 0;
                      Auth_of := {| userName := user; password := pass |} |}
     end.
Proof.
  cbv zeta. unfold GetInstance.
  destruct (queryServiceMap reg !! user) as [qs|] eqn:E; simpl.
  - rewrite E. simpl. repeat split; auto.
  - rewrite lookup_insert_eq. simpl.
    split; [reflexivity|]. split; [reflexivity|]. split; [reflexivity|].
    split; [intros other Hne; now apply lookup_insert_ne|].
    split; [reflexivity | apply lookup_insert_eq].
Qed.

Lemma GetInstance_lookup (WssUrl : string) (IdleTimeoutMinutes : Z)
    (user pass : string) (reg : registry) :
  queryServiceMap (snd (GetInstance WssUrl IdleTimeoutMinutes user pass reg))
    !! user
  = Some (fst (GetInstance WssUrl IdleTimeoutMinutes user pass reg))
  /\ forall other, other <> user ->
       queryServiceMap
         (snd (GetInstance WssUrl IdleTimeoutMinutes user pass reg)) !! other
       = queryServiceMap reg !! other.
Proof.
  unfold GetInstance.
  destruct (queryServiceMap reg !! user) as [qs|] eqn:E; simpl.
  - auto.
  - split; [apply lookup_insert_eq|].
    intros other Hne. now apply lookup_insert_ne.
Qed.

(** X22. [GetInstanceByToken] finds what [GetInstance] registered and
    nothing that [RemoveUser] removed: a token whose email claim names a
    user just registered answers the pointer [GetInstance] returned; after
    [RemoveUser] the same token is refused as not valid, while the tokens
    of the other users answer as before; and the next [GetInstance] for
    the removed user makes a new instance with the password it is given. *)
Theorem GetInstanceByToken_follows_registry (WssUrl : string)
    (IdleTimeoutMinutes : Z) (user pass pass' other : string)
    (reg : registry) :
  let registered := GetInstance WssUrl IdleTimeoutMinutes user pass reg in
  let removed := RemoveUser user (snd registered) in
  let remade := GetInstance WssUrl IdleTimeoutMinutes user pass' removed in
  GetInstanceByToken (MapClaims (Some user)) (snd registered)
  = Found (fst registered)
  /\ GetInstanceByToken (MapClaims (Some user)) removed
     = Refused "Token not valid, please login using credentials"
  /\ (if String.eqb other user then True
      else GetInstanceByToken (MapClaims (Some other)) removed
           = GetInstanceByToken (MapClaims (Some other)) reg)
  /\ fst remade = next_instance (snd registered)
  /\ instances (snd remade) !! fst remade
     = Some {| Wsc := NewWSSClient IdleTimeoutMinutes WssUrl 0;
               Auth_of := {| userName := user; password := pass' |} |}
  /\ GetInstanceByToken (MapClaims (Some user)) (snd remade)
     = Found (fst remade).
Proof.
  cbv zeta.
  pose proof (GetInstance_lookup WssUrl IdleTimeoutMinutes user pass reg)
    as (Hl & Ho).
  set (reg1 := snd (GetInstance WssUrl IdleTimeoutMinutes user pass reg)) in *.
  set (qs := fst (GetInstance WssUrl IdleTimeoutMinutes user pass reg)) in *.
  assert (Hrm : queryServiceMap (RemoveUser user reg1) !! user = None).
  { unfold RemoveUser. simpl. apply lookup_delete_eq. }
  split; [|split; [|split]].
  - unfold GetInstanceByToken. now rewrite Hl.
  - unfold GetInstanceByToken. now rewrite Hrm.
  - destruct (String.eqb_spec other user) as [|Hne]; [exact I|].
    unfold GetInstanceByToken, RemoveUser. simpl.
    rewrite lookup_delete_ne by congruence. now rewrite Ho.
  - unfold GetInstance. rewrite Hrm. simpl.
    repeat split; try (unfold GetInstanceByToken; simpl);
      rewrite lookup_insert_eq; reflexivity.
Qed.

(** X23. [Query] hands no frame to the sender and writes nothing to the
    correlation table unless the payload decodes and the client is, or
    gets, connected.  When the payload does not decode, or when the client
    is closed and the authentication, the signing of the header or the
    dial fails, the call returns an error, and the frames waiting and the
    table are as before the call. *)
Theorem Query_fails_before_sending
    (IterBuffered_first : gmap string loc -> option (string * loc))
    (verbs : string -> string)
    (authenticate : string + string) (sign : string -> option string)
    (dial : conn + string)
    (unmarshalPayload : list byte -> Payload * option string)
    (after_send : WSSClient -> option (WSSClient * list WSSClient))
    (payloadMessage : list byte) (w : WSSClient) :
  snd (unmarshalPayload payloadMessage) <> None
  \/ (IsWebSocketClosed w = true
      /\ ((exists e, authenticate = inr e)
          \/ (exists token e, authenticate = inl token /\ sign token = Some e)
          \/ (exists e, dial = inr e))) ->
  exists err w',
    Query IterBuffered_first verbs authenticate sign dial unmarshalPayload
      after_send payloadMessage w = QueryError err w'
    /\ messageChannel w' = messageChannel w
    /\ resultsMap w' = resultsMap w.
Proof.
  intros H. unfold Query.
  destruct (IsWebSocketClosed w) eqn:Ec.
  - destruct authenticate as [token|ea]; [|eauto].
    destruct (sign token) as [es|] eqn:Es; [eauto|].
    assert (Hk : messageChannel (Connect dial w) = messageChannel w
                 /\ resultsMap (Connect dial w) = resultsMap w).
    { unfold Connect, connect. rewrite Ec. destruct dial; split; reflexivity. }
    destruct Hk as (Hq & Ht).
    destruct (IsWebSocketClosed (Connect dial w)) eqn:Ec'; [eauto|].
    destruct (unmarshalPayload payloadMessage) as [payload [e|]]; [eauto|].
    exfalso. destruct H as [H | (_ & [(e & He) | [(t & e & Ht' & Hs) | (e & He)]])].
    + now apply H.
    + discriminate.
    + injection Ht' as <-. congruence.
    + subst dial. unfold Connect, connect, IsWebSocketClosed in Ec'.
      unfold IsWebSocketClosed in Ec. destruct (Conn w) eqn:E; [discriminate|].
      simpl in Ec'. rewrite E in Ec'. discriminate.
  - destruct (unmarshalPayload payloadMessage) as [payload [e|]]; [eauto|].
    exfalso. destruct H as [H | (H & _)]; [now apply H | discriminate].
Qed.

Lemma Query_fails_before_sending_witness :
  IsWebSocketClosed (NewWSSClient 5 "wss://host" 0) = true
  /\ exists err w',
       Query first_of (fun format => format) (inl "token"%string)
         (fun _ => None) (inr "dial tcp: connection refused"%string)
         (fun _ => (payload_q1, None)) (fun sent => Some (sent, [sent]))
         (txt "{}") (NewWSSClient 5 "wss://host" 0)
       = QueryError err w'
       /\ messageChannel w' = messageChannel (NewWSSClient 5 "wss://host" 0)
       /\ resultsMap w' = resultsMap (NewWSSClient 5 "wss://host" 0).
Proof.
  split; [reflexivity|].
  apply (Query_fails_before_sending first_of (fun format => format)
           (inl "token"%string) (fun _ => None)
           (inr "dial tcp: connection refused"%string)
           (fun _ => (payload_q1, None)) (fun sent => Some (sent, [sent]))
           (txt "{}") (NewWSSClient 5 "wss://host" 0)).
  right. split; [reflexivity|]. right. right. eauto.
Defined.

Section QueryFacts.

Variable IterBuffered_first : gmap string loc -> option (string * loc).

(** [GetResponseSync] answers with a look's return or with the timeout. *)
Lemma GetResponseSync_loop_not_Wait looks requestID :
  forall temp temp',
    GetResponseSync_loop IterBuffered_first looks requestID temp
    <> Wait temp'.
Proof.
  induction looks as [|w looks IH]; intros temp temp'; simpl; [discriminate|].
  destruct (poll IterBuffered_first w requestID temp) eqn:E;
    try discriminate.
  apply IH.
Qed.

End QueryFacts.

(** What [SendMessage] leaves in the two slots it writes. *)
Lemma SendMessage_slots (message : list byte) (payload : Payload)
    (w : WSSClient) :
  resultsMap (SendMessage message payload w) !! "error"%string = Some Nil
  /\ resultsMap (SendMessage message payload w) !! Payload_RequestID payload
     = Some Nil
  /\ forall k, k <> "error"%string -> k <> Payload_RequestID payload ->
       resultsMap (SendMessage message payload w) !! k = resultsMap w !! k.
Proof.
  unfold SendMessage, enqueue, Set_. simpl. repeat split.
  - destruct (decide (Payload_RequestID payload = "error"%string)) as [->|Hne].
    + apply lookup_insert_eq.
    + rewrite lookup_insert_ne by done. apply lookup_insert_eq.
  - apply lookup_insert_eq.
  - intros k H1 H2. now rewrite !lookup_insert_ne by congruence.
Qed.

(** The client [Query] sends on: the client itself when it is open, the
    client after [Connect] when it is closed. *)
Lemma Query_sends_on
    (IterBuffered_first : gmap string loc -> option (string * loc))
    (verbs : string -> string)
    (authenticate : string + string) (sign : string -> option string)
    (dial : conn + string)
    (unmarshalPayload : list byte -> Payload * option string)
    (after_send : WSSClient -> option (WSSClient * list WSSClient))
    (payloadMessage : list byte) (w : WSSClient) (l : loc) (w' : WSSClient) :
  Query IterBuffered_first verbs authenticate sign dial unmarshalPayload
    after_send payloadMessage w = QueryResponse l w' ->
  exists payload open,
    unmarshalPayload payloadMessage = (payload, None)
    /\ open = (if IsWebSocketClosed w then Connect dial w else w)
    /\ IsWebSocketClosed open = false
    /\ match after_send (SendMessage payloadMessage payload open) with
       | None => False
       | Some (received, looks) =>
           match GetResponseSync IterBuffered_first looks
                   (Payload_RequestID payload) with
           | Done (Ptr l0) None w0 =>
               Data (heap w0 l0) <> [] /\ l0 = l /\ w0 = w'
           | _ => False
           end
       end.
Proof.
  unfold Query. intros H.
  destruct (unmarshalPayload payloadMessage) as [payload [e|]] eqn:Ep.
  { destruct (IsWebSocketClosed w);
      [destruct authenticate as [tok|ea];
       [destruct (sign tok);
        [|destruct (IsWebSocketClosed (Connect dial w))]|]|];
      simpl in H; discriminate. }
  exists payload, (if IsWebSocketClosed w then Connect dial w else w).
  split; [reflexivity|]. split; [reflexivity|].
  assert (Hopen : exists open,
             open = (if IsWebSocketClosed w then Connect dial w else w)
             /\ IsWebSocketClosed open = false
             /\ match after_send (SendMessage payloadMessage payload open) with
                | None => QueryBlocked
                | Some (received, looks) =>
                    match GetResponseSync IterBuffered_first looks
                            (Payload_RequestID payload) with
                    | TimedOut =>
                        QueryError
                          (fmt.Errorf verbs
                             "timeout occurred while waiting for response")
                          (List.last looks received)
                    | Done _ (Some e) wsc' =>
                        QueryError (fmt.Errorf verbs e) wsc'
                    | Done (Ptr l) None wsc' =>
                        match Data (heap wsc' l) with
                        | [] => QueryError (fmt.Errorf verbs "") wsc'
                        | _ => QueryResponse l wsc'
                        end
                    | Done NewResponse None wsc' =>
                        QueryError (fmt.Errorf verbs "") wsc'
                    | Done NilResponse None _ => QueryPanic
                    | Wait _ => QueryPanic
                    | Crash => QueryPanic
                    end
                end = QueryResponse l w').
  { destruct (IsWebSocketClosed w) eqn:Ec.
    - destruct authenticate as [tok|ea]; [|discriminate].
      destruct (sign tok); [discriminate|].
      destruct (IsWebSocketClosed (Connect dial w)) eqn:Ec'; [discriminate|].
      exists (Connect dial w). repeat split; assumption.
    - exists w. repeat split; assumption. }
  destruct Hopen as (open & <- & Hc & Hres). split; [exact Hc|].
  destruct (after_send (SendMessage payloadMessage payload open))
    as [[received looks]|]; [|discriminate].
  destruct (GetResponseSync IterBuffered_first looks
              (Payload_RequestID payload)) as [t|p [er|] w0| |];
    try discriminate; destruct p; try discriminate.
  destruct (Data (heap w0 l0)) eqn:Ed; [discriminate|].
  injection Hres as -> ->. repeat split. congruence.
Qed.

(** X24. A response that [Query] returns has rows.  The payload has
    decoded without error, the client was open or got connected by the
    call, the sender has received the frame (the send of [SendMessage] has
    returned), and the response is the pointer that [GetResponseSync]
    returned without error on the looks after it: whenever the facade
    returns an error, a response without rows or the timeout, and
    whenever the send does not return, [Query] returns no response. *)
Theorem Query_response_has_rows
    (IterBuffered_first : gmap string loc -> option (string * loc))
    (verbs : string -> string)
    (authenticate : string + string) (sign : string -> option string)
    (dial : conn + string)
    (unmarshalPayload : list byte -> Payload * option string)
    (after_send : WSSClient -> option (WSSClient * list WSSClient))
    (payloadMessage : list byte) (w : WSSClient) (l : loc) (w' : WSSClient) :
  Query IterBuffered_first verbs authenticate sign dial unmarshalPayload
    after_send payloadMessage w = QueryResponse l w' ->
  Data (heap w' l) <> []
  /\ exists payload open received looks,
       unmarshalPayload payloadMessage = (payload, None)
       /\ open = (if IsWebSocketClosed w then Connect dial w else w)
       /\ IsWebSocketClosed open = false
       /\ after_send (SendMessage payloadMessage payload open)
          = Some (received, looks)
       /\ GetResponseSync IterBuffered_first looks (Payload_RequestID payload)
          = Done (Ptr l) None w'.
Proof.
  intros H.
  destruct (Query_sends_on _ _ _ _ _ _ _ _ _ _ _ H)
    as (payload & open & Hp & Ho & Hc & Hres).
  destruct (after_send (SendMessage payloadMessage payload open))
    as [[received looks]|] eqn:Ea; [|contradiction].
  destruct (GetResponseSync IterBuffered_first looks
              (Payload_RequestID payload)) as [t|p [er|] w0| |] eqn:Eg;
    try contradiction; destruct p; try contradiction.
  destruct Hres as (Hd & -> & ->).
  split; [exact Hd|].
  exists payload, open, received, looks. repeat split; assumption.
Qed.

Lemma Query_response_has_rows_witness :
  exists l w',
    Query first_of (fun format => format) (inl "token"%string)
      (fun _ => None) (inl O) (fun _ => (payload_q1, None))
      (fun sent =>
         Some (snd (sendMessageAsync_step 5 RecvMessage None sent),
               [storeFragment json.unmarshal_data json.unmarshal_raw
                  frame_ab (fragment 0 0 ["row1"%string])
                  (snd (sendMessageAsync_step 5 RecvMessage None sent))]))
      (txt "{}") (NewWSSClient 5 "wss://host" 0)
    = QueryResponse l w'
    /\ Data (heap w' l) <> [].
Proof.
  assert (H : exists l w',
             Query first_of (fun format => format) (inl "token"%string)
               (fun _ => None) (inl O) (fun _ => (payload_q1, None))
               (fun sent =>
                  Some (snd (sendMessageAsync_step 5 RecvMessage None sent),
                        [storeFragment json.unmarshal_data json.unmarshal_raw
                           frame_ab (fragment 0 0 ["row1"%string])
                           (snd (sendMessageAsync_step 5 RecvMessage None
                                   sent))]))
               (txt "{}") (NewWSSClient 5 "wss://host" 0)
             = QueryResponse l w').
  { do 2 eexists. vm_compute. reflexivity. }
  destruct H as (l & w' & H). exists l, w'. split; [exact H|].
  exact (proj1 (Query_response_has_rows _ _ _ _ _ _ _ _ _ _ _ H)).
Defined.



(** ** Which serials share a key *)

Import keys.

Section KeyRoundTrip.

Lemma all_read_back_sound n z :
  all_read_back n z = true ->
  forall r, z <= r < z + Z.of_nat n -> reads_back r = true.
Proof.
  revert z. induction n as [|n IH]; intros z H r Hr; [lia|].
  simpl in H. apply andb_prop in H as [Hz Hrest].
  destruct (Z.eq_dec r z) as [->|Hne]; [assumption|].
  apply (IH (z + 1)); [assumption | lia].
Qed.

Lemma code_points_read_back :
  all_read_back (Z.to_nat (gostring.maxRune + 1)) 0 = true.
Proof. vm_compute. reflexivity. Qed.

End KeyRoundTrip.

Lemma of_int_reads_back (v : Z) :
  gostring.code_of (gostring.of_int v) = code_point v.
Proof.
  unfold gostring.of_int, code_point.
  assert (H : forall r, gostring.valid_rune r = true ->
                gostring.code_of (gostring.of_bytes (gostring.encoderune r))
                = r).
  { intros r Hr. apply Z.eqb_eq.
    apply (all_read_back_sound _ _ code_points_read_back).
    unfold gostring.valid_rune, gostring.maxRune in *.
    apply andb_prop in Hr as [Hr _]. apply andb_prop in Hr as [H0 H1].
    apply Z.leb_le in H0, H1. lia. }
  destruct (gostring.valid_rune v) eqn:E; [now apply H|].
  now apply H.
Qed.

(** X26. Two fragments are filed under the same key exactly when their
    serials denote the same code point: the key of a serial that is a
    code point reads back as that serial, and every other serial
    (negative, a surrogate, above [0x10FFFF]) has the key of [U+FFFD].
    So fragments with different serials that are code points other than
    [U+FFFD] never replace one another. *)
Theorem keys_agree_on_code_points (r1 r2 : Response) :
  (key_of r1 = key_of r2
   <-> code_point (SubBatchSerial r1) = code_point (SubBatchSerial r2))
  /\ gostring.code_of (key_of r1) = code_point (SubBatchSerial r1).
Proof.
  unfold key_of. split; [split|].
  - intros H. rewrite <- !of_int_reads_back. now rewrite H.
  - intros H. unfold gostring.of_int. unfold code_point in H.
    now rewrite H.
  - apply of_int_reads_back.
Qed.
